(** * WorldState.cpp: the session model of tf2_bot_detector

    A shallow embedding of [src/tf2_bot_detector/WorldState.cpp]: the player
    table, the two lobby slot vectors, the per-line update switch
    [WorldState::OnConsoleLineParsed], the queries over the table and the
    lobby slots, the console chunk splitter and the batch selection of the
    Steam API queues.

    Conventions.
    - [std::vector] is a [list]; [resize] is stdpp's [resize].  [v[i] = x]
      is [vector_assign]: stdpp's [<[i:=x]> v] for an index below the size,
      and a result of which nothing is known for any other index, where the
      behaviour of the program is undefined.
    - The player table [m_CurrentPlayerData] is an association list holding
      the entries in the order in which the container iterates over them.
      Keys are unique (see [table_wf]).  Where an emplaced entry lands in
      that order is up to the container ([emplace]).  Queries that iterate
      are stated for every such list, hence for every iteration order.
    - Time points and durations are clock ticks in [Z]; the arithmetic of the
      source is signed and is used without overflow.
    - A C++ reference obtained from [FindOrCreatePlayer] and then assigned
      through is a read of the entry followed by [store_player].
    - [std::sort] is the relation its contract describes, since the order
      it gives to equivalent elements is not fixed.
    - A generator is the list of the values it yields together with the
      exception, if any, that ends it.
    - Enums, helper functions and containers declared in other files are
      parameters ([HeaderDecls]) or, for the pending set of the batched
      actions, modelled from the specification.
    - The score counters are unsigned integers in [N]; [++] wraps around at
      the number of values of their type. *)

From Stdlib Require Import ZArith Ascii String Sorted Permutation.
From stdpp Require Import base numbers list sets strings sorting gmap.

Definition SteamID := N.
Definition time_point_t := Z.
Definition duration_t := Z.

(** [TFTeam]: the two enumerators the source assigns. *)
Inductive TFTeam := Red | Blue.

Inductive TeamShareResult := SameTeams | OppositeTeams | Neither.

(** Outcome of a function that may [throw std::runtime_error(what)]. *)
Inductive thrown (A : Type) :=
| Returned (a : A)
| Threw (what : string).
Arguments Returned {A} a.
Arguments Threw {A} what.

(** [std::vector::empty] *)
Definition vector_empty {A : Type} (v : list A) : bool :=
  match v with [] => true | _ :: _ => false end.

(** ** Records *)

(** The records hold the members this file reads or writes. *)

Module LobbyMember.
Record t (Team : Type) := mk {
  m_SteamID : SteamID;
  m_Index : nat;
  m_Team : Team;
  m_Pending : bool;
}.
Arguments mk {Team}.
Arguments m_SteamID {Team}.
Arguments m_Index {Team}.
Arguments m_Team {Team}.
Arguments m_Pending {Team}.
End LobbyMember.

Module PlayerStatus.
Record t (State : Type) := mk {
  m_SteamID : SteamID;
  m_Name : string;
  m_State : State;
  m_ConnectionTime : time_point_t;
  m_UserID : N;
  m_Ping : N;
}.
Arguments mk {State}.
Arguments m_SteamID {State}.
Arguments m_Name {State}.
Arguments m_State {State}.
Arguments m_ConnectionTime {State}.
Arguments m_UserID {State}.
Arguments m_Ping {State}.

Definition with_ConnectionTime {State} (s : t State) (c : time_point_t) : t State :=
  mk (m_SteamID s) (m_Name s) (m_State s) c (m_UserID s) (m_Ping s).

Definition with_Ping {State} (s : t State) (p : N) : t State :=
  mk (m_SteamID s) (m_Name s) (m_State s) (m_ConnectionTime s) (m_UserID s) p.
End PlayerStatus.

(** [PlayerScores], the four counters of [m_Scores]. *)
Module PlayerScores.
Record t := mk {
  m_Kills : N;
  m_Deaths : N;
  m_LocalKills : N;
  m_LocalDeaths : N;
}.
End PlayerScores.

Module PlayerExtraData.
Record t (State : Type) := mk {
  m_Status : PlayerStatus.t State;
  m_LastStatusActiveBegin : time_point_t;
  m_LastStatusUpdateTime : time_point_t;
  m_LastPingUpdateTime : time_point_t;
  m_Team : option TFTeam;
  m_ClientIndex : N;
  m_Scores : PlayerScores.t;
}.
Arguments mk {State}.
Arguments m_Status {State}.
Arguments m_LastStatusActiveBegin {State}.
Arguments m_LastStatusUpdateTime {State}.
Arguments m_LastPingUpdateTime {State}.
Arguments m_Team {State}.
Arguments m_ClientIndex {State}.
Arguments m_Scores {State}.

Definition with_Team {State} (p : t State) (team : option TFTeam) : t State :=
  mk (m_Status p) (m_LastStatusActiveBegin p) (m_LastStatusUpdateTime p)
     (m_LastPingUpdateTime p) team (m_ClientIndex p) (m_Scores p).

Definition with_ClientIndex {State} (p : t State) (i : N) : t State :=
  mk (m_Status p) (m_LastStatusActiveBegin p) (m_LastStatusUpdateTime p)
     (m_LastPingUpdateTime p) (m_Team p) i (m_Scores p).

Definition with_Scores {State} (p : t State) (scores : PlayerScores.t) : t State :=
  mk (m_Status p) (m_LastStatusActiveBegin p) (m_LastStatusUpdateTime p)
     (m_LastPingUpdateTime p) (m_Team p) (m_ClientIndex p) scores.
End PlayerExtraData.

(** [Settings]: whether [GetHTTPClient()] returns a client, [GetSteamAPIKey()]
    and [GetLocalSteamID()]. *)
Module Settings.
Record t := mk {
  m_HTTPClient : bool;
  m_SteamAPIKey : string;
  m_LocalSteamID : SteamID;
}.
End Settings.

Module WorldState.
Record t (Team State : Type) := mk {
  m_Settings : Settings.t;
  m_CurrentLobbyMembers : list (LobbyMember.t Team);
  m_PendingLobbyMembers : list (LobbyMember.t Team);
  m_CurrentPlayerData : list (SteamID * PlayerExtraData.t State);
  m_IsLocalPlayerInitialized : bool;
  m_IsVoteInProgress : bool;
  m_LastStatusUpdateTime : time_point_t;
  m_CurrentTimestamp : time_point_t;
}.
Arguments mk {Team State}.
Arguments m_Settings {Team State}.
Arguments m_CurrentLobbyMembers {Team State}.
Arguments m_PendingLobbyMembers {Team State}.
Arguments m_CurrentPlayerData {Team State}.
Arguments m_IsLocalPlayerInitialized {Team State}.
Arguments m_IsVoteInProgress {Team State}.
Arguments m_LastStatusUpdateTime {Team State}.
Arguments m_CurrentTimestamp {Team State}.

Definition with_lobby {Team State} (w : t Team State)
    (cur pend : list (LobbyMember.t Team)) : t Team State :=
  mk (m_Settings w) cur pend (m_CurrentPlayerData w)
     (m_IsLocalPlayerInitialized w) (m_IsVoteInProgress w)
     (m_LastStatusUpdateTime w) (m_CurrentTimestamp w).

Definition with_players {Team State} (w : t Team State)
    (tbl : list (SteamID * PlayerExtraData.t State)) : t Team State :=
  mk (m_Settings w) (m_CurrentLobbyMembers w) (m_PendingLobbyMembers w) tbl
     (m_IsLocalPlayerInitialized w) (m_IsVoteInProgress w)
     (m_LastStatusUpdateTime w) (m_CurrentTimestamp w).

Definition with_initialized {Team State} (w : t Team State) (b : bool) : t Team State :=
  mk (m_Settings w) (m_CurrentLobbyMembers w) (m_PendingLobbyMembers w)
     (m_CurrentPlayerData w) b (m_IsVoteInProgress w)
     (m_LastStatusUpdateTime w) (m_CurrentTimestamp w).

Definition with_vote {Team State} (w : t Team State) (b : bool) : t Team State :=
  mk (m_Settings w) (m_CurrentLobbyMembers w) (m_PendingLobbyMembers w)
     (m_CurrentPlayerData w) (m_IsLocalPlayerInitialized w) b
     (m_LastStatusUpdateTime w) (m_CurrentTimestamp w).

Definition with_LastStatusUpdateTime {Team State} (w : t Team State)
    (ts : time_point_t) : t Team State :=
  mk (m_Settings w) (m_CurrentLobbyMembers w) (m_PendingLobbyMembers w)
     (m_CurrentPlayerData w) (m_IsLocalPlayerInitialized w) (m_IsVoteInProgress w)
     ts (m_CurrentTimestamp w).
End WorldState.

(** ** The player table *)

(** [m_CurrentPlayerData.find(id)], on the entries in iteration order. *)
Fixpoint table_find {A : Type} (tbl : list (SteamID * A)) (id : SteamID) : option A :=
  match tbl with
  | [] => None
  | (k, p) :: rest => if bool_decide (k = id) then Some p else table_find rest id
  end.

(** ** Declarations that live in headers outside WorldState.cpp *)

(** The enums [LobbyMemberTeam] and [PlayerStatusState], the function
    [OppositeTeam], the tick length of [clock_t], the integer type of the
    score counters and the container type of [m_CurrentPlayerData] are
    declared in headers that are not part of this file; the development
    takes them as parameters.  [Team_default] and [State_default] are the
    value-initialised enumerators ([LobbyMemberTeam{}],
    [PlayerStatusState{}]); [one_second] is the duration literal [1s] in
    clock ticks; [IsValid] is [LobbyMember::IsValid]; [counter_values] is
    the number of values of the unsigned type of the counters in
    [PlayerScores].

    [emplace tbl id p] is the player table after
    [m_CurrentPlayerData.emplace(id, p)] for an identifier the table does not
    hold, as the list of its entries in iteration order.  A keyed container
    puts the new entry where it pleases and may move the others: the list is
    any arrangement of the old entries and the new one ([emplace_entries]).
    What [find] returns for another identifier is not affected
    ([emplace_find]); on a table with unique keys that follows from the
    first law, and it keeps the parameter from being felt on lists with
    repeated keys, which the container never holds.

    [out_of_range_assign vec i x] stands for the vector after [vec[i] = x]
    with [i] not below the size.  The C++ standard leaves the behaviour
    undefined there, so nothing is known of the result. *)
Class HeaderDecls (LobbyMemberTeam PlayerStatusState : Type) := {
  team_eq_dec :: EqDecision LobbyMemberTeam;
  state_eq_dec :: EqDecision PlayerStatusState;
  Defenders : LobbyMemberTeam;
  Team_default : LobbyMemberTeam;
  OppositeTeam : LobbyMemberTeam -> LobbyMemberTeam;
  Active : PlayerStatusState;
  State_default : PlayerStatusState;
  one_second : Z;
  IsValid : LobbyMember.t LobbyMemberTeam -> bool;
  counter_values : N;
  emplace :
    list (SteamID * PlayerExtraData.t PlayerStatusState) -> SteamID ->
    PlayerExtraData.t PlayerStatusState ->
    list (SteamID * PlayerExtraData.t PlayerStatusState);
  emplace_entries : forall tbl id p, Permutation (emplace tbl id p) ((id, p) :: tbl);
  emplace_find :
    forall tbl id p id', id' <> id -> table_find (emplace tbl id p) id' = table_find tbl id';
  out_of_range_assign :
    list (LobbyMember.t LobbyMemberTeam) -> nat -> LobbyMember.t LobbyMemberTeam ->
    list (LobbyMember.t LobbyMemberTeam);
}.

Section Model.
Context {Team State : Type} `{!HeaderDecls Team State}.

Abbreviation Player := (PlayerExtraData.t State).
Abbreviation Table := (list (SteamID * PlayerExtraData.t State)).
Abbreviation World := (WorldState.t Team State).
Abbreviation Member := (LobbyMember.t Team).

(** ** PlayerExtraData *)

(** [PlayerExtraData::PlayerExtraData(world, id)]: every member is
    value-initialised, then [m_Status.m_SteamID = id].  The eager requests of
    the constructor (taken when [m_LazyLoadAPIData] is off) only enqueue the
    identifier in the Steam API queues, which are modelled apart from the
    session state. *)
Definition new_PlayerExtraData (id : SteamID) : Player :=
  PlayerExtraData.mk
    (PlayerStatus.mk id EmptyString State_default 0%Z 0%N 0%N)
    0%Z 0%Z 0%Z None 0%N (PlayerScores.mk 0%N 0%N 0%N 0%N).

Definition GetSteamID (p : Player) : SteamID :=
  PlayerStatus.m_SteamID (PlayerExtraData.m_Status p).

Definition GetLastStatusUpdateTime (p : Player) : time_point_t :=
  PlayerExtraData.m_LastStatusUpdateTime p.

(** [GetStatus().m_Name] *)
Definition name_of (p : Player) : string :=
  PlayerStatus.m_Name (PlayerExtraData.m_Status p).

(** [PlayerExtraData::SetStatus].  [m_PlayerNameSafe], which the function
    derives from the name with a helper of another file, is not embedded. *)
Definition SetStatus (p : Player) (status : PlayerStatus.t State)
    (timestamp : time_point_t) : Player :=
  let activeBegin :=
    if bool_decide (PlayerStatus.m_State (PlayerExtraData.m_Status p) <> Active)
       && bool_decide (PlayerStatus.m_State status = Active)
    then timestamp
    else PlayerExtraData.m_LastStatusActiveBegin p in
  PlayerExtraData.mk status activeBegin timestamp timestamp
    (PlayerExtraData.m_Team p) (PlayerExtraData.m_ClientIndex p)
    (PlayerExtraData.m_Scores p).

(** [PlayerExtraData::SetPing] *)
Definition SetPing (p : Player) (ping : N) (timestamp : time_point_t) : Player :=
  PlayerExtraData.mk
    (PlayerStatus.with_Ping (PlayerExtraData.m_Status p) ping)
    (PlayerExtraData.m_LastStatusActiveBegin p)
    (PlayerExtraData.m_LastStatusUpdateTime p)
    timestamp
    (PlayerExtraData.m_Team p) (PlayerExtraData.m_ClientIndex p)
    (PlayerExtraData.m_Scores p).

(** [PlayerExtraData::GetActiveTime] *)
Definition GetActiveTime (p : Player) : duration_t :=
  if bool_decide (PlayerStatus.m_State (PlayerExtraData.m_Status p) <> Active)
  then 0%Z
  else (PlayerExtraData.m_LastStatusUpdateTime p
        - PlayerExtraData.m_LastStatusActiveBegin p)%Z.

(** [x++] on a score counter. *)
Definition counter_succ (n : N) : N := ((n + 1) mod counter_values)%N.

(** [attacker.m_Scores.m_Kills++], and [m_LocalKills++] when [localKill]. *)
Definition count_kill (scores : PlayerScores.t) (localKill : bool) : PlayerScores.t :=
  PlayerScores.mk
    (counter_succ (PlayerScores.m_Kills scores))
    (PlayerScores.m_Deaths scores)
    (if localKill then counter_succ (PlayerScores.m_LocalKills scores)
     else PlayerScores.m_LocalKills scores)
    (PlayerScores.m_LocalDeaths scores).

(** [victim.m_Scores.m_Deaths++], and [m_LocalDeaths++] when [localDeath]. *)
Definition count_death (scores : PlayerScores.t) (localDeath : bool) : PlayerScores.t :=
  PlayerScores.mk
    (PlayerScores.m_Kills scores)
    (counter_succ (PlayerScores.m_Deaths scores))
    (PlayerScores.m_LocalKills scores)
    (if localDeath then counter_succ (PlayerScores.m_LocalDeaths scores)
     else PlayerScores.m_LocalDeaths scores).

(** ** The player table *)

(** Assignment through a reference to the entry of [id]. *)
Fixpoint store_player (tbl : Table) (id : SteamID) (p : Player) : Table :=
  match tbl with
  | [] => []
  | (k, q) :: rest =>
      if bool_decide (k = id) then (k, p) :: rest
      else (k, q) :: store_player rest id p
  end.

(** [WorldState::FindPlayer] *)
Definition FindPlayer (w : World) (id : SteamID) : option Player :=
  table_find (WorldState.m_CurrentPlayerData w) id.

(** [WorldState::FindOrCreatePlayer]: the table after the call and the entry
    the returned reference designates.  Where an emplaced entry lands in the
    iteration order is up to the container. *)
Definition FindOrCreatePlayer (tbl : Table) (id : SteamID) : Table * Player :=
  match table_find tbl id with
  | Some found => (tbl, found)
  | None => (emplace tbl id (new_PlayerExtraData id), new_PlayerExtraData id)
  end.

(** Keys are unique and every entry carries its key as identifier. *)
Definition table_wf (tbl : Table) : Prop :=
  NoDup (map fst tbl) /\ Forall (fun kp => GetSteamID (snd kp) = fst kp) tbl.

(** [WorldState::FindSteamIDForName]: the loop over the table, carrying
    [retVal] and [lastUpdated]. *)
Fixpoint FindSteamIDForName_loop (tbl : Table) (playerName : string)
    (retVal : option SteamID) (lastUpdated : time_point_t) : option SteamID :=
  match tbl with
  | [] => retVal
  | (_, data) :: rest =>
      if bool_decide (PlayerStatus.m_Name (PlayerExtraData.m_Status data) = playerName)
         && (lastUpdated <? GetLastStatusUpdateTime data)%Z
      then FindSteamIDForName_loop rest playerName
             (Some (GetSteamID data)) (GetLastStatusUpdateTime data)
      else FindSteamIDForName_loop rest playerName retVal lastUpdated
  end.

Definition FindSteamIDForName (w : World) (playerName : string) : option SteamID :=
  FindSteamIDForName_loop (WorldState.m_CurrentPlayerData w) playerName None 0%Z.

(** ** Lobby slots and team relationships *)

(** [vec[i] = x] on a slot vector. *)
Definition vector_assign (vec : list Member) (i : nat) (x : Member) : list Member :=
  if bool_decide (i < length vec) then <[i := x]> vec
  else out_of_range_assign vec i x.

(** The first loop of [FindLobbyMemberTeam], over one slot vector. *)
Fixpoint find_member_team (members : list Member) (id : SteamID) : option Team :=
  match members with
  | [] => None
  | member :: rest =>
      if bool_decide (LobbyMember.m_SteamID member = id)
      then Some (LobbyMember.m_Team member)
      else find_member_team rest id
  end.

(** [WorldState::FindLobbyMemberTeam] *)
Definition FindLobbyMemberTeam (w : World) (id : SteamID) : option Team :=
  match find_member_team (WorldState.m_CurrentLobbyMembers w) id with
  | Some team => Some team
  | None => find_member_team (WorldState.m_PendingLobbyMembers w) id
  end.

(** [WorldState::GetTeamShareResult(optional team0, optional team1)] *)
Definition GetTeamShareResult (team0 team1 : option Team) : thrown TeamShareResult :=
  match team0 with
  | None => Returned Neither
  | Some t0 =>
      match team1 with
      | None => Returned Neither
      | Some t1 =>
          if bool_decide (t0 = t1) then Returned SameTeams
          else if bool_decide (t0 = OppositeTeam t1) then Returned OppositeTeams
          else Threw "Unexpected team value(s)"
      end
  end.

(** [WorldState::GetTeamShareResult(id0, id1)] *)
Definition GetTeamShareResult_ids (w : World) (id0 id1 : SteamID) : thrown TeamShareResult :=
  GetTeamShareResult (FindLobbyMemberTeam w id0) (FindLobbyMemberTeam w id1).

(** [WorldState::GetApproxLobbyMemberCount] *)
Definition GetApproxLobbyMemberCount (w : World) : nat :=
  length (WorldState.m_CurrentLobbyMembers w)
  + length (WorldState.m_PendingLobbyMembers w).

(** ** Lobby member iteration *)

(** What a consumer of a [cppcoro::generator] observes: the values yielded so
    far and, if the body threw, the message of the exception that ended the
    iteration. *)
Definition generated (A : Type) : Type := (list A * option string)%type.

(** The lambda [GetPlayer] of [WorldState::GetLobbyMembers]; [Threw] is its
    [throw].  The two [assert]s are compiled out of release builds. *)
Definition GetPlayer (tbl : Table) (member : Member) : thrown Player :=
  match table_find tbl (LobbyMember.m_SteamID member) with
  | Some found => Returned found
  | None => Threw "Missing player for lobby member!"
  end.

(** One [for] loop of [GetLobbyMembers]: [skip member] is the condition under
    which the body executes [continue]. *)
Fixpoint yield_members (skip : Member -> bool) (tbl : Table)
    (members : list Member) : generated Player :=
  match members with
  | [] => ([], None)
  | member :: rest =>
      if skip member then yield_members skip tbl rest
      else
        match GetPlayer tbl member with
        | Threw what => ([], Some what)
        | Returned found =>
            let '(more, ended) := yield_members skip tbl rest in
            (found :: more, ended)
        end
  end.

(** The [std::any_of] of the second loop. *)
Definition in_current (current : list Member) (member : Member) : bool :=
  existsb (fun member2 =>
             bool_decide (LobbyMember.m_SteamID member = LobbyMember.m_SteamID member2))
          current.

(** [WorldState::GetLobbyMembers] *)
Definition GetLobbyMembers (w : World) : generated Player :=
  let tbl := WorldState.m_CurrentPlayerData w in
  let current := WorldState.m_CurrentLobbyMembers w in
  let pending := WorldState.m_PendingLobbyMembers w in
  match yield_members (fun member => negb (IsValid member)) tbl current with
  | (first, Some what) => (first, Some what)
  | (first, None) =>
      let '(second, ended) :=
        yield_members
          (fun member => negb (IsValid member) || in_current current member)
          tbl pending in
      (first ++ second, ended)
  end.

(** The slots whose players the two loops ask [GetPlayer] for, in order. *)
Definition looked_up_slots (w : World) : list Member :=
  let current := WorldState.m_CurrentLobbyMembers w in
  filter (fun member => IsValid member = true) current
  ++ filter (fun member => IsValid member = true /\ in_current current member = false)
       (WorldState.m_PendingLobbyMembers w).

(** [GetPlayer] on each of [slots] in turn, up to the first that throws. *)
Fixpoint lookup_all (tbl : Table) (slots : list Member) : generated Player :=
  match slots with
  | [] => ([], None)
  | member :: rest =>
      match GetPlayer tbl member with
      | Threw what => ([], Some what)
      | Returned found =>
          let '(more, ended) := lookup_all tbl rest in
          (found :: more, ended)
      end
  end.

(** ** Recent players *)

(** The comparator handed to [std::sort] in [GetRecentPlayersImpl]. *)
Definition more_recent (a b : Player) : bool :=
  (GetLastStatusUpdateTime b <? GetLastStatusUpdateTime a)%Z.

(** [x] may stand before [y] in a range sorted by [more_recent]: [y] was not
    updated later than [x]. *)
Definition not_later (x y : Player) : Prop := more_recent y x = false.

(** What the C++ standard promises of [std::sort(first, last, comp)]: the
    range holds the same elements and no element compares before an earlier
    one.  The order of equivalent elements is left open. *)
Definition std_sort_result {A : Type} (comp : A -> A -> bool) (input output : list A) : Prop :=
  Permutation input output /\ StronglySorted (fun x y => comp y x = false) output.

(** [GetRecentPlayersImpl]: [retVal] holds the entries in iteration order, is
    sorted by [std::sort] and cut down to [recentPlayerCount] entries. *)
Definition GetRecentPlayersImpl (tbl : Table) (recentPlayerCount : nat)
    (result : list Player) : Prop :=
  exists retVal : list Player,
    std_sort_result more_recent (map snd tbl) retVal /\
    result = if bool_decide (recentPlayerCount < length retVal)
             then take recentPlayerCount retVal else retVal.

(** A stable sort by descending timestamp: each entry, taken in input order,
    is placed behind every entry already placed whose timestamp is not
    earlier, so equal timestamps keep their input order.  This is the order
    the query is said to return. *)
Fixpoint stable_insert (p : Player) (sorted : list Player) : list Player :=
  match sorted with
  | [] => [p]
  | q :: rest =>
      if more_recent p q then p :: q :: rest
      else q :: stable_insert p rest
  end.

Definition stable_sort_recent (players : list Player) : list Player :=
  foldl (fun acc p => stable_insert p acc) [] players.

End Model.

(** ** Console lines and world events *)

(** [LobbyChangeType]: [Created] and [Updated] are the values the source
    tests for; [OtherChange] is any other one. *)
Inductive LobbyChangeType := Created | Updated | OtherChange.

#[global] Instance LobbyChangeType_eq_dec : EqDecision LobbyChangeType.
Proof. solve_decision. Defined.

(** [UserMessageType]: the three values the source has a case for, and any
    other one. *)
Inductive UserMessageType := VoteStart | VoteFailed | VotePass | OtherUserMessage.

(** [TFClassType]: the enumerators the source names. *)
Inductive TFClassType :=
| Undefined | Scout | Sniper | Soldier | Demoman | Medic | Heavy | Pyro | Spy | Engie.

#[global] Instance TFClassType_eq_dec : EqDecision TFClassType.
Proof. solve_decision. Defined.

(** The parsed lines, by [ConsoleLineType], each with the accessors the
    switch reads: one constructor for every type the switch has a compiled
    case for, and [OtherLine] for any other type (among them the types whose
    cases are under [#if 0]). *)
Inductive IConsoleLine (Team State : Type) :=
| LobbyHeaderLine (memberCount pendingCount : nat)
| LobbyStatusFailedLine
| LobbyChangedLine (changeType : LobbyChangeType)
| HostNewGameLine
| ConnectingLine
| ClientReachedServerSpawnLine
| ChatConsoleLine (playerName message : string)
| ServerDroppedPlayerLine (playerName reason : string)
| ConfigExecLine (configFileName : string)
| LobbyMemberLine (member : LobbyMember.t Team)
| PingLine (timestamp : time_point_t) (playerName : string) (ping : N)
| ServerStatusPlayerLine (timestamp : time_point_t) (status : PlayerStatus.t State)
| ServerStatusShortPlayerLine (name : string) (clientIndex : N)
| KillNotificationLine (attackerName victimName : string)
| SVCUserMessageLine (type : UserMessageType)
| OtherLine.
Arguments LobbyHeaderLine {Team State}.
Arguments LobbyStatusFailedLine {Team State}.
Arguments LobbyChangedLine {Team State}.
Arguments HostNewGameLine {Team State}.
Arguments ConnectingLine {Team State}.
Arguments ClientReachedServerSpawnLine {Team State}.
Arguments ChatConsoleLine {Team State}.
Arguments ServerDroppedPlayerLine {Team State}.
Arguments ConfigExecLine {Team State}.
Arguments LobbyMemberLine {Team State}.
Arguments PingLine {Team State}.
Arguments ServerStatusPlayerLine {Team State}.
Arguments ServerStatusShortPlayerLine {Team State}.
Arguments KillNotificationLine {Team State}.
Arguments SVCUserMessageLine {Team State}.
Arguments OtherLine {Team State}.

(** The calls [InvokeEventListener] makes on the world event listeners. *)
Inductive WorldEvent (State : Type) :=
| OnLocalPlayerSpawned (cl : TFClassType)
| OnLocalPlayerInitialized (initialized : bool)
| OnChatMsg (player : PlayerExtraData.t State) (msg : string)
| OnPlayerDroppedFromServer (player : PlayerExtraData.t State) (reason : string)
| OnPlayerStatusUpdate (player : PlayerExtraData.t State).
Arguments OnLocalPlayerSpawned {State}.
Arguments OnLocalPlayerInitialized {State}.
Arguments OnChatMsg {State}.
Arguments OnPlayerDroppedFromServer {State}.
Arguments OnPlayerStatusUpdate {State}.

(** The test of [OnConfigExecLineParsed] for the nine class configs. *)
Definition is_class_config (cfgName : string) : bool :=
  bool_decide (cfgName = "scout.cfg")
  || bool_decide (cfgName = "sniper.cfg")
  || bool_decide (cfgName = "soldier.cfg")
  || bool_decide (cfgName = "demoman.cfg")
  || bool_decide (cfgName = "medic.cfg")
  || bool_decide (cfgName = "heavyweapons.cfg")
  || bool_decide (cfgName = "pyro.cfg")
  || bool_decide (cfgName = "spy.cfg")
  || bool_decide (cfgName = "engineer.cfg").

(** The chain of [starts_with] tests that picks the class. *)
Definition class_of_config (cfgName : string) : TFClassType :=
  if String.prefix "scout" cfgName then Scout
  else if String.prefix "sniper" cfgName then Sniper
  else if String.prefix "soldier" cfgName then Soldier
  else if String.prefix "demoman" cfgName then Demoman
  else if String.prefix "medic" cfgName then Medic
  else if String.prefix "heavyweapons" cfgName then Heavy
  else if String.prefix "pyro" cfgName then Pyro
  else if String.prefix "spy" cfgName then Spy
  else if String.prefix "engineer" cfgName then Engie
  else Undefined.

Section Reconciliation.
Context {Team State : Type} `{!HeaderDecls Team State}.

Abbreviation Player := (PlayerExtraData.t State).
Abbreviation Table := (list (SteamID * PlayerExtraData.t State)).
Abbreviation World := (WorldState.t Team State).
Abbreviation Member := (LobbyMember.t Team).
Abbreviation Line := (IConsoleLine Team State).

(** The lambda [ClearLobbyState], also written out in the
    [LobbyStatusFailed] case. *)
Definition ClearLobbyState (w : World) : World :=
  WorldState.with_players (WorldState.with_lobby w [] []) [].

(** The duration [2s]. *)
Definition two_seconds : duration_t := (2 * one_second)%Z.

(** The connection time [SetStatus] receives in the [PlayerStatus] case:
    the stored one when [delta < 2s && delta > -2s], else the new one. *)
Definition patched_ConnectionTime (stored new : time_point_t) : time_point_t :=
  let delta := (stored - new)%Z in
  if (delta <? two_seconds)%Z && (- two_seconds <? delta)%Z then stored else new.

(** [auto& player = FindOrCreatePlayer(id)] followed by assignments to
    members of [player], which [change] collects. *)
Definition with_player (w : World) (id : SteamID) (change : Player -> Player) : World :=
  let '(tbl, player) := FindOrCreatePlayer (WorldState.m_CurrentPlayerData w) id in
  WorldState.with_players w (store_player tbl id (change player)).

(** [WorldState::OnConfigExecLineParsed], on the config file name of the
    line: the state after it and the events raised, in order. *)
Definition OnConfigExecLineParsed (w : World) (cfgName : string)
    : World * list (WorldEvent State) :=
  if is_class_config cfgName then
    let cl := class_of_config cfgName in
    if negb (WorldState.m_IsLocalPlayerInitialized w)
    then (WorldState.with_initialized w true,
          [OnLocalPlayerSpawned cl; OnLocalPlayerInitialized true])
    else (w, [OnLocalPlayerSpawned cl])
  else (w, []).

(** [WorldState::OnConsoleLineParsed]: the state after the line and the
    events raised, in order. *)
Definition OnConsoleLineParsed (w : World) (parsed : Line) : World * list (WorldEvent State) :=
  match parsed with
  | LobbyHeaderLine memberCount pendingCount =>
      (WorldState.with_lobby w
         (resize memberCount (LobbyMember.mk 0%N 0 Team_default false)
            (WorldState.m_CurrentLobbyMembers w))
         (resize pendingCount (LobbyMember.mk 0%N 0 Team_default false)
            (WorldState.m_PendingLobbyMembers w)),
       [])
  | LobbyStatusFailedLine =>
      if negb (vector_empty (WorldState.m_CurrentLobbyMembers w))
         || negb (vector_empty (WorldState.m_PendingLobbyMembers w))
      then (ClearLobbyState w, [])
      else (w, [])
  | LobbyChangedLine changeType =>
      let w1 := if bool_decide (changeType = Created) then ClearLobbyState w else w in
      if bool_decide (changeType = Created) || bool_decide (changeType = Updated)
      then (WorldState.with_players w1
              (map (fun player => (fst player, PlayerExtraData.with_ClientIndex (snd player) 0%N))
                   (WorldState.m_CurrentPlayerData w1)),
            [])
      else (w1, [])
  | HostNewGameLine | ConnectingLine | ClientReachedServerSpawnLine =>
      if WorldState.m_IsLocalPlayerInitialized w
      then (WorldState.with_vote (WorldState.with_initialized w false) false,
            [OnLocalPlayerInitialized false])
      else (WorldState.with_vote w false, [])
  | ChatConsoleLine playerName message =>
      match FindSteamIDForName w playerName with
      | Some sid =>
          match FindPlayer w sid with
          | Some player => (w, [OnChatMsg player message])
          | None => (w, [])
          end
      | None => (w, [])
      end
  | ServerDroppedPlayerLine playerName reason =>
      match FindSteamIDForName w playerName with
      | Some sid =>
          match FindPlayer w sid with
          | Some player => (w, [OnPlayerDroppedFromServer player reason])
          | None => (w, [])
          end
      | None => (w, [])
      end
  | ConfigExecLine configFileName => OnConfigExecLineParsed w configFileName
  | LobbyMemberLine member =>
      let current := WorldState.m_CurrentLobbyMembers w in
      let pending := WorldState.m_PendingLobbyMembers w in
      let vec := if LobbyMember.m_Pending member then pending else current in
      let vec' :=
        if bool_decide (LobbyMember.m_Index member < length vec)
        then vector_assign vec (LobbyMember.m_Index member) member
        else vec in
      let w1 :=
        if LobbyMember.m_Pending member
        then WorldState.with_lobby w current vec'
        else WorldState.with_lobby w vec' pending in
      let tfTeam :=
        if bool_decide (LobbyMember.m_Team member = Defenders) then Red else Blue in
      let '(tbl, player) :=
        FindOrCreatePlayer (WorldState.m_CurrentPlayerData w1) (LobbyMember.m_SteamID member) in
      (WorldState.with_players w1
         (store_player tbl (LobbyMember.m_SteamID member)
            (PlayerExtraData.with_Team player (Some tfTeam))),
       [])
  | PingLine timestamp playerName ping =>
      match FindSteamIDForName w playerName with
      | Some found =>
          let '(tbl, playerData) := FindOrCreatePlayer (WorldState.m_CurrentPlayerData w) found in
          (WorldState.with_players w (store_player tbl found (SetPing playerData ping timestamp)), [])
      | None => (w, [])
      end
  | ServerStatusPlayerLine timestamp status =>
      let id := PlayerStatus.m_SteamID status in
      let '(tbl, playerData) := FindOrCreatePlayer (WorldState.m_CurrentPlayerData w) id in
      let newStatus :=
        PlayerStatus.with_ConnectionTime status
          (patched_ConnectionTime
             (PlayerStatus.m_ConnectionTime (PlayerExtraData.m_Status playerData))
             (PlayerStatus.m_ConnectionTime status)) in
      let playerData' := SetStatus playerData newStatus timestamp in
      let w1 := WorldState.with_players w (store_player tbl id playerData') in
      (WorldState.with_LastStatusUpdateTime w1
         (Z.max (WorldState.m_LastStatusUpdateTime w1) (GetLastStatusUpdateTime playerData')),
       [OnPlayerStatusUpdate playerData'])
  | ServerStatusShortPlayerLine name clientIndex =>
      match FindSteamIDForName w name with
      | Some steamID =>
          let '(tbl, player) := FindOrCreatePlayer (WorldState.m_CurrentPlayerData w) steamID in
          (WorldState.with_players w
             (store_player tbl steamID (PlayerExtraData.with_ClientIndex player clientIndex)),
           [])
      | None => (w, [])
      end
  | KillNotificationLine attackerName victimName =>
      let localSteamID := Settings.m_LocalSteamID (WorldState.m_Settings w) in
      let attackerSteamID := FindSteamIDForName w attackerName in
      let victimSteamID := FindSteamIDForName w victimName in
      let w1 :=
        match attackerSteamID with
        | Some id =>
            with_player w id
              (fun attacker =>
                 PlayerExtraData.with_Scores attacker
                   (count_kill (PlayerExtraData.m_Scores attacker)
                      (bool_decide (victimSteamID = Some localSteamID))))
        | None => w
        end in
      let w2 :=
        match victimSteamID with
        | Some id =>
            with_player w1 id
              (fun victim =>
                 PlayerExtraData.with_Scores victim
                   (count_death (PlayerExtraData.m_Scores victim)
                      (bool_decide (attackerSteamID = Some localSteamID))))
        | None => w1
        end in
      (w2, [])
  | SVCUserMessageLine type =>
      match type with
      | VoteStart => (WorldState.with_vote w true, [])
      | VoteFailed | VotePass => (WorldState.with_vote w false, [])
      | OtherUserMessage => (w, [])
      end
  | OtherLine => (w, [])
  end.

(** The state after a sequence of parsed lines. *)
Definition run_lines (w : World) (lines : list Line) : World :=
  foldl (fun w line => fst (OnConsoleLineParsed w line)) w lines.

(** A line that is neither a lobby header nor one of the two lines that
    reset the lobby. *)
Definition keeps_sizes (line : Line) : Prop :=
  (forall memberCount pendingCount, line <> LobbyHeaderLine memberCount pendingCount) /\
  line <> LobbyStatusFailedLine /\
  line <> LobbyChangedLine Created.

(** The connection time stored for [id]; a record that does not exist yet
    is created by [FindOrCreatePlayer] with the value-initialised time. *)
Definition stored_ConnectionTime (w : World) (id : SteamID) : time_point_t :=
  match FindPlayer w id with
  | Some p => PlayerStatus.m_ConnectionTime (PlayerExtraData.m_Status p)
  | None => 0%Z
  end.

(** A sequence of full status lines for [id], each of which reports a
    connection time less than two seconds away, in either direction, from
    the one stored when the line arrives. *)
Fixpoint deltas_under_two_seconds (w : World) (id : SteamID) (lines : list Line) : Prop :=
  match lines with
  | [] => True
  | line :: rest =>
      (exists timestamp status,
         line = ServerStatusPlayerLine timestamp status /\
         PlayerStatus.m_SteamID status = id /\
         (Z.abs (PlayerStatus.m_ConnectionTime status - stored_ConnectionTime w id)
          < two_seconds)%Z) /\
      deltas_under_two_seconds (fst (OnConsoleLineParsed w line)) id rest
  end.

(** Every line is a full status line for [id]. *)
Definition status_lines_for (id : SteamID) (lines : list Line) : Prop :=
  Forall (fun line => exists timestamp status,
            line = ServerStatusPlayerLine timestamp status /\
            PlayerStatus.m_SteamID status = id) lines.

(** The connection times the full status lines of a sequence report. *)
Definition raw_ConnectionTimes (lines : list Line) : list time_point_t :=
  omap (fun line =>
          match line with
          | ServerStatusPlayerLine _ status => Some (PlayerStatus.m_ConnectionTime status)
          | _ => None
          end) lines.

(** Each time is less than two seconds away from the one just before it. *)
Fixpoint successive_deltas_under_two_seconds (times : list time_point_t) : Prop :=
  match times with
  | a :: rest =>
      match rest with
      | b :: _ => (Z.abs (b - a) < two_seconds)%Z
      | [] => True
      end /\ successive_deltas_under_two_seconds rest
  | [] => True
  end.

(** Any two times are less than two seconds apart. *)
Definition all_deltas_under_two_seconds (times : list time_point_t) : Prop :=
  forall a b, a ∈ times -> b ∈ times -> (Z.abs (b - a) < two_seconds)%Z.

(** The connection time stored for [id] before the first line and after
    each line of the sequence. *)
Definition stored_history (w : World) (id : SteamID) (lines : list Line) : list time_point_t :=
  map (fun k => stored_ConnectionTime (run_lines w (take k lines)) id)
      (seq 0 (S (length lines))).

(** A history that never turns back: it never falls after a rise nor rises
    after a fall. *)
Definition does_not_oscillate (values : list time_point_t) : Prop :=
  StronglySorted Z.le values \/ StronglySorted Z.ge values.

End Reconciliation.

(** ** Line ingestion *)

(** A registered [IConsoleLineListener]: the world state itself (registered
    by its constructor) or another listener. *)
Inductive Listener := TheWorldState | OtherListener (n : nat).

(** What leaves [AddConsoleOutputLine]: the call of the parser and the calls
    on the line listeners. *)
Inductive Delivery (Team State : Type) :=
| ParseCall (line : list ascii) (currentTime : time_point_t)
| LineParsed (listener : Listener) (parsed : IConsoleLine Team State)
| LineUnparsed (listener : Listener) (line : list ascii).
Arguments ParseCall {Team State}.
Arguments LineParsed {Team State}.
Arguments LineUnparsed {Team State}.

(** The line-feed character. *)
Definition LF : ascii := "010"%char.

(** [std::string_view::find(ch, 0)] on the view [s]. *)
Fixpoint find_char (ch : ascii) (s : list ascii) : option nat :=
  match s with
  | [] => None
  | c :: rest => if bool_decide (c = ch) then Some 0 else S <$> find_char ch rest
  end.

(** [chunk.find(ch, pos)]; [None] is [npos]. *)
Definition sv_find (chunk : list ascii) (ch : ascii) (pos : nat) : option nat :=
  (fun i => pos + i) <$> find_char ch (drop pos chunk).

(** [chunk.substr(pos, count)] *)
Definition sv_substr (chunk : list ascii) (pos count : nat) : list ascii :=
  take count (drop pos chunk).

Section Ingestion.
Context {Team State : Type} `{!HeaderDecls Team State}.

(** [IConsoleLine::ParseConsoleLine], the parser outside this file. *)
Variable ParseConsoleLine : list ascii -> time_point_t -> option (IConsoleLine Team State).

(** [m_ConsoleLineListeners], in iteration order. *)
Variable listeners : list Listener.

Abbreviation World := (WorldState.t Team State).

(** The first [for] of [AddConsoleOutputLine]: every listener is handed the
    parsed line; the world state's own handler is [OnConsoleLineParsed]. *)
Fixpoint notify_parsed (ls : list Listener) (w : World) (parsed : IConsoleLine Team State)
    : World * list (Delivery Team State) :=
  match ls with
  | [] => (w, [])
  | listener :: rest =>
      let w1 :=
        match listener with
        | TheWorldState => fst (OnConsoleLineParsed w parsed)
        | OtherListener _ => w
        end in
      let '(w2, out) := notify_parsed rest w1 parsed in
      (w2, LineParsed listener parsed :: out)
  end.

(** [WorldStateConLog::AddConsoleOutputLine] *)
Definition AddConsoleOutputLine (w : World) (line : list ascii)
    : World * list (Delivery Team State) :=
  let now := WorldState.m_CurrentTimestamp w in
  match ParseConsoleLine line now with
  | Some parsed =>
      let '(w1, out) := notify_parsed listeners w parsed in
      (w1, ParseCall line now :: out)
  | None =>
      (w, ParseCall line now :: map (fun listener => LineUnparsed listener line) listeners)
  end.

(** The loop of [AddConsoleOutputChunk] from the position [last] on.  Every
    turn moves [last] past one line feed, so a chunk of [n] characters is
    done within [n + 1] turns; [fuel] counts them. *)
Fixpoint AddConsoleOutputChunk_loop (fuel : nat) (w : World) (chunk : list ascii) (last : nat)
    : World * list (Delivery Team State) :=
  match fuel with
  | 0 => (w, [])
  | S fuel' =>
      match sv_find chunk LF last with
      | None => (w, [])
      | Some i =>
          let '(w1, out1) := AddConsoleOutputLine w (sv_substr chunk last (i - last)) in
          let '(w2, out2) := AddConsoleOutputChunk_loop fuel' w1 chunk (i + 1) in
          (w2, out1 ++ out2)
      end
  end.

(** [WorldStateConLog::AddConsoleOutputChunk] *)
Definition AddConsoleOutputChunk (w : World) (chunk : list ascii)
    : World * list (Delivery Team State) :=
  AddConsoleOutputChunk_loop (S (length chunk)) w chunk 0.

(** Handing a list of lines to [AddConsoleOutputLine], one after another. *)
Fixpoint dispatch_lines (w : World) (lines : list (list ascii))
    : World * list (Delivery Team State) :=
  match lines with
  | [] => (w, [])
  | line :: rest =>
      let '(w1, out1) := AddConsoleOutputLine w line in
      let '(w2, out2) := dispatch_lines w1 rest in
      (w2, out1 ++ out2)
  end.

End Ingestion.

(** The texts handed to the parser, in order. *)
Definition parser_inputs {Team State : Type} (out : list (Delivery Team State))
    : list (list ascii) :=
  omap (fun d => match d with ParseCall line _ => Some line | _ => None end) out.

(** The complete lines of a chunk and the text behind its last line feed. *)
Fixpoint split_lines (chunk : list ascii) : list (list ascii) * list ascii :=
  match chunk with
  | [] => ([], [])
  | c :: rest =>
      let '(lines, tail) := split_lines rest in
      if bool_decide (c = LF) then ([] :: lines, tail)
      else
        match lines with
        | [] => ([], c :: tail)
        | line :: more => ((c :: line) :: more, tail)
        end
  end.

(** Every line followed by a line feed, one after another. *)
Definition join_lines (lines : list (list ascii)) : list ascii :=
  concat (map (fun line => line ++ [LF]) lines).

(** ** Batches for the Steam API *)

(** [Take100]: the loop over the collection, carrying [retVal]. *)
Fixpoint Take100_loop (collection retVal : list SteamID) : list SteamID :=
  match collection with
  | [] => retVal
  | id :: rest =>
      if bool_decide (100 <= length retVal) then retVal
      else Take100_loop rest (retVal ++ [id])
  end.

Definition Take100 (collection : list SteamID) : list SteamID :=
  Take100_loop collection [].

(** [PlayerSummaryUpdateAction::SendRequest] and
    [PlayerBansUpdateAction::SendRequest], which differ in the Steam API call
    only: the identifiers of the request issued ([None] is the empty future
    [{}]) and the collection, which the function leaves as it got it. *)
Definition SendRequest (settings : Settings.t) (collection : list SteamID)
    : option (list SteamID) * list SteamID :=
  if negb (Settings.m_HTTPClient settings) then (None, collection)
  else if bool_decide (Settings.m_SteamAPIKey settings = EmptyString) then (None, collection)
  else (Some (Take100 collection), collection).

(** Modelled from the spec: the type [queue_collection_type] and the method
    [Queue] of the batched action are declared outside WorldState.cpp.  The
    spec has "a set of pending identifiers", into which a consumer's request
    inserts an identifier; [OnDataReady] erases from the collection by
    identifier.  The collection is a finite set of identifiers and [Queue]
    adds one to it. *)
Definition Queue (collection : gset SteamID) (id : SteamID) : gset SteamID :=
  {[ id ]} ∪ collection.

(** Enqueuing a sequence of identifiers, starting from an empty set. *)
Definition enqueue_all (ids : list SteamID) : gset SteamID :=
  foldl Queue ∅ ids.

(** The order in which the set is iterated over is the container's own.
    [iteration] is a possible one when it lists the elements of every set,
    each once; [Take100] and [SendRequest] receive the collection as that
    list. *)
Definition iteration_order (iteration : gset SteamID -> list SteamID) : Prop :=
  forall collection : gset SteamID,
    NoDup (iteration collection) /\
    forall id, id ∈ iteration collection <-> id ∈ collection.

(** The order of a set that keeps its elements sorted by identifier, as
    [std::set] does. *)
Definition ascending (collection : gset SteamID) : list SteamID :=
  merge_sort N.le (elements collection).

(** What "oldest-enqueued-first" asks of a request issued after the
    identifiers [enqueued] were put into an empty set one after another:
    when more than a hundred are pending, the request carries the hundred
    enqueued first. *)
Definition oldest_enqueued_first (iteration : gset SteamID -> list SteamID)
    (enqueued : list SteamID) : Prop :=
  100 < length enqueued ->
  forall id, id ∈ Take100 (iteration (enqueue_all enqueued)) <-> id ∈ take 100 enqueued.

(** ** A concrete choice of the outside declarations *)

(** Used to evaluate the model on concrete states. *)
Module Sample.
Inductive team := invaders | defenders | spectator.
Inductive state := connecting | active.

#[global] Instance team_eq : EqDecision team.
Proof. solve_decision. Defined.

#[global] Instance state_eq : EqDecision state.
Proof. solve_decision. Defined.

Definition opposite (t : team) : team :=
  match t with
  | invaders => defenders
  | defenders => invaders
  | spectator => spectator
  end.

(** The table puts an emplaced entry behind the others; the counters have
    sixteen bits. *)
#[global, refine] Instance decls : HeaderDecls team state := {|
  Defenders := defenders;
  Team_default := invaders;
  OppositeTeam := opposite;
  Active := active;
  State_default := connecting;
  one_second := 1000%Z;
  IsValid := fun member => negb (LobbyMember.m_SteamID member =? 0)%N;
  counter_values := 65536%N;
  emplace := fun tbl id p => tbl ++ [(id, p)];
  emplace_entries := _;
  emplace_find := _;
  out_of_range_assign := fun _ _ _ => [];
|}.
Proof.
  - intros tbl id p. symmetry. apply Permutation_cons_append.
  - intros tbl id p id' Hne.
    induction tbl as [| [k q] rest IH]; simpl.
    + by rewrite bool_decide_eq_false_2.
    + destruct (bool_decide (k = id')); [reflexivity | exact IH].
Defined.

Definition settings : Settings.t := Settings.mk true "key" 5%N.

(** A freshly constructed world state. *)
Definition empty_world : WorldState.t team state :=
  WorldState.mk settings [] [] [] false false 0%Z 0%Z.

Definition status (id : SteamID) (name : string) (connected : time_point_t)
    : PlayerStatus.t state :=
  PlayerStatus.mk id name active connected 1%N 30%N.

Definition member (id : SteamID) (index : nat) (pending : bool) : LobbyMember.t team :=
  LobbyMember.mk id index defenders pending.

(** Two players named "bob" whose status lines carry the same timestamp,
    as the lines of one status output do; their records, and the world
    state after the two lines. *)
Definition bob_first : PlayerExtraData.t state :=
  SetStatus (new_PlayerExtraData 1%N) (status 1%N "bob" 100000%Z) 5%Z.

Definition bob_second : PlayerExtraData.t state :=
  SetStatus (new_PlayerExtraData 2%N) (status 2%N "bob" 100000%Z) 5%Z.

Definition bob_twice : WorldState.t team state :=
  run_lines empty_world
    [ServerStatusPlayerLine 5%Z (status 1%N "bob" 100000%Z);
     ServerStatusPlayerLine 5%Z (status 2%N "bob" 100000%Z)].

(** A world state whose only entry was created by a lobby member line and
    has had no status line yet. *)
Definition unnamed_member : WorldState.t team state :=
  run_lines empty_world
    [LobbyHeaderLine 1 0; LobbyMemberLine (member 7%N 0 false)].

(** A world state with a two-slot confirmed vector and a one-slot pending
    vector, all slots still empty. *)
Definition lobby_2_1 : WorldState.t team state :=
  run_lines empty_world [LobbyHeaderLine 2 1].

(** Player 1 after a first status line, and three further status lines
    whose connection times wobble by one second around the stored one. *)
Definition bob_connected : WorldState.t team state :=
  run_lines empty_world [ServerStatusPlayerLine 9%Z (status 1%N "bob" 100000%Z)].

(** A lobby listing with player 6 in slot 0 and player 5 in slot 1, followed
    by the first two lines of the next listing, in which player 6 has left
    and player 5 has moved up to slot 0: slot 1 still holds player 5 from the
    listing before. *)
Definition same_member_twice : WorldState.t team state :=
  run_lines empty_world
    [LobbyHeaderLine 2 0;
     LobbyMemberLine (member 6%N 0 false);
     LobbyMemberLine (member 5%N 1 false);
     LobbyHeaderLine 2 0;
     LobbyMemberLine (member 5%N 0 false)].

(** A confirmed, a pending and a repeated member, all with records. *)
Definition lobby_with_pending : WorldState.t team state :=
  run_lines empty_world
    [LobbyHeaderLine 1 2;
     LobbyMemberLine (member 5%N 0 false);
     LobbyMemberLine (member 5%N 0 true);
     LobbyMemberLine (member 6%N 1 true)].

(** The slot vectors of [lobby_with_pending] over a table that holds
    player 5 only. *)
Definition lobby_missing_record : WorldState.t team state :=
  WorldState.with_players lobby_with_pending
    (take 1 (WorldState.m_CurrentPlayerData lobby_with_pending)).

(** Three players last updated at the times 3, 9 and 5. *)
Definition three_players : list (SteamID * PlayerExtraData.t state) :=
  [(1%N, SetStatus (new_PlayerExtraData 1%N) (status 1%N "ann" 100%Z) 3%Z);
   (2%N, SetStatus (new_PlayerExtraData 2%N) (status 2%N "bob" 100%Z) 9%Z);
   (3%N, SetStatus (new_PlayerExtraData 3%N) (status 3%N "cyd" 100%Z) 5%Z)].

(** Status lines for player 1 whose connection times move by one second
    from line to line, up by two seconds and down again. *)
Definition drift_lines : list (IConsoleLine team state) :=
  [ServerStatusPlayerLine 9%Z (status 1%N "bob" 100000%Z);
   ServerStatusPlayerLine 10%Z (status 1%N "bob" 101000%Z);
   ServerStatusPlayerLine 11%Z (status 1%N "bob" 102000%Z);
   ServerStatusPlayerLine 12%Z (status 1%N "bob" 101000%Z);
   ServerStatusPlayerLine 13%Z (status 1%N "bob" 100000%Z)].

Definition jitter_lines : list (IConsoleLine team state) :=
  [ServerStatusPlayerLine 10%Z (status 1%N "bob" 101000%Z);
   ServerStatusPlayerLine 11%Z (status 1%N "bob" 99000%Z);
   ServerStatusPlayerLine 12%Z (status 1%N "bob" 100000%Z)].

(** A parser that knows one line, and two registered listeners. *)
Definition parse (line : list ascii) (now : time_point_t) : option (IConsoleLine team state) :=
  if bool_decide (line = list_ascii_of_string "Failed to find lobby shared object")
  then Some LobbyStatusFailedLine
  else None.

Definition listeners : list Listener := [TheWorldState; OtherListener 0].

(** Two complete lines followed by the beginning of a third. *)
Definition chunk : list ascii :=
  list_ascii_of_string "Failed to find lobby shared object"
  ++ [LF] ++ list_ascii_of_string "hello" ++ [LF] ++ list_ascii_of_string "Lobby cre".
End Sample.

(** A second choice, with the two lobby teams only. *)
Module TwoTeams.
Inductive team := invaders | defenders.

#[global] Instance team_eq : EqDecision team.
Proof. solve_decision. Defined.

Definition opposite (t : team) : team :=
  match t with
  | invaders => defenders
  | defenders => invaders
  end.

(** The table puts an emplaced entry before the others. *)
#[global, refine] Instance decls : HeaderDecls team Sample.state := {|
  Defenders := defenders;
  Team_default := invaders;
  OppositeTeam := opposite;
  Active := Sample.active;
  State_default := Sample.connecting;
  one_second := 1000%Z;
  IsValid := fun member => negb (LobbyMember.m_SteamID member =? 0)%N;
  counter_values := 65536%N;
  emplace := fun tbl id p => (id, p) :: tbl;
  emplace_entries := _;
  emplace_find := _;
  out_of_range_assign := fun vec _ member => vec ++ [member];
|}.
Proof.
  - intros tbl id p. reflexivity.
  - intros tbl id p id' Hne. simpl. by rewrite bool_decide_eq_false_2.
Defined.

Definition settings : Settings.t := Settings.mk true "key" 5%N.

Definition empty_world : WorldState.t team Sample.state :=
  WorldState.mk settings [] [] [] false false 0%Z 0%Z.

Definition status (id : SteamID) (name : string) (connected : time_point_t)
    : PlayerStatus.t Sample.state :=
  PlayerStatus.mk id name Sample.active connected 1%N 30%N.

(** Status lines for the players 5, 6 and 9, in this order. *)
Definition three_status_lines : list (IConsoleLine team Sample.state) :=
  [ServerStatusPlayerLine 20%Z (status 5%N "ann" 100000%Z);
   ServerStatusPlayerLine 21%Z (status 6%N "bob" 100000%Z);
   ServerStatusPlayerLine 22%Z (status 9%N "cyd" 100000%Z)].
End TwoTeams.

(** ** Further queries and handlers of WorldState.cpp *)

Section MoreModel.
Context {Team State : Type} `{!HeaderDecls Team State}.

Abbreviation Player := (PlayerExtraData.t State).
Abbreviation Table := (list (SteamID * PlayerExtraData.t State)).
Abbreviation World := (WorldState.t Team State).
Abbreviation Member := (LobbyMember.t Team).

(** [PlayerExtraData::GetUserID] *)
Definition GetUserID (p : Player) : option N :=
  if (0 <? PlayerStatus.m_UserID (PlayerExtraData.m_Status p))%N
  then Some (PlayerStatus.m_UserID (PlayerExtraData.m_Status p))
  else None.

(** The loop of [WorldState::FindUserID]. *)
Fixpoint FindUserID_loop (tbl : Table) (id : SteamID) : option N :=
  match tbl with
  | [] => None
  | (_, player) :: rest =>
      if bool_decide (GetSteamID player = id) then GetUserID player
      else FindUserID_loop rest id
  end.

(** [WorldState::FindUserID] *)
Definition FindUserID (w : World) (id : SteamID) : option N :=
  FindUserID_loop (WorldState.m_CurrentPlayerData w) id.

(** One loop of [PlayerExtraData::GetLobbyMember], over one slot vector. *)
Fixpoint find_member (members : list Member) (steamID : SteamID) : option Member :=
  match members with
  | [] => None
  | member :: rest =>
      if bool_decide (LobbyMember.m_SteamID member = steamID) then Some member
      else find_member rest steamID
  end.

(** [PlayerExtraData::GetLobbyMember], for a record of the world [w];
    [None] is [nullptr]. *)
Definition GetLobbyMember (w : World) (p : Player) : option Member :=
  match find_member (WorldState.m_CurrentLobbyMembers w) (GetSteamID p) with
  | Some member => Some member
  | None => find_member (WorldState.m_PendingLobbyMembers w) (GetSteamID p)
  end.

(** [WorldState::GetPlayers]: the values the generator yields. *)
Definition GetPlayers (w : World) : list Player :=
  map snd (WorldState.m_CurrentPlayerData w).

(** The record [FindOrCreatePlayer] hands out for [id] in the state [w]. *)
Definition entry_of (w : World) (id : SteamID) : Player :=
  match FindPlayer w id with
  | Some found => found
  | None => new_PlayerExtraData id
  end.

(** The default-constructed slot [LobbyMember{}] that [resize] appends. *)
Definition empty_slot : Member := LobbyMember.mk 0%N 0 Team_default false.

(** A slot of either vector holds the identifier. *)
Definition has_slot (w : World) (id : SteamID) : Prop :=
  exists member,
    (member ∈ WorldState.m_CurrentLobbyMembers w
     \/ member ∈ WorldState.m_PendingLobbyMembers w) /\
    LobbyMember.m_SteamID member = id.

(** The session-wide last status update is not negative and no record was
    updated later. *)
Definition status_time_bound (w : World) : Prop :=
  (0 <= WorldState.m_LastStatusUpdateTime w)%Z /\
  Forall (fun kp => (GetLastStatusUpdateTime (snd kp) <= WorldState.m_LastStatusUpdateTime w)%Z)
         (WorldState.m_CurrentPlayerData w).

End MoreModel.

(** Further states to evaluate the model on. *)
Module Cases.
(** Players 5 and 6 in the lobby, both with a status. *)
Definition two_known_players : WorldState.t Sample.team Sample.state :=
  run_lines Sample.empty_world
    [LobbyHeaderLine 2 1;
     LobbyMemberLine (Sample.member 5%N 0 false);
     LobbyMemberLine (LobbyMember.mk 6%N 0 Sample.invaders true);
     ServerStatusPlayerLine 20%Z (Sample.status 5%N "ann" 100000%Z);
     ServerStatusPlayerLine 20%Z (Sample.status 6%N "bob" 100000%Z)].
End Cases.

(** The property the name lookup is said to have: [id] belongs to an entry
    whose name is [name] and whose last status update is strictly later than
    that of every other entry of that name. *)
Definition strictly_latest_match {State : Type}
    (tbl : list (SteamID * PlayerExtraData.t State)) (name : string) (id : SteamID) : Prop :=
  exists k p,
    (k, p) ∈ tbl /\
    PlayerStatus.m_SteamID (PlayerExtraData.m_Status p) = id /\
    PlayerStatus.m_Name (PlayerExtraData.m_Status p) = name /\
    forall k' q,
      (k', q) ∈ tbl -> (k', q) <> (k, p) ->
      PlayerStatus.m_Name (PlayerExtraData.m_Status q) = name ->
      (PlayerExtraData.m_LastStatusUpdateTime q < PlayerExtraData.m_LastStatusUpdateTime p)%Z.

(** * Team relationships *)

Section TeamShare.
Context {Team State : Type} `{!HeaderDecls Team State}.

(** The four outcomes of [GetTeamShareResult], by the tests the function
    makes in turn. *)
Lemma GetTeamShareResult_cases (team0 team1 : option Team) :
  (GetTeamShareResult team0 team1 = Returned Neither
     <-> team0 = None \/ team1 = None) /\
  (GetTeamShareResult team0 team1 = Returned SameTeams
     <-> exists t, team0 = Some t /\ team1 = Some t) /\
  (GetTeamShareResult team0 team1 = Returned OppositeTeams
     <-> exists t0 t1, team0 = Some t0 /\ team1 = Some t1 /\
                       t0 <> t1 /\ t0 = OppositeTeam t1) /\
  (GetTeamShareResult team0 team1 = Threw "Unexpected team value(s)"
     <-> exists t0 t1, team0 = Some t0 /\ team1 = Some t1 /\
                       t0 <> t1 /\ t0 <> OppositeTeam t1) /\
  (forall what, GetTeamShareResult team0 team1 = Threw what ->
                what = "Unexpected team value(s)").
Proof.
  unfold GetTeamShareResult.
  destruct team0 as [t0|], team1 as [t1|]; simpl.
  2-4: repeat split; try (intros; discriminate); try tauto;
       try (intros (? & ? & ? & ?); try destruct_and?; discriminate);
       try (intros (? & ? & ?); discriminate).
  destruct (bool_decide_reflect (t0 = t1)) as [-> | Hne].
  { repeat split; try discriminate; eauto.
    - intros [? | ?]; discriminate.
    - intros (a & b & Ha & Hb & Hab & _). congruence.
    - intros (a & b & Ha & Hb & Hab & _). congruence. }
  destruct (bool_decide_reflect (t0 = OppositeTeam t1)) as [Hopp | Hnopp].
  { repeat split; try discriminate; eauto 7.
    - intros [? | ?]; discriminate.
    - intros (t & Ha & Hb). congruence.
    - intros (a & b & Ha & Hb & _ & Hab). congruence. }
  repeat split; try discriminate; eauto 7.
  - intros [? | ?]; discriminate.
  - intros (t & Ha & Hb). congruence.
  - intros (a & b & Ha & Hb & _ & Hab). congruence.
  - intros what Hw. congruence.
Qed.

(** C2. [GetTeamShareResult] on two optional teams: it returns [Neither]
    exactly when one of the two is absent; [SameTeams] exactly when both are
    present and equal; [OppositeTeams] exactly when both are present, differ,
    and the first is [OppositeTeam] of the second; and it throws exactly when
    both are present, differ, and the first is not [OppositeTeam] of the
    second.  The exception carries the message "Unexpected team value(s)"
    and no result is returned in that case.  When [OppositeTeam] undoes
    itself and maps no team to itself, being opposite does not depend on the
    side: [OppositeTeams] is returned exactly when both are present and one
    is [OppositeTeam] of the other, and the exception is thrown exactly when
    both are present and they are neither equal nor opposite. *)
Theorem GetTeamShareResult_classification (team0 team1 : option Team) :
  (GetTeamShareResult team0 team1 = Returned Neither
     <-> team0 = None \/ team1 = None) /\
  (GetTeamShareResult team0 team1 = Returned SameTeams
     <-> exists t, team0 = Some t /\ team1 = Some t) /\
  (GetTeamShareResult team0 team1 = Returned OppositeTeams
     <-> exists t0 t1, team0 = Some t0 /\ team1 = Some t1 /\
                       t0 <> t1 /\ t0 = OppositeTeam t1) /\
  (GetTeamShareResult team0 team1 = Threw "Unexpected team value(s)"
     <-> exists t0 t1, team0 = Some t0 /\ team1 = Some t1 /\
                       t0 <> t1 /\ t0 <> OppositeTeam t1) /\
  (forall what, GetTeamShareResult team0 team1 = Threw what ->
                what = "Unexpected team value(s)") /\
  ((forall t, OppositeTeam (OppositeTeam t) = t) ->
   (forall t, OppositeTeam t <> t) ->
   (GetTeamShareResult team0 team1 = Returned OppositeTeams
      <-> exists t0 t1, team0 = Some t0 /\ team1 = Some t1 /\
                        (t0 = OppositeTeam t1 \/ t1 = OppositeTeam t0)) /\
   (GetTeamShareResult team0 team1 = Threw "Unexpected team value(s)"
      <-> exists t0 t1, team0 = Some t0 /\ team1 = Some t1 /\
                        t0 <> t1 /\ t0 <> OppositeTeam t1 /\ t1 <> OppositeTeam t0)).
Proof.
  destruct (GetTeamShareResult_cases team0 team1)
    as (Hneither & Hsame & Hopposite & Hthrows & Hwhat).
  repeat (split; [assumption |]).
  intros Hinvolution Hnofix.
  assert (Hsides : forall t0 t1 : Team, t0 = OppositeTeam t1 <-> t1 = OppositeTeam t0).
  { intros t0 t1. split; intros ->; by rewrite Hinvolution. }
  rewrite Hopposite, Hthrows. split; split.
  - intros (t0 & t1 & H0 & H1 & _ & Hopp). exists t0, t1. auto.
  - intros (t0 & t1 & H0 & H1 & Hopp). exists t0, t1.
    assert (Hdirected : t0 = OppositeTeam t1) by (destruct Hopp; [done | by apply Hsides]).
    repeat split; try assumption.
    intros ->. by apply (Hnofix t1).
  - intros (t0 & t1 & H0 & H1 & Hne & Hnopp). exists t0, t1.
    repeat split; try assumption. by rewrite <- Hsides.
  - intros (t0 & t1 & H0 & H1 & Hne & Hnopp & _). by exists t0, t1.
Qed.

End TeamShare.

Lemma GetTeamShareResult_classification_witness :
  GetTeamShareResult (Some Sample.spectator) (Some Sample.defenders)
  = Threw "Unexpected team value(s)" /\
  GetTeamShareResult (Some TwoTeams.invaders) (Some TwoTeams.defenders)
  = Returned OppositeTeams.
Proof.
  split.
  - apply (proj2 (proj1 (proj2 (proj2 (proj2
             (GetTeamShareResult_classification
                (Some Sample.spectator) (Some Sample.defenders))))))).
    exists Sample.spectator, Sample.defenders.
    repeat split; discriminate.
  - destruct (GetTeamShareResult_classification
                (Some TwoTeams.invaders) (Some TwoTeams.defenders))
      as (_ & _ & _ & _ & _ & Hsymmetric).
    apply Hsymmetric.
    + intros []; reflexivity.
    + intros []; discriminate.
    + exists TwoTeams.invaders, TwoTeams.defenders. repeat split. by right.
Defined.

(** Two players on the Defenders team share a team, a Defenders and an
    Invaders player oppose each other, an unknown team gives [Neither]. *)
Example GetTeamShareResult_samples :
  GetTeamShareResult (Some Sample.defenders) (Some Sample.defenders) = Returned SameTeams /\
  GetTeamShareResult (Some Sample.defenders) (Some Sample.invaders) = Returned OppositeTeams /\
  GetTeamShareResult (None : option Sample.team) (Some Sample.invaders) = Returned Neither.
Proof. repeat split. Qed.

(** * Name lookup *)

Section NameLookup.
Context {Team State : Type} `{!HeaderDecls Team State}.

Abbreviation Player := (PlayerExtraData.t State).
Abbreviation Table := (list (SteamID * PlayerExtraData.t State)).
Abbreviation World := (WorldState.t Team State).

(** The loop invariant of [FindSteamIDForName]: either no entry moved
    [retVal], and then every entry of the name is no later than
    [lastUpdated]; or the result is the first entry, in table order, among
    the latest entries of the name, and that entry is later than
    [lastUpdated]. *)
Lemma FindSteamIDForName_loop_spec (tbl : Table) (name : string)
    (retVal : option SteamID) (lastUpdated : time_point_t) :
  (FindSteamIDForName_loop tbl name retVal lastUpdated = retVal /\
   forall k q, (k, q) ∈ tbl -> name_of q = name ->
               (GetLastStatusUpdateTime q <= lastUpdated)%Z)
  \/
  (exists pre k p post,
     tbl = pre ++ (k, p) :: post /\
     FindSteamIDForName_loop tbl name retVal lastUpdated = Some (GetSteamID p) /\
     name_of p = name /\
     (lastUpdated < GetLastStatusUpdateTime p)%Z /\
     (forall k' q, (k', q) ∈ pre -> name_of q = name ->
                   (GetLastStatusUpdateTime q < GetLastStatusUpdateTime p)%Z) /\
     (forall k' q, (k', q) ∈ post -> name_of q = name ->
                   (GetLastStatusUpdateTime q <= GetLastStatusUpdateTime p)%Z)).
Proof.
  revert retVal lastUpdated.
  induction tbl as [| [k data] rest IH]; intros retVal lastUpdated; simpl.
  { left. split; [reflexivity |]. intros k q Hin. inversion Hin. }
  fold (name_of data).
  destruct (bool_decide_reflect (name_of data = name)) as [Hname | Hname]; simpl.
  - destruct (Z.ltb_spec lastUpdated (GetLastStatusUpdateTime data)) as [Hlt | Hge].
    + destruct (IH (Some (GetSteamID data)) (GetLastStatusUpdateTime data))
        as [[Heq Hall] | (pre & k' & p & post & Htbl & Heq & Hn & Hlater & Hpre & Hpost)].
      * right. exists [], k, data, rest. simpl.
        repeat split; auto.
        intros k' q Hin. inversion Hin.
      * right. exists ((k, data) :: pre), k', p, post.
        split; [rewrite Htbl; reflexivity |].
        repeat split; auto.
        -- lia.
        -- intros k'' q Hin Hq. apply elem_of_cons in Hin as [Hhd | Htl].
           ++ inversion Hhd; subst. exact Hlater.
           ++ eauto.
    + destruct (IH retVal lastUpdated)
        as [[Heq Hall] | (pre & k' & p & post & Htbl & Heq & Hn & Hlater & Hpre & Hpost)].
      * left. split; [exact Heq |].
        intros k' q Hin Hq. apply elem_of_cons in Hin as [Hhd | Htl].
        -- inversion Hhd; subst. exact Hge.
        -- eauto.
      * right. exists ((k, data) :: pre), k', p, post.
        split; [rewrite Htbl; reflexivity |].
        repeat split; auto.
        intros k'' q Hin Hq. apply elem_of_cons in Hin as [Hhd | Htl].
        -- inversion Hhd; subst. lia.
        -- eauto.
  - destruct (IH retVal lastUpdated)
      as [[Heq Hall] | (pre & k' & p & post & Htbl & Heq & Hn & Hlater & Hpre & Hpost)].
    + left. split; [exact Heq |].
      intros k' q Hin Hq. apply elem_of_cons in Hin as [Hhd | Htl].
      * inversion Hhd; subst. contradiction.
      * eauto.
    + right. exists ((k, data) :: pre), k', p, post.
        split; [rewrite Htbl; reflexivity |].
      repeat split; auto.
      intros k'' q Hin Hq. apply elem_of_cons in Hin as [Hhd | Htl].
      * inversion Hhd; subst. contradiction.
      * eauto.
Qed.

(** C3, as the code has it.  [FindSteamIDForName] returns the identifier of
    the first entry, in the table's iteration order, among the entries of the
    queried name whose last status update is latest, provided that update is
    later than the zero time point: entries of the name before it are
    strictly earlier, entries of the name behind it are not later.  It
    returns nothing exactly when no entry of the name has a last status
    update later than the zero time point, in particular when no name
    matches. *)
Theorem FindSteamIDForName_latest_first (w : World) (name : string) :
  (FindSteamIDForName w name = None /\
   forall k q, (k, q) ∈ WorldState.m_CurrentPlayerData w -> name_of q = name ->
               (GetLastStatusUpdateTime q <= 0)%Z)
  \/
  (exists pre k p post,
     WorldState.m_CurrentPlayerData w = pre ++ (k, p) :: post /\
     FindSteamIDForName w name = Some (GetSteamID p) /\
     name_of p = name /\
     (0 < GetLastStatusUpdateTime p)%Z /\
     (forall k' q, (k', q) ∈ pre -> name_of q = name ->
                   (GetLastStatusUpdateTime q < GetLastStatusUpdateTime p)%Z) /\
     (forall k' q, (k', q) ∈ post -> name_of q = name ->
                   (GetLastStatusUpdateTime q <= GetLastStatusUpdateTime p)%Z)).
Proof.
  unfold FindSteamIDForName.
  apply FindSteamIDForName_loop_spec.
Qed.

(** With no entry of the queried name the lookup returns nothing. *)
Lemma FindSteamIDForName_no_match (w : World) (name : string) :
  (forall k q, (k, q) ∈ WorldState.m_CurrentPlayerData w -> name_of q <> name) ->
  FindSteamIDForName w name = None.
Proof.
  intros Hno.
  unfold FindSteamIDForName.
  destruct (FindSteamIDForName_loop_spec (WorldState.m_CurrentPlayerData w) name None 0%Z)
    as [[Heq _] | (pre & k & p & post & Htbl & _ & Hn & _)]; [exact Heq |].
  exfalso. apply (Hno k p); [| exact Hn].
  rewrite Htbl. apply elem_of_app. right. apply elem_of_cons. by left.
Qed.

End NameLookup.

Lemma FindSteamIDForName_latest_first_witness :
  FindSteamIDForName Sample.bob_twice "bob" = Some 1%N /\
  FindSteamIDForName Sample.bob_twice "eve" = None.
Proof.
  split.
  - destruct (FindSteamIDForName_latest_first Sample.bob_twice "bob")
      as [[_ Hall] | (pre & k & p & post & Htbl & Hfound & _)].
    + exfalso.
      assert (Hle : (GetLastStatusUpdateTime Sample.bob_first <= 0)%Z);
        [| by apply Hle].
      apply (Hall 1%N); [| reflexivity].
      apply elem_of_cons. by left.
    + reflexivity.
  - destruct (FindSteamIDForName_latest_first Sample.bob_twice "eve")
      as [[Hnone _] | (pre & k & p & post & Htbl & Hfound & _)]; [exact Hnone |].
    vm_compute in Hfound. discriminate.
Defined.

(** C3, as stated, fails.  On a tie the lookup returns an entry that is not
    strictly later than the other entry of the name; and an entry of the
    queried name whose last status update is the zero time point is not
    returned. *)
Lemma FindSteamIDForName_not_strictly_latest :
  (FindSteamIDForName Sample.bob_twice "bob" = Some 1%N /\
   ~ strictly_latest_match (WorldState.m_CurrentPlayerData Sample.bob_twice) "bob" 1%N) /\
  (FindSteamIDForName Sample.unnamed_member EmptyString = None /\
   exists k p, (k, p) ∈ WorldState.m_CurrentPlayerData Sample.unnamed_member /\
               PlayerStatus.m_Name (PlayerExtraData.m_Status p) = EmptyString).
Proof.
  assert (Htbl : WorldState.m_CurrentPlayerData Sample.bob_twice
                 = [(1%N, Sample.bob_first); (2%N, Sample.bob_second)]) by reflexivity.
  split; split.
  - reflexivity.
  - rewrite Htbl. intros (k & p & Hin & Hid & Hname & Hlatest).
    apply elem_of_cons in Hin as [Hp | Hin].
    + inversion Hp; subst k p.
      assert (Hlt : (GetLastStatusUpdateTime Sample.bob_second
                     < GetLastStatusUpdateTime Sample.bob_first)%Z); [| discriminate Hlt].
      apply (Hlatest 2%N); [| discriminate | reflexivity].
      apply elem_of_cons. right. apply elem_of_cons. by left.
    + apply elem_of_cons in Hin as [Hp | Hin]; [| inversion Hin].
      inversion Hp; subst k p. discriminate Hid.
  - reflexivity.
  - exists 7%N, (PlayerExtraData.with_Team (new_PlayerExtraData 7%N) (Some Red)).
    split; [| reflexivity].
    vm_compute. apply elem_of_cons. by left.
Qed.

(** * The update switch *)

Section Switch.
Context {Team State : Type} `{!HeaderDecls Team State}.

Abbreviation Player := (PlayerExtraData.t State).
Abbreviation Table := (list (SteamID * PlayerExtraData.t State)).
Abbreviation World := (WorldState.t Team State).
Abbreviation Member := (LobbyMember.t Team).
Abbreviation Line := (IConsoleLine Team State).

(** ** The table under [FindOrCreatePlayer] and [store_player] *)

Lemma table_find_app (tbl tbl' : Table) (id : SteamID) :
  table_find (tbl ++ tbl') id =
  match table_find tbl id with
  | Some p => Some p
  | None => table_find tbl' id
  end.
Proof.
  induction tbl as [| [k q] rest IH]; simpl; [reflexivity |].
  destruct (bool_decide (k = id)); [reflexivity | exact IH].
Qed.

Lemma table_find_store (tbl : Table) (id : SteamID) (p : Player) :
  is_Some (table_find tbl id) ->
  table_find (store_player tbl id p) id = Some p.
Proof.
  induction tbl as [| [k q] rest IH]; simpl.
  - intros [? Hx]. discriminate.
  - destruct (bool_decide_reflect (k = id)) as [-> | Hne]; simpl.
    + intros _. by rewrite bool_decide_eq_true_2.
    + intros Hsome. rewrite bool_decide_eq_false_2 by exact Hne. by apply IH.
Qed.

Lemma table_find_store_ne (tbl : Table) (id id' : SteamID) (p : Player) :
  id' <> id ->
  table_find (store_player tbl id p) id' = table_find tbl id'.
Proof.
  intros Hne.
  induction tbl as [| [k q] rest IH]; simpl; [reflexivity |].
  destruct (bool_decide_reflect (k = id)) as [-> | Hk]; simpl.
  - by rewrite bool_decide_eq_false_2 by congruence.
  - destruct (bool_decide (k = id')); [reflexivity | exact IH].
Qed.

Lemma store_player_keys (tbl : Table) (id : SteamID) (p : Player) :
  map fst (store_player tbl id p) = map fst tbl.
Proof.
  induction tbl as [| [k q] rest IH]; simpl; [reflexivity |].
  destruct (bool_decide (k = id)); simpl; [reflexivity | by rewrite IH].
Qed.

(** An identifier that [find] does not find is the key of no entry. *)
Lemma table_find_None_entry (tbl : Table) (id : SteamID) (q : Player) :
  table_find tbl id = None -> (id, q) ∉ tbl.
Proof.
  induction tbl as [| [k r] rest IH]; simpl; intros Hnone Hin; [inversion Hin |].
  destruct (bool_decide_reflect (k = id)) as [-> | Hne]; [discriminate |].
  apply elem_of_cons in Hin as [Heq | Hin]; [congruence | by apply IH].
Qed.

(** [find] returns the entry of a key that has one entry only, wherever the
    entry stands. *)
Lemma table_find_only_entry (tbl : Table) (id : SteamID) (p : Player) :
  (id, p) ∈ tbl -> (forall q, (id, q) ∈ tbl -> q = p) -> table_find tbl id = Some p.
Proof.
  induction tbl as [| [k r] rest IH]; simpl; intros Hin Honly; [inversion Hin |].
  destruct (bool_decide_reflect (k = id)) as [-> | Hne].
  - f_equal. apply Honly. by left.
  - apply IH.
    + apply elem_of_cons in Hin as [Heq | Hin]; [congruence | exact Hin].
    + intros q Hq. apply Honly. by right.
Qed.

(** After [emplace] for an identifier that had no entry, [find] returns the
    emplaced entry, whatever the place the container gave it. *)
Lemma table_find_emplace (tbl : Table) (id : SteamID) (p : Player) :
  table_find tbl id = None -> table_find (emplace tbl id p) id = Some p.
Proof.
  intros Hnone. apply table_find_only_entry.
  - rewrite (emplace_entries tbl id p). by left.
  - intros q Hq. rewrite (emplace_entries tbl id p) in Hq.
    apply elem_of_cons in Hq as [Heq | Hin]; [congruence |].
    by apply table_find_None_entry in Hin.
Qed.

(** The reference [FindOrCreatePlayer] returns designates the entry of [id]
    in the table after the call; it is the old entry if there was one and a
    freshly constructed one if not. *)
Lemma FindOrCreatePlayer_spec (tbl : Table) (id : SteamID) :
  table_find (fst (FindOrCreatePlayer tbl id)) id = Some (snd (FindOrCreatePlayer tbl id)) /\
  snd (FindOrCreatePlayer tbl id) =
    match table_find tbl id with
    | Some found => found
    | None => new_PlayerExtraData id
    end.
Proof.
  unfold FindOrCreatePlayer.
  destruct (table_find tbl id) as [found |] eqn:Hfind; simpl.
  - by rewrite Hfind.
  - by rewrite table_find_emplace.
Qed.

(** ** Lobby status failure *)

(** C4. A lobby-status-failure line: if the confirmed or the pending slot
    vector is non-empty, both vectors and the player table are emptied and
    every other field keeps its value; if both vectors are empty, the state
    is returned as it was, player table included.  No event is raised in
    either case. *)
Theorem LobbyStatusFailed_reset_or_noop (w : World) :
  (WorldState.m_CurrentLobbyMembers w <> [] \/ WorldState.m_PendingLobbyMembers w <> [] ->
   OnConsoleLineParsed w LobbyStatusFailedLine =
   (WorldState.mk (WorldState.m_Settings w) [] [] []
      (WorldState.m_IsLocalPlayerInitialized w) (WorldState.m_IsVoteInProgress w)
      (WorldState.m_LastStatusUpdateTime w) (WorldState.m_CurrentTimestamp w),
    [])) /\
  (WorldState.m_CurrentLobbyMembers w = [] /\ WorldState.m_PendingLobbyMembers w = [] ->
   OnConsoleLineParsed w LobbyStatusFailedLine = (w, [])).
Proof.
  unfold OnConsoleLineParsed, ClearLobbyState. split.
  - intros Hnonempty.
    destruct (WorldState.m_CurrentLobbyMembers w) as [| c cs] eqn:Hc;
      destruct (WorldState.m_PendingLobbyMembers w) as [| q qs] eqn:Hp;
      simpl; try reflexivity.
    destruct Hnonempty as [Hne | Hne]; contradiction.
  - intros [-> ->]. reflexivity.
Qed.

(** ** Lobby members and lobby headers *)

Lemma vector_assign_in_range (vec : list Member) (i : nat) (x : Member) :
  i < length vec -> vector_assign vec i x = <[i := x]> vec.
Proof. intros Hlt. unfold vector_assign. by rewrite bool_decide_eq_true_2. Qed.

(** The slot vectors after a lobby member line: the vector the member
    belongs to, written at its index when the index is in bounds, and the
    other vector as it was. *)
Lemma LobbyMember_slots (w : World) (member : Member) :
  let w' := fst (OnConsoleLineParsed w (LobbyMemberLine member)) in
  let vec := if LobbyMember.m_Pending member
             then WorldState.m_PendingLobbyMembers w
             else WorldState.m_CurrentLobbyMembers w in
  let vec' := if bool_decide (LobbyMember.m_Index member < length vec)
              then <[LobbyMember.m_Index member := member]> vec
              else vec in
  WorldState.m_CurrentLobbyMembers w' =
    (if LobbyMember.m_Pending member then WorldState.m_CurrentLobbyMembers w else vec') /\
  WorldState.m_PendingLobbyMembers w' =
    (if LobbyMember.m_Pending member then vec' else WorldState.m_PendingLobbyMembers w).
Proof.
  unfold OnConsoleLineParsed.
  destruct (LobbyMember.m_Pending member); simpl;
    match goal with
    | |- context [FindOrCreatePlayer ?t ?i] => destruct (FindOrCreatePlayer t i)
    end; simpl; split; try reflexivity;
    case_bool_decide; try reflexivity; by apply vector_assign_in_range.
Qed.

(** An update of a player record touches the player table only. *)
Lemma with_player_frame (w : World) (id : SteamID) (change : Player -> Player) :
  WorldState.with_players (with_player w id change) (WorldState.m_CurrentPlayerData w) = w.
Proof.
  unfold with_player.
  destruct (FindOrCreatePlayer (WorldState.m_CurrentPlayerData w) id). by destruct w.
Qed.

Lemma with_player_current (w : World) (id : SteamID) (change : Player -> Player) :
  WorldState.m_CurrentLobbyMembers (with_player w id change) = WorldState.m_CurrentLobbyMembers w.
Proof.
  unfold with_player.
  by destruct (FindOrCreatePlayer (WorldState.m_CurrentPlayerData w) id).
Qed.

Lemma with_player_pending (w : World) (id : SteamID) (change : Player -> Player) :
  WorldState.m_PendingLobbyMembers (with_player w id change) = WorldState.m_PendingLobbyMembers w.
Proof.
  unfold with_player.
  by destruct (FindOrCreatePlayer (WorldState.m_CurrentPlayerData w) id).
Qed.

(** The lengths of the slot vectors after a line that is neither a lobby
    header nor one of the two lines that reset the lobby. *)
Lemma keeps_sizes_lengths (w : World) (line : Line) :
  keeps_sizes line ->
  let w' := fst (OnConsoleLineParsed w line) in
  length (WorldState.m_CurrentLobbyMembers w') = length (WorldState.m_CurrentLobbyMembers w) /\
  length (WorldState.m_PendingLobbyMembers w') = length (WorldState.m_PendingLobbyMembers w).
Proof.
  intros (Hnot_header & Hnot_failed & Hnot_created).
  destruct line as [mc pc | | changeType | | | | name msg | name reason | cfg | member
                   | ts name ping | ts status | name idx | attacker victim | type |].
  - exfalso. by apply (Hnot_header mc pc).
  - contradiction.
  - unfold OnConsoleLineParsed.
    destruct changeType; simpl; [contradiction | done ..].
  - unfold OnConsoleLineParsed.
    destruct (WorldState.m_IsLocalPlayerInitialized w); simpl; auto.
  - unfold OnConsoleLineParsed.
    destruct (WorldState.m_IsLocalPlayerInitialized w); simpl; auto.
  - unfold OnConsoleLineParsed.
    destruct (WorldState.m_IsLocalPlayerInitialized w); simpl; auto.
  - unfold OnConsoleLineParsed.
    destruct (FindSteamIDForName w name) as [sid |]; simpl; auto.
    destruct (FindPlayer w sid); simpl; auto.
  - unfold OnConsoleLineParsed.
    destruct (FindSteamIDForName w name) as [sid |]; simpl; auto.
    destruct (FindPlayer w sid); simpl; auto.
  - unfold OnConsoleLineParsed, OnConfigExecLineParsed.
    destruct (is_class_config cfg); simpl; auto.
    destruct (negb _); simpl; auto.
  - destruct (LobbyMember_slots w member) as [Hcur Hpend].
    cbv zeta. rewrite Hcur, Hpend.
    destruct (LobbyMember.m_Pending member); split; try reflexivity;
      case_bool_decide; try reflexivity; apply length_insert.
  - unfold OnConsoleLineParsed.
    destruct (FindSteamIDForName w name) as [sid |]; simpl; auto.
    destruct (FindOrCreatePlayer _ sid); simpl; auto.
  - unfold OnConsoleLineParsed.
    destruct (FindOrCreatePlayer _ _); simpl; auto.
  - unfold OnConsoleLineParsed.
    destruct (FindSteamIDForName w name) as [sid |]; simpl; auto.
    destruct (FindOrCreatePlayer _ sid); simpl; auto.
  - unfold OnConsoleLineParsed.
    destruct (FindSteamIDForName w attacker) as [a |];
      destruct (FindSteamIDForName w victim) as [v |]; simpl;
      rewrite ?with_player_current, ?with_player_pending; auto.
  - unfold OnConsoleLineParsed. destruct type; simpl; auto.
  - simpl; auto.
Qed.

(** The lengths stay through any sequence of such lines. *)
Lemma keeps_sizes_run_lines (lines : list Line) (w : World) :
  Forall keeps_sizes lines ->
  length (WorldState.m_CurrentLobbyMembers (run_lines w lines))
  = length (WorldState.m_CurrentLobbyMembers w) /\
  length (WorldState.m_PendingLobbyMembers (run_lines w lines))
  = length (WorldState.m_PendingLobbyMembers w).
Proof.
  intros Hall. revert w.
  induction Hall as [| line rest Hline _ IH]; intros w; [done |].
  change (run_lines w (line :: rest))
    with (run_lines (fst (OnConsoleLineParsed w line)) rest).
  destruct (IH (fst (OnConsoleLineParsed w line))) as [Hcur Hpend].
  destruct (keeps_sizes_lengths w line Hline) as [Hcur' Hpend'].
  cbv zeta in Hcur', Hpend'. by rewrite Hcur, Hpend, Hcur', Hpend'.
Qed.

(** C5, as the code has it.  A lobby member line writes the member into the
    confirmed vector, or into the pending vector when the member is flagged
    pending, exactly when its index is strictly below the current size of
    that vector; with an index at or beyond the size both vectors stay as
    they are, so the assignment is never made out of range.  The line never
    changes a size.  As to the sizes: a lobby header sets them to the counts
    it declares; a lobby change of type [Created], and a lobby-status failure
    that finds a vector non-empty, empty both vectors; a lobby-status failure
    that finds both empty changes nothing; and every other line leaves both
    sizes as they are.  Hence the sizes are the counts of the most recent
    header as long as no such reset has come after it, and then a member line
    at an index at or beyond the declared count writes nothing. *)
Theorem LobbyMember_written_only_in_bounds (w : World) (member : Member) :
  let w' := fst (OnConsoleLineParsed w (LobbyMemberLine member)) in
  let i := LobbyMember.m_Index member in
  (LobbyMember.m_Pending member = false ->
   WorldState.m_PendingLobbyMembers w' = WorldState.m_PendingLobbyMembers w /\
   (i < length (WorldState.m_CurrentLobbyMembers w) ->
    WorldState.m_CurrentLobbyMembers w' = <[i := member]> (WorldState.m_CurrentLobbyMembers w) /\
    WorldState.m_CurrentLobbyMembers w' !! i = Some member) /\
   (length (WorldState.m_CurrentLobbyMembers w) <= i ->
    WorldState.m_CurrentLobbyMembers w' = WorldState.m_CurrentLobbyMembers w)) /\
  (LobbyMember.m_Pending member = true ->
   WorldState.m_CurrentLobbyMembers w' = WorldState.m_CurrentLobbyMembers w /\
   (i < length (WorldState.m_PendingLobbyMembers w) ->
    WorldState.m_PendingLobbyMembers w' = <[i := member]> (WorldState.m_PendingLobbyMembers w) /\
    WorldState.m_PendingLobbyMembers w' !! i = Some member) /\
   (length (WorldState.m_PendingLobbyMembers w) <= i ->
    WorldState.m_PendingLobbyMembers w' = WorldState.m_PendingLobbyMembers w)) /\
  (length (WorldState.m_CurrentLobbyMembers w') = length (WorldState.m_CurrentLobbyMembers w) /\
   length (WorldState.m_PendingLobbyMembers w') = length (WorldState.m_PendingLobbyMembers w)) /\
  (forall memberCount pendingCount,
     let h := fst (OnConsoleLineParsed w (LobbyHeaderLine memberCount pendingCount)) in
     length (WorldState.m_CurrentLobbyMembers h) = memberCount /\
     length (WorldState.m_PendingLobbyMembers h) = pendingCount) /\
  (let c := fst (OnConsoleLineParsed w (LobbyChangedLine Created)) in
   WorldState.m_CurrentLobbyMembers c = [] /\ WorldState.m_PendingLobbyMembers c = []) /\
  (let f := fst (OnConsoleLineParsed w LobbyStatusFailedLine) in
   (WorldState.m_CurrentLobbyMembers w <> [] \/ WorldState.m_PendingLobbyMembers w <> [] ->
    WorldState.m_CurrentLobbyMembers f = [] /\ WorldState.m_PendingLobbyMembers f = []) /\
   (WorldState.m_CurrentLobbyMembers w = [] /\ WorldState.m_PendingLobbyMembers w = [] ->
    f = w)) /\
  (forall line : Line,
     keeps_sizes line ->
     let v := fst (OnConsoleLineParsed w line) in
     length (WorldState.m_CurrentLobbyMembers v) = length (WorldState.m_CurrentLobbyMembers w) /\
     length (WorldState.m_PendingLobbyMembers v) = length (WorldState.m_PendingLobbyMembers w)) /\
  (forall (lines : list Line) (memberCount pendingCount : nat),
     Forall keeps_sizes lines ->
     let v := run_lines w (LobbyHeaderLine memberCount pendingCount :: lines) in
     length (WorldState.m_CurrentLobbyMembers v) = memberCount /\
     length (WorldState.m_PendingLobbyMembers v) = pendingCount /\
     ((if LobbyMember.m_Pending member then pendingCount else memberCount) <= i ->
      let v' := fst (OnConsoleLineParsed v (LobbyMemberLine member)) in
      WorldState.m_CurrentLobbyMembers v' = WorldState.m_CurrentLobbyMembers v /\
      WorldState.m_PendingLobbyMembers v' = WorldState.m_PendingLobbyMembers v)).
Proof.
  cbv zeta.
  destruct (LobbyMember_slots w member) as [Hcur Hpend]. cbv zeta in Hcur, Hpend.
  split; [| split; [| split; [| split; [| split; [| split; [| split]]]]]].
  - intros Hconfirmed. rewrite Hconfirmed in Hcur, Hpend.
    split; [exact Hpend |]. split.
    + intros Hlt. rewrite bool_decide_eq_true_2 in Hcur by exact Hlt.
      split; [exact Hcur |]. rewrite Hcur. by apply list_lookup_insert_eq.
    + intros Hge. rewrite bool_decide_eq_false_2 in Hcur by lia. exact Hcur.
  - intros Hpending. rewrite Hpending in Hcur, Hpend.
    split; [exact Hcur |]. split.
    + intros Hlt. rewrite bool_decide_eq_true_2 in Hpend by exact Hlt.
      split; [exact Hpend |]. rewrite Hpend. by apply list_lookup_insert_eq.
    + intros Hge. rewrite bool_decide_eq_false_2 in Hpend by lia. exact Hpend.
  - rewrite Hcur, Hpend.
    destruct (LobbyMember.m_Pending member); split; try reflexivity;
      case_bool_decide; try reflexivity; apply length_insert.
  - intros memberCount pendingCount. simpl. split; apply length_resize.
  - split; reflexivity.
  - unfold OnConsoleLineParsed, ClearLobbyState. split.
    + intros Hnonempty.
      destruct (WorldState.m_CurrentLobbyMembers w) as [| c cs] eqn:Hc;
        destruct (WorldState.m_PendingLobbyMembers w) as [| q qs] eqn:Hp;
        simpl; try done.
    + intros [-> ->]. reflexivity.
  - intros line Hline. by apply keeps_sizes_lengths.
  - intros lines memberCount pendingCount Hlines.
    set (h := fst (OnConsoleLineParsed w (LobbyHeaderLine memberCount pendingCount))).
    change (run_lines w (LobbyHeaderLine memberCount pendingCount :: lines))
      with (run_lines h lines).
    destruct (keeps_sizes_run_lines lines h Hlines) as [Hlc Hlp].
    assert (Hhc : length (WorldState.m_CurrentLobbyMembers h) = memberCount)
      by (subst h; simpl; apply length_resize).
    assert (Hhp : length (WorldState.m_PendingLobbyMembers h) = pendingCount)
      by (subst h; simpl; apply length_resize).
    rewrite Hhc in Hlc. rewrite Hhp in Hlp.
    split; [exact Hlc |]. split; [exact Hlp |].
    intros Hout.
    destruct (LobbyMember_slots (run_lines h lines) member) as [Hc Hp]. cbv zeta in Hc, Hp.
    rewrite Hc, Hp.
    destruct (LobbyMember.m_Pending member); split; try reflexivity;
      rewrite bool_decide_eq_false_2; try reflexivity; lia.
Qed.

(** ** Full status lines *)

(** The test [delta < 2s && delta > -2s] is a test on the distance between
    the two connection times. *)
Lemma patched_ConnectionTime_cases (stored new : time_point_t) :
  ((Z.abs (new - stored) < two_seconds)%Z -> patched_ConnectionTime stored new = stored) /\
  ((two_seconds <= Z.abs (new - stored))%Z -> patched_ConnectionTime stored new = new).
Proof.
  unfold patched_ConnectionTime.
  destruct (Z.ltb_spec (stored - new) two_seconds);
    destruct (Z.ltb_spec (- two_seconds) (stored - new)); simpl;
    split; intros; try reflexivity; lia.
Qed.

(** The entry of the reported identifier after a full status line. *)
Lemma PlayerStatus_entry (w : World) (timestamp : time_point_t) (status : PlayerStatus.t State) :
  let id := PlayerStatus.m_SteamID status in
  let playerData :=
    match FindPlayer w id with
    | Some found => found
    | None => new_PlayerExtraData id
    end in
  FindPlayer (fst (OnConsoleLineParsed w (ServerStatusPlayerLine timestamp status))) id =
  Some (SetStatus playerData
          (PlayerStatus.with_ConnectionTime status
             (patched_ConnectionTime (stored_ConnectionTime w id)
                (PlayerStatus.m_ConnectionTime status)))
          timestamp).
Proof.
  cbv zeta. unfold OnConsoleLineParsed, stored_ConnectionTime, FindPlayer.
  destruct (FindOrCreatePlayer_spec (WorldState.m_CurrentPlayerData w)
              (PlayerStatus.m_SteamID status)) as [Hfind Hentry].
  destruct (FindOrCreatePlayer (WorldState.m_CurrentPlayerData w)
              (PlayerStatus.m_SteamID status)) as [tbl playerData].
  simpl in Hfind, Hentry. simpl.
  rewrite table_find_store by (rewrite Hfind; eauto).
  rewrite Hentry.
  destruct (table_find (WorldState.m_CurrentPlayerData w) (PlayerStatus.m_SteamID status));
    reflexivity.
Qed.

Lemma PlayerStatus_stored (w : World) (timestamp : time_point_t) (status : PlayerStatus.t State) :
  stored_ConnectionTime
    (fst (OnConsoleLineParsed w (ServerStatusPlayerLine timestamp status)))
    (PlayerStatus.m_SteamID status) =
  patched_ConnectionTime (stored_ConnectionTime w (PlayerStatus.m_SteamID status))
    (PlayerStatus.m_ConnectionTime status).
Proof.
  unfold stored_ConnectionTime at 1.
  pose proof (PlayerStatus_entry w timestamp status) as Hentry. cbv zeta in Hentry.
  rewrite Hentry. reflexivity.
Qed.

(** Status lines whose connection times stay within two seconds of the
    stored one leave the stored one where it is. *)
Lemma deltas_under_two_seconds_stable (lines : list Line) (w : World) (id : SteamID) :
  deltas_under_two_seconds w id lines ->
  stored_ConnectionTime (run_lines w lines) id = stored_ConnectionTime w id.
Proof.
  revert w.
  induction lines as [| line rest IH]; intros w Hall; [reflexivity |].
  destruct Hall as [(timestamp & status & -> & Hid & Hdelta) Hrest].
  change (run_lines w (ServerStatusPlayerLine timestamp status :: rest))
    with (run_lines (fst (OnConsoleLineParsed w (ServerStatusPlayerLine timestamp status))) rest).
  rewrite IH by exact Hrest.
  subst id. rewrite PlayerStatus_stored.
  by apply patched_ConnectionTime_cases.
Qed.

Lemma deltas_under_two_seconds_take (k : nat) (lines : list Line) (w : World) (id : SteamID) :
  deltas_under_two_seconds w id lines ->
  deltas_under_two_seconds w id (take k lines).
Proof.
  revert lines w.
  induction k as [| k IH]; intros lines w Hall; [by rewrite take_0 |].
  destruct lines as [| line rest]; simpl; [exact I |].
  destruct Hall as [Hline Hrest]. split; [exact Hline | by apply IH].
Qed.

(** While every reading is less than two seconds away from the stored
    connection time, the lines qualify for [deltas_under_two_seconds]. *)
Lemma deltas_under_two_seconds_near (lines : list Line) (w : World) (id : SteamID) :
  status_lines_for id lines ->
  (forall t, t ∈ raw_ConnectionTimes lines ->
             (Z.abs (t - stored_ConnectionTime w id) < two_seconds)%Z) ->
  deltas_under_two_seconds w id lines.
Proof.
  revert w.
  induction lines as [| line rest IH]; intros w Hstatus Hnear; [exact I |].
  apply Forall_cons in Hstatus as [(timestamp & status & -> & Hid) Hstatus].
  assert (Hfirst : (Z.abs (PlayerStatus.m_ConnectionTime status - stored_ConnectionTime w id)
                    < two_seconds)%Z).
  { apply Hnear. simpl. by left. }
  split; [by exists timestamp, status |].
  apply IH; [exact Hstatus |].
  intros t Ht. subst id. rewrite PlayerStatus_stored.
  rewrite (proj1 (patched_ConnectionTime_cases _ _) Hfirst).
  apply Hnear. simpl. by right.
Qed.

Lemma stored_history_cons (w : World) (id : SteamID) (line : Line) (rest : list Line) :
  stored_history w id (line :: rest) =
  stored_ConnectionTime w id :: stored_history (fst (OnConsoleLineParsed w line)) id rest.
Proof.
  unfold stored_history. simpl. f_equal.
  rewrite <- seq_shift, map_map. reflexivity.
Qed.

(** A history made of one value, and a history made of one value followed by
    another one, do not oscillate. *)
Lemma constant_then_constant (first second : time_point_t) (n m : nat) :
  does_not_oscillate (replicate n first ++ replicate m second).
Proof.
  assert (Hsorted : forall R : Z -> Z -> Prop,
            (forall x, R x x) -> R first second ->
            StronglySorted R (replicate n first ++ replicate m second)).
  { intros R Hrefl Hfs.
    apply StronglySorted_app. split; [| split].
    - intros x y Hx%elem_of_replicate Hy%elem_of_replicate.
      destruct Hx as [-> _], Hy as [-> _]. exact Hfs.
    - induction n as [| n IH]; simpl; constructor; [exact IH |].
      apply Forall_forall. intros y [-> _]%elem_of_replicate. apply Hrefl.
    - induction m as [| m IH]; simpl; constructor; [exact IH |].
      apply Forall_forall. intros y [-> _]%elem_of_replicate. apply Hrefl. }
  destruct (Z.le_ge_cases first second) as [Hle | Hge].
  - left. apply Hsorted; [apply Z.le_refl | exact Hle].
  - right. apply Hsorted; [intros x; apply Z.le_ge, Z.le_refl | by apply Z.le_ge].
Qed.

Lemma stored_history_constant (lines : list Line) (w : World) (id : SteamID) :
  deltas_under_two_seconds w id lines ->
  stored_history w id lines = replicate (S (length lines)) (stored_ConnectionTime w id).
Proof.
  revert w.
  induction lines as [| line rest IH]; intros w Hall; [reflexivity |].
  rewrite stored_history_cons.
  destruct Hall as [(timestamp & status & -> & Hid & Hdelta) Hrest].
  rewrite (IH _ Hrest). subst id. rewrite PlayerStatus_stored.
  rewrite (proj1 (patched_ConnectionTime_cases _ _) Hdelta). reflexivity.
Qed.

(** Readings that are all less than two seconds apart move the stored
    connection time at most once. *)
Lemma stored_history_one_step (lines : list Line) (w : World) (id : SteamID) :
  status_lines_for id lines ->
  all_deltas_under_two_seconds (raw_ConnectionTimes lines) ->
  exists (n m : nat) (moved : time_point_t),
    stored_history w id lines
    = replicate n (stored_ConnectionTime w id) ++ replicate m moved.
Proof.
  revert w.
  induction lines as [| line rest IH]; intros w Hstatus Hclose.
  { exists 1, 0, 0%Z. reflexivity. }
  rewrite stored_history_cons.
  pose proof Hstatus as Hstatus'.
  apply Forall_cons in Hstatus' as [(timestamp & status & -> & Hid) Hrest].
  assert (Hclose_rest : all_deltas_under_two_seconds (raw_ConnectionTimes rest)).
  { intros a b Ha Hb. apply Hclose; simpl; by right. }
  destruct (Z.lt_ge_cases
              (Z.abs (PlayerStatus.m_ConnectionTime status - stored_ConnectionTime w id))
              two_seconds) as [Hnear | Hfar].
  - destruct (IH (fst (OnConsoleLineParsed w (ServerStatusPlayerLine timestamp status)))
                Hrest Hclose_rest) as (n & m & moved & Hhistory).
    rewrite Hhistory. subst id. rewrite PlayerStatus_stored.
    rewrite (proj1 (patched_ConnectionTime_cases _ _) Hnear).
    by exists (S n), m, moved.
  - exists 1, (S (length rest)), (PlayerStatus.m_ConnectionTime status).
    rewrite stored_history_constant.
    + subst id. rewrite PlayerStatus_stored.
      by rewrite (proj2 (patched_ConnectionTime_cases _ _) Hfar).
    + apply deltas_under_two_seconds_near; [exact Hrest |].
      intros t Ht. subst id. rewrite PlayerStatus_stored.
      rewrite (proj2 (patched_ConnectionTime_cases _ _) Hfar).
      apply Hclose; simpl; [by left | by right].
Qed.

(** C1, as the code has it.  A full status line for an identifier leaves
    the stored connection time as it was when the reported one is less than
    two seconds away from it, in either direction, and stores the reported
    one otherwise; every other field of the status is stored as reported and
    the line's timestamp becomes the last status update.  Hence, along a
    sequence of status lines for one identifier, the stored connection time
    stays the same as long as each reported time is less than two seconds
    away from the stored one; and when any two reported times of the
    sequence are less than two seconds apart, the stored connection time
    moves at most once and its history does not oscillate. *)
Theorem PlayerStatus_jitter_suppression :
  (forall (w : World) (timestamp : time_point_t) (status : PlayerStatus.t State),
     let id := PlayerStatus.m_SteamID status in
     let stored := stored_ConnectionTime w id in
     let new := PlayerStatus.m_ConnectionTime status in
     let w' := fst (OnConsoleLineParsed w (ServerStatusPlayerLine timestamp status)) in
     exists p',
       FindPlayer w' id = Some p' /\
       PlayerExtraData.m_Status p' =
         PlayerStatus.with_ConnectionTime status
           (if bool_decide (Z.abs (new - stored) < two_seconds)%Z then stored else new) /\
       PlayerExtraData.m_LastStatusUpdateTime p' = timestamp /\
       ((Z.abs (new - stored) < two_seconds)%Z -> stored_ConnectionTime w' id = stored) /\
       ((two_seconds <= Z.abs (new - stored))%Z -> stored_ConnectionTime w' id = new)) /\
  (forall (w : World) (id : SteamID) (lines : list Line),
     deltas_under_two_seconds w id lines ->
     forall k, stored_ConnectionTime (run_lines w (take k lines)) id
               = stored_ConnectionTime w id) /\
  (forall (w : World) (id : SteamID) (lines : list Line),
     status_lines_for id lines ->
     all_deltas_under_two_seconds (raw_ConnectionTimes lines) ->
     (exists (n m : nat) (moved : time_point_t),
        stored_history w id lines
        = replicate n (stored_ConnectionTime w id) ++ replicate m moved) /\
     does_not_oscillate (stored_history w id lines)).
Proof.
  split; [| split].
  - intros w timestamp status. cbv zeta.
    pose proof (PlayerStatus_entry w timestamp status) as Hentry. cbv zeta in Hentry.
    pose proof (patched_ConnectionTime_cases
                  (stored_ConnectionTime w (PlayerStatus.m_SteamID status))
                  (PlayerStatus.m_ConnectionTime status)) as [Hnear Hfar].
    eexists. split; [exact Hentry |]. split; [| split; [reflexivity | split]].
    + simpl. f_equal. case_bool_decide; [by apply Hnear | apply Hfar; lia].
    + intros Hlt. rewrite PlayerStatus_stored. by apply Hnear.
    + intros Hge. rewrite PlayerStatus_stored. by apply Hfar.
  - intros w id lines Hall k.
    by apply deltas_under_two_seconds_stable, deltas_under_two_seconds_take.
  - intros w id lines Hstatus Hclose.
    destruct (stored_history_one_step lines w id Hstatus Hclose)
      as (n & m & moved & Hhistory).
    split; [by exists n, m, moved |].
    rewrite Hhistory. apply constant_then_constant.
Qed.

(** ** The table invariant *)

Lemma table_find_None (tbl : Table) (id : SteamID) :
  table_find tbl id = None <-> id ∉ map fst tbl.
Proof.
  induction tbl as [| [k q] rest IH]; simpl.
  - split; [intros _ Hin; inversion Hin | reflexivity].
  - rewrite not_elem_of_cons.
    destruct (bool_decide_reflect (k = id)) as [-> | Hne].
    + split; [discriminate | intros [Hne _]; congruence].
    + rewrite IH. split; [intros Hnotin; split; [congruence | exact Hnotin] | tauto].
Qed.

Lemma table_find_identifier (tbl : Table) (id : SteamID) (p : Player) :
  Forall (fun kp => GetSteamID (snd kp) = fst kp) tbl ->
  table_find tbl id = Some p ->
  GetSteamID p = id.
Proof.
  induction 1 as [| [k q] rest Hhd _ IH]; simpl; [discriminate |].
  destruct (bool_decide_reflect (k = id)) as [-> | Hne]; [| exact IH].
  intros [= ->]. exact Hhd.
Qed.

Lemma FindOrCreatePlayer_wf (tbl : Table) (id : SteamID) :
  table_wf tbl ->
  table_wf (fst (FindOrCreatePlayer tbl id)) /\
  GetSteamID (snd (FindOrCreatePlayer tbl id)) = id.
Proof.
  intros [Hkeys Hids]. unfold FindOrCreatePlayer.
  destruct (table_find tbl id) as [found |] eqn:Hfind; simpl.
  - split; [by split |]. by apply (table_find_identifier tbl).
  - split; [| reflexivity]. split.
    + assert (Hperm : Permutation (map fst (emplace tbl id (new_PlayerExtraData id)))
                                  (id :: map fst tbl))
        by apply (Permutation_map fst (emplace_entries tbl id (new_PlayerExtraData id))).
      rewrite Hperm. apply NoDup_cons.
      split; [by apply table_find_None in Hfind | exact Hkeys].
    + apply (Permutation_Forall (Permutation_sym (emplace_entries tbl id _))).
      by constructor.
Qed.

Lemma store_player_wf (tbl : Table) (id : SteamID) (p : Player) :
  table_wf tbl -> GetSteamID p = id -> table_wf (store_player tbl id p).
Proof.
  intros [Hkeys Hids] Hp. split; [by rewrite store_player_keys |].
  clear Hkeys.
  induction Hids as [| [k q] rest Hhd Hrest IH]; simpl; [constructor |].
  destruct (bool_decide_reflect (k = id)) as [-> | Hne]; by constructor.
Qed.

(** [FindOrCreatePlayer] followed by an assignment that keeps the
    identifier keeps the invariant. *)
Lemma update_table_wf (tbl : Table) (id : SteamID) (change : Player -> Player) :
  table_wf tbl ->
  (forall p, GetSteamID (change p) = GetSteamID p) ->
  table_wf (store_player (fst (FindOrCreatePlayer tbl id)) id
              (change (snd (FindOrCreatePlayer tbl id)))).
Proof.
  intros Hwf Hchange.
  destruct (FindOrCreatePlayer_wf _ id Hwf) as [Hwf' Hid].
  apply store_player_wf; [exact Hwf' | by rewrite Hchange].
Qed.

(** Every line keeps the keys of the player table unique and every entry
    under its own identifier. *)
Lemma OnConsoleLineParsed_table_wf (w : World) (line : Line) :
  table_wf (WorldState.m_CurrentPlayerData w) ->
  table_wf (WorldState.m_CurrentPlayerData (fst (OnConsoleLineParsed w line))).
Proof.
  intros Hwf.
  pose proof (fun id change => update_table_wf (WorldState.m_CurrentPlayerData w) id change Hwf)
    as Hupdate.
  destruct line as [mc pc | | changeType | | | | name msg | name reason | cfg | member
                   | ts name ping | ts status | name idx | attacker victim | type |];
    unfold OnConsoleLineParsed.
  - exact Hwf.
  - destruct (negb _ || negb _); simpl; [| exact Hwf].
    split; constructor.
  - assert (Hzero : forall tbl : Table,
              table_wf tbl ->
              table_wf (map (fun player =>
                               (fst player, PlayerExtraData.with_ClientIndex (snd player) 0%N))
                            tbl)).
    { intros tbl [Hkeys Hids]. split.
      - rewrite map_map. simpl. exact Hkeys.
      - clear Hkeys. induction Hids as [| [k q] rest Hhd _ IH]; simpl; by constructor. }
    destruct changeType; simpl; try exact Hwf; try (by apply Hzero).
    split; constructor.
  - destruct (WorldState.m_IsLocalPlayerInitialized w); exact Hwf.
  - destruct (WorldState.m_IsLocalPlayerInitialized w); exact Hwf.
  - destruct (WorldState.m_IsLocalPlayerInitialized w); exact Hwf.
  - destruct (FindSteamIDForName w name) as [sid |]; [| exact Hwf].
    destruct (FindPlayer w sid); exact Hwf.
  - destruct (FindSteamIDForName w name) as [sid |]; [| exact Hwf].
    destruct (FindPlayer w sid); exact Hwf.
  - unfold OnConfigExecLineParsed.
    destruct (is_class_config cfg); [| exact Hwf].
    destruct (negb _); exact Hwf.
  - specialize (Hupdate (LobbyMember.m_SteamID member)
                  (fun p => PlayerExtraData.with_Team p
                     (Some (if bool_decide (LobbyMember.m_Team member = Defenders)
                            then Red else Blue)))
                  (fun p => eq_refl)).
    destruct (LobbyMember.m_Pending member); simpl;
      destruct (FindOrCreatePlayer (WorldState.m_CurrentPlayerData w)
                  (LobbyMember.m_SteamID member)); exact Hupdate.
  - destruct (FindSteamIDForName w name) as [found |]; [| exact Hwf].
    specialize (Hupdate found (fun p => SetPing p ping ts) (fun p => eq_refl)).
    destruct (FindOrCreatePlayer (WorldState.m_CurrentPlayerData w) found); exact Hupdate.
  - destruct (FindOrCreatePlayer_wf _ (PlayerStatus.m_SteamID status) Hwf) as [Hwf' Hid].
    destruct (FindOrCreatePlayer (WorldState.m_CurrentPlayerData w)
                (PlayerStatus.m_SteamID status)) as [tbl playerData].
    simpl in *. by apply store_player_wf.
  - destruct (FindSteamIDForName w name) as [steamID |]; [| exact Hwf].
    specialize (Hupdate steamID (fun p => PlayerExtraData.with_ClientIndex p idx)
                  (fun p => eq_refl)).
    destruct (FindOrCreatePlayer (WorldState.m_CurrentPlayerData w) steamID); exact Hupdate.
  - assert (Hplayer : forall (v : World) id (change : Player -> Player),
              table_wf (WorldState.m_CurrentPlayerData v) ->
              (forall p, GetSteamID (change p) = GetSteamID p) ->
              table_wf (WorldState.m_CurrentPlayerData (with_player v id change))).
    { intros v id change Hv Hchange. unfold with_player.
      pose proof (update_table_wf _ id change Hv Hchange) as Hstored.
      by destruct (FindOrCreatePlayer (WorldState.m_CurrentPlayerData v) id). }
    simpl.
    destruct (FindSteamIDForName w attacker) as [a |];
      destruct (FindSteamIDForName w victim) as [v |];
      repeat apply Hplayer; done.
  - destruct type; exact Hwf.
  - exact Hwf.
Qed.

(** The invariant holds in every state reached from a state with an empty
    table. *)
Lemma run_lines_table_wf (lines : list Line) (w : World) :
  table_wf (WorldState.m_CurrentPlayerData w) ->
  table_wf (WorldState.m_CurrentPlayerData (run_lines w lines)).
Proof.
  revert w.
  induction lines as [| line rest IH]; intros w Hwf; [exact Hwf |].
  apply (IH (fst (OnConsoleLineParsed w line))).
  by apply OnConsoleLineParsed_table_wf.
Qed.

End Switch.

Lemma LobbyStatusFailed_reset_or_noop_witness :
  OnConsoleLineParsed Sample.empty_world LobbyStatusFailedLine = (Sample.empty_world, []) /\
  OnConsoleLineParsed Sample.unnamed_member LobbyStatusFailedLine = (Sample.empty_world, []).
Proof.
  split.
  - apply (proj2 (LobbyStatusFailed_reset_or_noop Sample.empty_world)).
    split; reflexivity.
  - apply (proj1 (LobbyStatusFailed_reset_or_noop Sample.unnamed_member)).
    left. vm_compute. discriminate.
Defined.

Lemma LobbyMember_written_only_in_bounds_witness :
  WorldState.m_CurrentLobbyMembers
    (fst (OnConsoleLineParsed Sample.lobby_2_1 (LobbyMemberLine (Sample.member 5%N 2 false))))
  = WorldState.m_CurrentLobbyMembers Sample.lobby_2_1 /\
  WorldState.m_CurrentLobbyMembers
    (fst (OnConsoleLineParsed Sample.lobby_2_1 (LobbyMemberLine (Sample.member 5%N 1 false))))
    !! 1 = Some (Sample.member 5%N 1 false).
Proof.
  pose proof (LobbyMember_written_only_in_bounds Sample.lobby_2_1 (Sample.member 5%N 2 false))
    as [Hout _].
  pose proof (LobbyMember_written_only_in_bounds Sample.lobby_2_1 (Sample.member 5%N 1 false))
    as [Hin _].
  split.
  - apply Hout; [reflexivity |]. vm_compute. lia.
  - apply Hin; [reflexivity |]. vm_compute. lia.
Defined.

(** C5, as stated, fails.  The sizes are not controlled by the most recent
    lobby header alone.  After a header that declares two confirmed slots, a
    lobby-status failure, or a lobby change of type [Created], empties the
    vectors: the confirmed vector then has no slot although the most recent
    header declared two, and a member line at index 0 is not written.
    Without the reset in between it is written. *)
Lemma LobbyMember_sizes_not_from_header_alone :
  length (WorldState.m_CurrentLobbyMembers
            (run_lines Sample.empty_world [LobbyHeaderLine 2 1; LobbyStatusFailedLine]))
  = 0 /\
  WorldState.m_CurrentLobbyMembers
    (run_lines Sample.empty_world
       [LobbyHeaderLine 2 1; LobbyStatusFailedLine;
        LobbyMemberLine (Sample.member 5%N 0 false)])
  = [] /\
  length (WorldState.m_CurrentLobbyMembers
            (run_lines Sample.empty_world [LobbyHeaderLine 2 1; LobbyChangedLine Created]))
  = 0 /\
  WorldState.m_CurrentLobbyMembers
    (run_lines Sample.empty_world
       [LobbyHeaderLine 2 1; LobbyChangedLine Created;
        LobbyMemberLine (Sample.member 5%N 0 false)])
  = [] /\
  WorldState.m_CurrentLobbyMembers
    (run_lines Sample.empty_world
       [LobbyHeaderLine 2 1; LobbyMemberLine (Sample.member 5%N 0 false)]) !! 0
  = Some (Sample.member 5%N 0 false).
Proof. repeat split. Qed.

Lemma PlayerStatus_jitter_suppression_witness :
  deltas_under_two_seconds Sample.bob_connected 1%N Sample.jitter_lines /\
  stored_ConnectionTime (run_lines Sample.bob_connected (take 3 Sample.jitter_lines)) 1%N
  = stored_ConnectionTime Sample.bob_connected 1%N.
Proof.
  assert (Hdeltas : deltas_under_two_seconds Sample.bob_connected 1%N Sample.jitter_lines).
  { simpl. repeat split;
      (eexists _, _; split; [reflexivity | split; [reflexivity | vm_compute; reflexivity]]). }
  split; [exact Hdeltas |].
  exact (proj1 (proj2 PlayerStatus_jitter_suppression) Sample.bob_connected 1%N
           Sample.jitter_lines Hdeltas 3).
Defined.

(** C1, as stated, fails.  Five status lines for one player whose reported
    connection times move by one second from one line to the next, up by two
    seconds and down again: once the first line has stored its time, the
    stored connection time follows to the top and comes back. *)
Lemma PlayerStatus_drift_oscillates :
  status_lines_for 1%N Sample.drift_lines /\
  successive_deltas_under_two_seconds (raw_ConnectionTimes Sample.drift_lines) /\
  stored_history Sample.empty_world 1%N Sample.drift_lines
  = [0; 100000; 100000; 102000; 102000; 100000]%Z /\
  ~ does_not_oscillate (drop 1 (stored_history Sample.empty_world 1%N Sample.drift_lines)).
Proof.
  assert (Hhistory : stored_history Sample.empty_world 1%N Sample.drift_lines
                     = [0; 100000; 100000; 102000; 102000; 100000]%Z) by reflexivity.
  split; [| split; [| split; [exact Hhistory |]]].
  - repeat constructor; by eexists _, _.
  - simpl. repeat split; vm_compute; reflexivity.
  - rewrite Hhistory. simpl. intros [Hup | Hdown].
    + apply StronglySorted_cons in Hup as [_ Hup].
      apply StronglySorted_cons in Hup as [_ Hup].
      apply StronglySorted_cons in Hup as [Hle _].
      apply Forall_cons in Hle as [_ Hle]. apply Forall_cons in Hle as [Hle _]. lia.
    + apply StronglySorted_cons in Hdown as [Hge _].
      apply Forall_cons in Hge as [_ Hge]. apply Forall_cons in Hge as [Hge _]. lia.
Qed.

(** A reading two full seconds away from the stored connection time replaces
    it; a reading one tick closer does not. *)
Example PlayerStatus_two_seconds_boundary :
  stored_ConnectionTime
    (run_lines Sample.bob_connected
       [ServerStatusPlayerLine 10%Z (Sample.status 1%N "bob" 102000%Z)]) 1%N = 102000%Z /\
  stored_ConnectionTime
    (run_lines Sample.bob_connected
       [ServerStatusPlayerLine 10%Z (Sample.status 1%N "bob" 101999%Z)]) 1%N = 100000%Z.
Proof. split; reflexivity. Qed.

(** * Lobby member iteration *)

Section LobbyIteration.
Context {Team State : Type} `{!HeaderDecls Team State}.

Abbreviation Player := (PlayerExtraData.t State).
Abbreviation Table := (list (SteamID * PlayerExtraData.t State)).
Abbreviation World := (WorldState.t Team State).
Abbreviation Member := (LobbyMember.t Team).

(** A loop of the generator asks [GetPlayer] for the members it does not
    skip, in order, and stops at the first throw. *)
Lemma yield_members_filter (skip : Member -> bool) (P : Member -> Prop)
    `{!forall m, Decision (P m)} (tbl : Table) (members : list Member) :
  (forall m, skip m = false <-> P m) ->
  yield_members skip tbl members = lookup_all tbl (filter P members).
Proof.
  intros Hskip.
  induction members as [| member rest IH]; simpl; [reflexivity |].
  destruct (skip member) eqn:Hs.
  - rewrite filter_cons_False; [exact IH |].
    intros HP. apply Hskip in HP. congruence.
  - rewrite filter_cons_True by (by apply Hskip). simpl.
    destruct (GetPlayer tbl member); [| reflexivity].
    by rewrite IH.
Qed.

Lemma lookup_all_app (tbl : Table) (slots slots' : list Member) :
  lookup_all tbl (slots ++ slots') =
  match lookup_all tbl slots with
  | (first, Some what) => (first, Some what)
  | (first, None) =>
      let '(second, ended) := lookup_all tbl slots' in (first ++ second, ended)
  end.
Proof.
  induction slots as [| member rest IH]; simpl.
  - by destruct (lookup_all tbl slots').
  - destruct (GetPlayer tbl member); [| reflexivity].
    rewrite IH.
    destruct (lookup_all tbl rest) as [first [what |]]; [reflexivity |].
    by destruct (lookup_all tbl slots').
Qed.

(** [GetLobbyMembers] is [GetPlayer] over [looked_up_slots]. *)
Lemma GetLobbyMembers_lookup_all (w : World) :
  GetLobbyMembers w = lookup_all (WorldState.m_CurrentPlayerData w) (looked_up_slots w).
Proof.
  unfold GetLobbyMembers, looked_up_slots.
  rewrite lookup_all_app.
  rewrite (yield_members_filter _ (fun member => IsValid member = true)).
  2: { intros m. destruct (IsValid m); simpl; split; congruence. }
  rewrite (yield_members_filter _
             (fun member => IsValid member = true /\
                in_current (WorldState.m_CurrentLobbyMembers w) member = false)).
  2: { intros m. destruct (IsValid m); simpl; [tauto |].
       split; [discriminate | intros [? _]; discriminate]. }
  reflexivity.
Qed.

Lemma lookup_all_found (tbl : Table) (slots : list Member) :
  Forall (fun m => is_Some (table_find tbl (LobbyMember.m_SteamID m))) slots ->
  lookup_all tbl slots =
  (omap (fun m => table_find tbl (LobbyMember.m_SteamID m)) slots, None).
Proof.
  induction 1 as [| member rest [p Hp] _ IH]; simpl; [reflexivity |].
  unfold GetPlayer. rewrite Hp, IH. reflexivity.
Qed.

Lemma lookup_all_missing (tbl : Table) (pre post : list Member) (member : Member) :
  Forall (fun m => is_Some (table_find tbl (LobbyMember.m_SteamID m))) pre ->
  table_find tbl (LobbyMember.m_SteamID member) = None ->
  lookup_all tbl (pre ++ member :: post) =
  (omap (fun m => table_find tbl (LobbyMember.m_SteamID m)) pre,
   Some "Missing player for lobby member!").
Proof.
  intros Hpre Hmissing.
  rewrite lookup_all_app, (lookup_all_found _ _ Hpre). simpl.
  unfold GetPlayer. rewrite Hmissing. by rewrite app_nil_r.
Qed.

(** The first slot without a record, if there is one. *)
Lemma first_missing (tbl : Table) (slots : list Member) :
  Forall (fun m => is_Some (table_find tbl (LobbyMember.m_SteamID m))) slots \/
  exists pre member post,
    slots = pre ++ member :: post /\
    Forall (fun m => is_Some (table_find tbl (LobbyMember.m_SteamID m))) pre /\
    table_find tbl (LobbyMember.m_SteamID member) = None.
Proof.
  induction slots as [| m rest [Hall | (pre & member & post & -> & Hpre & Hnone)]].
  - left. constructor.
  - destruct (table_find tbl (LobbyMember.m_SteamID m)) as [p |] eqn:Hm.
    + left. constructor; [by rewrite Hm | exact Hall].
    + right. exists [], m, rest. repeat split; [constructor | exact Hm].
  - destruct (table_find tbl (LobbyMember.m_SteamID m)) as [p |] eqn:Hm.
    + right. exists (m :: pre), member, post.
      repeat split; [constructor; [by rewrite Hm | exact Hpre] | exact Hnone].
    + right. exists [], m, (pre ++ member :: post). repeat split; [constructor | exact Hm].
Qed.

(** C10. When the iteration reaches a slot whose identifier has no record in
    the player table, having found a record for every slot looked up before
    it, [GetLobbyMembers] has yielded the players of those earlier slots and
    ends there with the exception "Missing player for lobby member!": the
    slot is not skipped, nothing behind it is yielded, and no record is
    created.  Every valid confirmed slot is looked up, so a valid confirmed
    occupant without a record always ends the iteration with that exception.
    With a record for every slot looked up, the iteration yields them all
    and ends normally. *)
Theorem GetLobbyMembers_missing_player (w : World) :
  (forall pre member post,
     looked_up_slots w = pre ++ member :: post ->
     Forall (fun m => is_Some (FindPlayer w (LobbyMember.m_SteamID m))) pre ->
     FindPlayer w (LobbyMember.m_SteamID member) = None ->
     GetLobbyMembers w =
     (omap (fun m => FindPlayer w (LobbyMember.m_SteamID m)) pre,
      Some "Missing player for lobby member!")) /\
  (forall member,
     member ∈ WorldState.m_CurrentLobbyMembers w ->
     IsValid member = true ->
     FindPlayer w (LobbyMember.m_SteamID member) = None ->
     snd (GetLobbyMembers w) = Some "Missing player for lobby member!") /\
  (Forall (fun m => is_Some (FindPlayer w (LobbyMember.m_SteamID m))) (looked_up_slots w) ->
   GetLobbyMembers w =
   (omap (fun m => FindPlayer w (LobbyMember.m_SteamID m)) (looked_up_slots w), None)).
Proof.
  rewrite GetLobbyMembers_lookup_all. unfold FindPlayer.
  split; [| split].
  - intros pre member post -> Hpre Hmissing. by apply lookup_all_missing.
  - intros member Hin Hvalid Hmissing.
    destruct (first_missing (WorldState.m_CurrentPlayerData w) (looked_up_slots w))
      as [Hall | (pre & m & post & Hslots & Hpre & Hnone)].
    + exfalso.
      assert (Hlooked : member ∈ looked_up_slots w).
      { unfold looked_up_slots. apply elem_of_app. left.
        apply list_elem_of_filter. by split. }
      rewrite Forall_forall in Hall. apply Hall in Hlooked.
      rewrite Hmissing in Hlooked. by destruct Hlooked.
    + rewrite Hslots. by rewrite lookup_all_missing.
  - apply lookup_all_found.
Qed.

(** ** Identifiers of the yielded players *)

(** The identifiers of the yielded players are those of the slots looked
    up, in order, up to where the iteration ended. *)
Lemma lookup_all_identifiers (tbl : Table) (slots : list Member) :
  Forall (fun kp => GetSteamID (snd kp) = fst kp) tbl ->
  (exists n, map GetSteamID (fst (lookup_all tbl slots))
             = take n (map LobbyMember.m_SteamID slots)) /\
  (snd (lookup_all tbl slots) = None ->
   map GetSteamID (fst (lookup_all tbl slots)) = map LobbyMember.m_SteamID slots).
Proof.
  intros Hwf.
  induction slots as [| member rest [[n Hn] Hall]]; simpl.
  { split; [by exists 0 | reflexivity]. }
  unfold GetPlayer.
  destruct (table_find tbl (LobbyMember.m_SteamID member)) as [p |] eqn:Hfind.
  - apply (table_find_identifier _ _ _ Hwf) in Hfind.
    destruct (lookup_all tbl rest) as [more ended]; simpl in *.
    split.
    + exists (S n). simpl. by rewrite Hfind, Hn.
    + intros Hended. by rewrite Hfind, Hall.
  - simpl. split; [by exists 0 | discriminate].
Qed.

Lemma in_current_false (current : list Member) (member member2 : Member) :
  in_current current member = false ->
  member2 ∈ current ->
  LobbyMember.m_SteamID member <> LobbyMember.m_SteamID member2.
Proof.
  unfold in_current. intros Hnone Hin Heq.
  assert (Hsome : existsb
            (fun m2 => bool_decide (LobbyMember.m_SteamID member = LobbyMember.m_SteamID m2))
            current = true); [| congruence].
  apply existsb_exists. exists member2.
  split; [by apply list_elem_of_In | by apply bool_decide_eq_true_2].
Qed.

Lemma elem_of_map_filter_weaken {A B : Type} (f : A -> B) (P Q : A -> Prop)
    `{!forall x, Decision (P x)} `{!forall x, Decision (Q x)} (l : list A) (y : B) :
  (forall x, P x -> Q x) ->
  y ∈ map f (filter P l) -> y ∈ map f (filter Q l).
Proof.
  intros HPQ Hin.
  apply list_elem_of_In, in_map_iff in Hin as (x & <- & Hx).
  apply list_elem_of_In, list_elem_of_filter in Hx as [HP Hx].
  apply list_elem_of_In, in_map, list_elem_of_In, list_elem_of_filter. auto.
Qed.

Lemma NoDup_map_filter_weaken {A B : Type} (f : A -> B) (P Q : A -> Prop)
    `{!forall x, Decision (P x)} `{!forall x, Decision (Q x)} (l : list A) :
  (forall x, P x -> Q x) ->
  NoDup (map f (filter Q l)) -> NoDup (map f (filter P l)).
Proof.
  intros HPQ.
  induction l as [| x l IH]; [done |].
  rewrite !filter_cons.
  destruct (decide (P x)) as [HP | HnP]; destruct (decide (Q x)) as [HQ | HnQ]; simpl.
  - intros [Hnotin Hrest]%NoDup_cons. apply NoDup_cons. split; [| by apply IH].
    intros Hin. apply Hnotin. by apply (elem_of_map_filter_weaken f P Q).
  - exfalso. by apply HnQ, HPQ.
  - intros [_ Hrest]%NoDup_cons. by apply IH.
  - exact IH.
Qed.

(** C6, as the code has it.  [GetLobbyMembers] yields the players of the
    valid confirmed slots first, in slot order, then those of the valid
    pending slots whose identifier is not the identifier of any confirmed
    slot, up to the point where it ends.  So no pending entry that is
    yielded shares its identifier with a confirmed slot; and when the valid
    occupants of the confirmed vector have pairwise different identifiers
    and so do those of the pending vector, no two yielded entries share an
    identifier.  The table is one whose entries carry their keys as
    identifiers. *)
Theorem GetLobbyMembers_confirmed_then_new_pending (w : World) :
  Forall (fun kp => GetSteamID (snd kp) = fst kp) (WorldState.m_CurrentPlayerData w) ->
  let current := WorldState.m_CurrentLobbyMembers w in
  let confirmed := filter (fun member => IsValid member = true) current in
  let pending :=
    filter (fun member => IsValid member = true /\ in_current current member = false)
           (WorldState.m_PendingLobbyMembers w) in
  let ids := map GetSteamID (fst (GetLobbyMembers w)) in
  (exists n, ids = take n (map LobbyMember.m_SteamID (confirmed ++ pending))) /\
  (snd (GetLobbyMembers w) = None ->
   ids = map LobbyMember.m_SteamID (confirmed ++ pending)) /\
  (forall member member2,
     member ∈ pending -> member2 ∈ current ->
     LobbyMember.m_SteamID member <> LobbyMember.m_SteamID member2) /\
  (NoDup (map LobbyMember.m_SteamID confirmed) ->
   NoDup (map LobbyMember.m_SteamID
            (filter (fun member => IsValid member = true)
                    (WorldState.m_PendingLobbyMembers w))) ->
   NoDup ids).
Proof.
  intros Hwf. cbv zeta.
  rewrite GetLobbyMembers_lookup_all.
  destruct (lookup_all_identifiers _ (looked_up_slots w) Hwf) as [[n Hn] Hall].
  assert (Hfresh : forall member member2,
            member ∈ filter (fun member => IsValid member = true /\
                               in_current (WorldState.m_CurrentLobbyMembers w) member = false)
                            (WorldState.m_PendingLobbyMembers w) ->
            member2 ∈ WorldState.m_CurrentLobbyMembers w ->
            LobbyMember.m_SteamID member <> LobbyMember.m_SteamID member2).
  { intros member member2 [[_ Hnot] _]%list_elem_of_filter Hin2.
    by apply (in_current_false _ _ _ Hnot). }
  split; [by exists n |]. split; [exact Hall |]. split; [exact Hfresh |].
  intros Hconfirmed Hpending.
  rewrite Hn. eapply sublist_NoDup; [| apply sublist_take].
  unfold looked_up_slots. rewrite map_app. apply NoDup_app.
  split; [exact Hconfirmed |]. split.
  - intros id Hin1 Hin2.
    apply list_elem_of_In, in_map_iff in Hin1 as (c & <- & Hc).
    apply list_elem_of_In, in_map_iff in Hin2 as (m & Heq & Hm).
    apply list_elem_of_In, list_elem_of_filter in Hc as [_ Hc].
    apply list_elem_of_In in Hm.
    by apply (Hfresh m c Hm Hc).
  - revert Hpending. apply NoDup_map_filter_weaken. tauto.
Qed.

End LobbyIteration.

Lemma GetLobbyMembers_missing_player_witness :
  GetLobbyMembers Sample.lobby_missing_record =
  (omap (fun m => FindPlayer Sample.lobby_missing_record (LobbyMember.m_SteamID m))
        [Sample.member 5%N 0 false],
   Some "Missing player for lobby member!").
Proof.
  apply (proj1 (GetLobbyMembers_missing_player Sample.lobby_missing_record)
           [Sample.member 5%N 0 false] (Sample.member 6%N 1 true) []).
  - reflexivity.
  - constructor; [| constructor]. vm_compute. eauto.
  - reflexivity.
Defined.

Lemma GetLobbyMembers_confirmed_then_new_pending_witness :
  Forall (fun kp => GetSteamID (snd kp) = fst kp)
         (WorldState.m_CurrentPlayerData Sample.lobby_with_pending) /\
  NoDup (map GetSteamID (fst (GetLobbyMembers Sample.lobby_with_pending))).
Proof.
  assert (Hwf : Forall (fun kp => GetSteamID (snd kp) = fst kp)
                       (WorldState.m_CurrentPlayerData Sample.lobby_with_pending))
    by (vm_compute; repeat constructor).
  split; [exact Hwf |].
  apply (GetLobbyMembers_confirmed_then_new_pending Sample.lobby_with_pending Hwf).
  - apply (bool_decide_unpack _). vm_compute. exact I.
  - apply (bool_decide_unpack _). vm_compute. exact I.
Defined.

(** C6, as stated, fails.  While a new lobby listing is being read, a
    member that has moved to another index occupies two confirmed slots; the
    iteration then ends normally after yielding that member's record
    twice. *)
Lemma GetLobbyMembers_yields_identifier_twice :
  map GetSteamID (fst (GetLobbyMembers Sample.same_member_twice)) = [5%N; 5%N] /\
  snd (GetLobbyMembers Sample.same_member_twice) = None /\
  ~ NoDup (map GetSteamID (fst (GetLobbyMembers Sample.same_member_twice))).
Proof.
  assert (Hids : map GetSteamID (fst (GetLobbyMembers Sample.same_member_twice))
                 = [5%N; 5%N]) by reflexivity.
  split; [exact Hids |]. split; [reflexivity |].
  rewrite Hids. intros [Hnotin _]%NoDup_cons.
  apply Hnotin, elem_of_cons. by left.
Qed.

(** * Batches for the Steam API *)

Lemma Take100_loop_spec (collection retVal : list SteamID) :
  Take100_loop collection retVal = retVal ++ take (100 - length retVal) collection.
Proof.
  revert retVal.
  induction collection as [| id rest IH]; intros retVal; simpl.
  - rewrite take_nil. by rewrite app_nil_r.
  - case_bool_decide as Hfull.
    + replace (100 - length retVal) with 0 by lia. by rewrite app_nil_r.
    + rewrite IH, length_app. simpl.
      replace (100 - length retVal) with (S (100 - (length retVal + 1))) by lia.
      simpl. by rewrite <- app_assoc.
Qed.

(** [Take100] returns the first hundred identifiers of the collection, in
    its iteration order, or all of them when there are fewer. *)
Lemma Take100_spec (collection : list SteamID) :
  Take100 collection = take 100 collection.
Proof. unfold Take100. by rewrite Take100_loop_spec. Qed.

(** With a client and a key the request is made. *)
Lemma SendRequest_sent (settings : Settings.t) (collection : list SteamID) :
  Settings.m_HTTPClient settings = true ->
  Settings.m_SteamAPIKey settings <> EmptyString ->
  SendRequest settings collection = (Some (Take100 collection), collection).
Proof.
  intros Hclient Hkey. unfold SendRequest.
  rewrite Hclient. simpl. by rewrite bool_decide_eq_false_2 by exact Hkey.
Qed.

(** The pending identifiers are those that were enqueued. *)
Lemma elem_of_enqueue_all (ids : list SteamID) (id : SteamID) :
  id ∈ enqueue_all ids <-> id ∈ ids.
Proof.
  unfold enqueue_all.
  assert (Hgen : forall pending : gset SteamID,
            id ∈ foldl Queue pending ids <-> id ∈ pending \/ id ∈ ids).
  { induction ids as [| first rest IH]; intros pending; simpl.
    - rewrite elem_of_nil. tauto.
    - rewrite IH. unfold Queue. rewrite elem_of_union, elem_of_singleton, elem_of_cons. tauto. }
  rewrite Hgen, elem_of_empty. tauto.
Qed.

(** A set that keeps its elements sorted lists each of them once. *)
Lemma ascending_iteration_order : iteration_order ascending.
Proof.
  intros collection. unfold ascending. split.
  - rewrite merge_sort_Permutation. apply NoDup_elements.
  - intros id. rewrite merge_sort_Permutation. apply elem_of_elements.
Qed.

(** An iteration lists as many identifiers as the set holds. *)
Lemma iteration_order_length (iteration : gset SteamID -> list SteamID)
    (collection : gset SteamID) :
  iteration_order iteration -> length (iteration collection) = size collection.
Proof.
  intros Horder. destruct (Horder collection) as [Hnodup Helems].
  unfold size, set_size. simpl. apply Permutation_length.
  apply NoDup_Permutation; [exact Hnodup | apply NoDup_elements |].
  intros id. by rewrite Helems, elem_of_elements.
Qed.

(** C7, as the code has it.  [SendRequest] leaves the collection as it got
    it.  When there is an HTTP client and an API key, the request carries the
    first hundred identifiers of the collection in its iteration order, all
    of them if there are fewer, hence at most a hundred; without a client or
    without a key no request is made.  Every identifier behind the first
    hundred is still in the collection afterwards.  For a pending set,
    whatever the order it iterates in: the identifiers of the request are
    pending, no two are the same, there are a hundred of them or, if fewer
    are pending, as many as are pending, and a pending identifier that is
    not in the request stands behind the first hundred of the iteration. *)
Theorem SendRequest_takes_first_hundred (settings : Settings.t) (collection : list SteamID) :
  snd (SendRequest settings collection) = collection /\
  (forall ids,
     fst (SendRequest settings collection) = Some ids ->
     ids = take 100 collection /\
     length ids <= 100 /\
     (100 < length collection -> length ids = 100) /\
     collection = ids ++ drop 100 collection /\
     (forall id, id ∈ drop 100 collection -> id ∈ snd (SendRequest settings collection))) /\
  (Settings.m_HTTPClient settings = true ->
   Settings.m_SteamAPIKey settings <> EmptyString ->
   fst (SendRequest settings collection) = Some (take 100 collection)) /\
  (Settings.m_HTTPClient settings = false \/ Settings.m_SteamAPIKey settings = EmptyString ->
   fst (SendRequest settings collection) = None) /\
  (forall (iteration : gset SteamID -> list SteamID) (pending : gset SteamID),
     iteration_order iteration ->
     collection = iteration pending ->
     forall ids,
       fst (SendRequest settings collection) = Some ids ->
       NoDup ids /\
       (forall id, id ∈ ids -> id ∈ pending) /\
       length ids = min 100 (size pending) /\
       (forall id, id ∈ pending -> id ∉ ids -> id ∈ drop 100 collection)).
Proof.
  assert (Hkeep : snd (SendRequest settings collection) = collection).
  { unfold SendRequest.
    destruct (negb _); [reflexivity |]. by destruct (bool_decide _). }
  assert (Htaken : forall ids,
            fst (SendRequest settings collection) = Some ids -> ids = take 100 collection).
  { intros ids Hsent. unfold SendRequest in Hsent.
    destruct (negb _); [discriminate |].
    destruct (bool_decide _); [discriminate |].
    simpl in Hsent. injection Hsent as <-. apply Take100_spec. }
  split; [exact Hkeep |]. split; [| split; [| split]].
  - intros ids Hsent. rewrite (Htaken ids Hsent), Hkeep.
    split; [reflexivity |]. split; [rewrite length_take; lia |].
    split; [intros Hmore; rewrite length_take; lia |].
    split; [by rewrite take_drop |].
    intros id Hin. rewrite <- (take_drop 100 collection). apply elem_of_app. by right.
  - intros Hclient Hkey.
    by rewrite (SendRequest_sent _ _ Hclient Hkey), Take100_spec.
  - intros [Hclient | Hkey]; unfold SendRequest.
    + by rewrite Hclient.
    + destruct (negb _); [reflexivity |]. by rewrite bool_decide_eq_true_2.
  - intros iteration pending Horder -> ids Hsent.
    rewrite (Htaken ids Hsent).
    destruct (Horder pending) as [Hnodup Helems].
    split; [| split; [| split]].
    + eapply sublist_NoDup; [exact Hnodup | apply sublist_take].
    + intros id Hin. apply Helems.
      rewrite <- (take_drop 100 (iteration pending)). apply elem_of_app. by left.
    + by rewrite length_take, (iteration_order_length iteration pending Horder).
    + intros id Hpending Hnot. apply Helems in Hpending.
      rewrite <- (take_drop 100 (iteration pending)) in Hpending.
      apply elem_of_app in Hpending as [Hin | Hin]; [contradiction | exact Hin].
Qed.

Lemma SendRequest_takes_first_hundred_witness :
  fst (SendRequest Sample.settings (ascending (enqueue_all (N.of_nat <$> seq 1 250))))
  = Some (N.of_nat <$> seq 1 100) /\
  snd (SendRequest Sample.settings (ascending (enqueue_all (N.of_nat <$> seq 1 250))))
  = ascending (enqueue_all (N.of_nat <$> seq 1 250)).
Proof.
  pose proof (SendRequest_takes_first_hundred Sample.settings
                (ascending (enqueue_all (N.of_nat <$> seq 1 250))))
    as (Hkeep & _ & Hsent & _).
  split; [| exact Hkeep].
  rewrite Hsent; [| reflexivity | discriminate].
  vm_compute. reflexivity.
Defined.

(** C7, as stated, fails.  In a set that keeps its elements sorted by
    identifier, after enqueuing the identifier 101 and then 1 to 100, the
    request carries 1 to 100 and leaves out 101, which was enqueued first.
    And whatever the order a set iterates in, there are enqueuing orders of
    101 identifiers for which the request does not carry the hundred
    enqueued first: the identifier the iteration reaches last may have been
    the first to be enqueued. *)
Lemma SendRequest_not_oldest_first :
  (fst (SendRequest Sample.settings
          (ascending (enqueue_all (101%N :: (N.of_nat <$> seq 1 100)))))
   = Some (N.of_nat <$> seq 1 100) /\
   (101%N ∉ (N.of_nat <$> seq 1 100)) /\
   ~ oldest_enqueued_first ascending (101%N :: (N.of_nat <$> seq 1 100))) /\
  (forall iteration : gset SteamID -> list SteamID,
     iteration_order iteration ->
     exists enqueued : list SteamID,
       NoDup enqueued /\ length enqueued = 101 /\
       ~ oldest_enqueued_first iteration enqueued).
Proof.
  split.
  - assert (Hsent : Take100 (ascending (enqueue_all (101%N :: (N.of_nat <$> seq 1 100))))
                    = N.of_nat <$> seq 1 100) by (vm_compute; reflexivity).
    assert (Hnot : 101%N ∉ (N.of_nat <$> seq 1 100)).
    { intros Hin. apply list_elem_of_fmap in Hin as (n & Hn & Hin).
      apply elem_of_seq in Hin. lia. }
    split; [| split; [exact Hnot |]].
    + rewrite SendRequest_sent by done. cbn [fst]. by rewrite Hsent.
    + intros Hold. apply Hnot. rewrite <- Hsent.
      apply Hold; [cbn [length]; rewrite length_fmap, length_seq; lia |].
      simpl. by left.
  - intros iteration Horder.
    set (pending := (list_to_set (N.of_nat <$> seq 1 101) : gset SteamID)).
    destruct (Horder pending) as [Hnodup Helems].
    assert (Hlen : length (iteration pending) = 101).
    { transitivity (length (N.of_nat <$> seq 1 101));
        [| by rewrite length_fmap, length_seq].
      apply Permutation_length, NoDup_Permutation; [exact Hnodup | |].
      - apply NoDup_fmap; [intros x y; apply Nat2N.inj | apply NoDup_seq].
      - intros id. rewrite Helems. subst pending. by rewrite elem_of_list_to_set. }
    destruct (lookup_lt_is_Some_2 (iteration pending) 100) as [last Hlast]; [lia |].
    assert (Hsplit : iteration pending = take 100 (iteration pending) ++ [last]).
    { rewrite <- (take_drop 100 (iteration pending)) at 1. f_equal.
      rewrite (drop_S _ _ _ Hlast). f_equal. apply drop_ge. lia. }
    assert (Hfresh : last ∉ take 100 (iteration pending)).
    { rewrite Hsplit in Hnodup. apply NoDup_app in Hnodup as (_ & Hdisjoint & _).
      intros Hin. apply (Hdisjoint last Hin). by left. }
    exists (last :: take 100 (iteration pending)).
    split; [| split].
    + apply NoDup_cons. split; [exact Hfresh |].
      eapply sublist_NoDup; [exact Hnodup | apply sublist_take].
    + simpl. rewrite length_take. lia.
    + intros Hold.
      assert (Hsame : enqueue_all (last :: take 100 (iteration pending)) = pending).
      { apply set_eq. intros id. rewrite elem_of_enqueue_all, <- Helems.
        rewrite Hsplit at 2. rewrite elem_of_cons, elem_of_app, list_elem_of_singleton. tauto. }
      unfold oldest_enqueued_first in Hold. rewrite Hsame, Take100_spec in Hold.
      apply Hfresh, Hold; [simpl; rewrite length_take; lia |].
      simpl. by left.
Qed.

(** * Recent players *)

Section RecentPlayers.
Context {Team State : Type} `{!HeaderDecls Team State}.

Abbreviation Player := (PlayerExtraData.t State).
Abbreviation Table := (list (SteamID * PlayerExtraData.t State)).

Lemma not_later_le (x y : Player) :
  not_later x y <-> (GetLastStatusUpdateTime y <= GetLastStatusUpdateTime x)%Z.
Proof. unfold not_later, more_recent. rewrite Z.ltb_ge. reflexivity. Qed.

Lemma StronglySorted_weaken {A : Type} (R R' : A -> A -> Prop) (l : list A) :
  (forall x y, R x y -> R' x y) ->
  StronglySorted R l -> StronglySorted R' l.
Proof.
  intros Himpl.
  induction 1 as [| x rest _ IH Hx]; constructor; [exact IH |].
  eapply Forall_impl; [exact Hx | auto].
Qed.

Lemma stable_insert_Permutation (p : Player) (sorted : list Player) :
  Permutation (p :: sorted) (stable_insert p sorted).
Proof.
  induction sorted as [| q rest IH]; simpl; [reflexivity |].
  destruct (more_recent p q); [reflexivity |].
  rewrite perm_swap. by apply perm_skip.
Qed.

Lemma stable_insert_Forall (P : Player -> Prop) (p : Player) (sorted : list Player) :
  P p -> Forall P sorted -> Forall P (stable_insert p sorted).
Proof.
  intros Hp Hall.
  apply (Permutation_Forall (stable_insert_Permutation p sorted)).
  by constructor.
Qed.

Lemma stable_insert_sorted (p : Player) (sorted : list Player) :
  StronglySorted not_later sorted ->
  StronglySorted not_later (stable_insert p sorted).
Proof.
  induction 1 as [| q rest Hsorted IH Hq]; simpl.
  - repeat constructor.
  - destruct (more_recent p q) eqn:Hpq.
    + constructor; [by constructor |].
      apply Z.ltb_lt in Hpq.
      constructor.
      * apply not_later_le. lia.
      * eapply Forall_impl; [exact Hq |].
        intros r Hr. apply not_later_le. apply not_later_le in Hr. lia.
    + constructor; [exact IH |].
      by apply stable_insert_Forall.
Qed.

Lemma stable_sort_recent_spec (players : list Player) :
  std_sort_result more_recent players (stable_sort_recent players).
Proof.
  unfold std_sort_result, stable_sort_recent.
  assert (Hgen : forall acc,
            StronglySorted not_later acc ->
            Permutation (acc ++ players) (foldl (fun acc p => stable_insert p acc) acc players) /\
            StronglySorted not_later (foldl (fun acc p => stable_insert p acc) acc players)).
  { induction players as [| p rest IH]; intros acc Hacc; simpl.
    - by rewrite app_nil_r.
    - destruct (IH (stable_insert p acc) (stable_insert_sorted p acc Hacc)) as [Hperm Hsorted].
      split; [| exact Hsorted].
      rewrite <- Hperm, <- stable_insert_Permutation. simpl.
      symmetry. apply Permutation_middle. }
  apply (Hgen []). constructor.
Qed.

(** C8, as the code has it.  The query returns some list: the players
    sorted by descending last status update and cut down to the requested
    count.  Every list it may return is sorted that way, has the requested
    count of entries or, if the table has fewer, as many as the table, and
    holds most recent entries of the table: every entry left out was updated
    no later than every entry returned.  The order among players whose
    updates coincide is whatever [std::sort] leaves. *)
Theorem GetRecentPlayers_sorted_truncated (tbl : Table) (recentPlayerCount : nat) :
  (exists result, GetRecentPlayersImpl tbl recentPlayerCount result) /\
  (forall result,
     GetRecentPlayersImpl tbl recentPlayerCount result ->
     StronglySorted
       (fun x y => (GetLastStatusUpdateTime y <= GetLastStatusUpdateTime x)%Z) result /\
     length result = min recentPlayerCount (length tbl) /\
     exists left_out,
       Permutation (map snd tbl) (result ++ left_out) /\
       forall x y, x ∈ result -> y ∈ left_out ->
                   (GetLastStatusUpdateTime y <= GetLastStatusUpdateTime x)%Z).
Proof.
  split.
  - eexists. exists (stable_sort_recent (map snd tbl)).
    split; [apply stable_sort_recent_spec | reflexivity].
  - intros result (retVal & [Hperm Hsorted] & ->).
    assert (Hcut : (if bool_decide (recentPlayerCount < length retVal)
                    then take recentPlayerCount retVal else retVal)
                   = take recentPlayerCount retVal).
    { case_bool_decide; [reflexivity |]. rewrite take_ge; [reflexivity | lia]. }
    rewrite Hcut.
    rewrite <- (take_drop recentPlayerCount retVal) in Hsorted.
    split; [| split].
    + apply StronglySorted_app_1_l in Hsorted.
      eapply StronglySorted_weaken; [| exact Hsorted].
      intros x y Hxy. by apply not_later_le.
    + rewrite length_take, <- (Permutation_length Hperm), length_map. reflexivity.
    + exists (drop recentPlayerCount retVal).
      split; [by rewrite take_drop |].
      intros x y Hx Hy. apply not_later_le.
      exact (StronglySorted_app_1_elem_of _ _ _ _ _ Hsorted Hx Hy).
Qed.

(** When no two players were updated at the same time, the result is
    determined: it is the stable order, cut down. *)
Lemma GetRecentPlayers_distinct_times (tbl : Table) (recentPlayerCount : nat)
    (result : list Player) :
  (forall p q, p ∈ map snd tbl -> q ∈ map snd tbl ->
               GetLastStatusUpdateTime p = GetLastStatusUpdateTime q -> p = q) ->
  GetRecentPlayersImpl tbl recentPlayerCount result ->
  result = take recentPlayerCount (stable_sort_recent (map snd tbl)).
Proof.
  intros Hdistinct (retVal & [Hperm Hsorted] & ->).
  destruct (stable_sort_recent_spec (map snd tbl)) as [Hperm' Hsorted'].
  assert (HretVal : retVal = stable_sort_recent (map snd tbl)).
  { apply (StronglySorted_unique_strong not_later); [| exact Hsorted | exact Hsorted' |].
    - intros x y Hx Hy Hxy Hyx.
      apply Hdistinct; [by rewrite Hperm | by rewrite Hperm' |].
      apply not_later_le in Hxy, Hyx. lia.
    - by rewrite <- Hperm. }
  rewrite HretVal.
  case_bool_decide; [reflexivity |]. rewrite take_ge; [reflexivity | lia].
Qed.

End RecentPlayers.

Lemma GetRecentPlayers_sorted_truncated_witness :
  GetRecentPlayersImpl Sample.three_players 2
    (map snd (take 2 (drop 1 Sample.three_players))) /\
  length (map snd (take 2 (drop 1 Sample.three_players)))
  = min 2 (length Sample.three_players).
Proof.
  assert (Hresult : GetRecentPlayersImpl Sample.three_players 2
                      (map snd (take 2 (drop 1 Sample.three_players)))).
  { exists (map snd (drop 1 Sample.three_players ++ take 1 Sample.three_players)).
    split; [| reflexivity]. split.
    - apply (Permutation_cons_append (map snd (drop 1 Sample.three_players))).
    - repeat constructor. }
  split; [exact Hresult |].
  apply (proj2 (GetRecentPlayers_sorted_truncated Sample.three_players 2) _ Hresult).
Defined.

(** C8, as stated, fails.  For two players whose last status updates
    coincide, [std::sort] may leave them in either order: the query may
    return them in the order opposite to the one a stable sort gives. *)
Lemma GetRecentPlayers_tie_order_open :
  GetRecentPlayersImpl (WorldState.m_CurrentPlayerData Sample.bob_twice) 2
    [Sample.bob_second; Sample.bob_first] /\
  take 2 (stable_sort_recent (map snd (WorldState.m_CurrentPlayerData Sample.bob_twice)))
  = [Sample.bob_first; Sample.bob_second] /\
  [Sample.bob_second; Sample.bob_first] <> [Sample.bob_first; Sample.bob_second].
Proof.
  split; [| split].
  - exists [Sample.bob_second; Sample.bob_first].
    split; [| reflexivity]. split.
    + apply perm_swap.
    + repeat constructor.
  - reflexivity.
  - discriminate.
Qed.

(** On three players updated at different times the query returns the two
    most recent, latest first, and nothing else. *)
Example GetRecentPlayers_three_players (result : list (PlayerExtraData.t Sample.state)) :
  GetRecentPlayersImpl Sample.three_players 2 result ->
  map GetSteamID result = [2%N; 3%N].
Proof.
  intros Hresult.
  rewrite (GetRecentPlayers_distinct_times Sample.three_players 2 result); [reflexivity | | exact Hresult].
  intros p q Hp Hq Htime. simpl in Hp, Hq. set_unfold.
  destruct Hp as [-> | [-> | [-> | []]]], Hq as [-> | [-> | [-> | []]]];
    try reflexivity; discriminate.
Qed.

(** * Line ingestion *)

Lemma find_char_None (ch : ascii) (s : list ascii) :
  find_char ch s = None <-> ch ∉ s.
Proof.
  induction s as [| c rest IH]; simpl.
  - split; [intros _ Hin; inversion Hin | reflexivity].
  - destruct (bool_decide_reflect (c = ch)) as [-> | Hne].
    + split; [discriminate |]. intros Hnotin. exfalso. apply Hnotin. by left.
    + rewrite not_elem_of_cons.
      destruct (find_char ch rest); simpl.
      * split; [discriminate |]. intros [_ Hnotin]. by apply IH in Hnotin.
      * split; [| reflexivity]. intros _. split; [congruence | by apply IH].
Qed.

Lemma find_char_Some (ch : ascii) (s : list ascii) (j : nat) :
  find_char ch s = Some j ->
  s = take j s ++ ch :: drop (S j) s /\ ch ∉ take j s.
Proof.
  revert j.
  induction s as [| c rest IH]; intros j; simpl; [discriminate |].
  destruct (bool_decide_reflect (c = ch)) as [-> | Hne].
  - intros [= <-]. simpl. split; [by rewrite drop_0 | intros Hin; inversion Hin].
  - destruct (find_char ch rest) as [i |]; simpl; [| discriminate].
    intros [= <-]. destruct (IH i eq_refl) as [Hsplit Hnotin]. simpl.
    split; [by rewrite <- Hsplit |].
    rewrite not_elem_of_cons. split; [congruence | exact Hnotin].
Qed.

Lemma split_lines_cons (c : ascii) (rest : list ascii) :
  split_lines (c :: rest) =
  let '(lines, tail) := split_lines rest in
  if bool_decide (c = LF) then ([] :: lines, tail)
  else
    match lines with
    | [] => ([], c :: tail)
    | line :: more => ((c :: line) :: more, tail)
    end.
Proof. reflexivity. Qed.

Lemma split_lines_no_LF (s : list ascii) :
  LF ∉ s -> split_lines s = ([], s).
Proof.
  induction s as [| c rest IH]; [reflexivity |].
  rewrite not_elem_of_cons. intros [Hne Hnotin].
  rewrite split_lines_cons, (IH Hnotin).
  by rewrite bool_decide_eq_false_2 by congruence.
Qed.

Lemma split_lines_first_line (line rest : list ascii) :
  LF ∉ line ->
  split_lines (line ++ LF :: rest) =
  (line :: fst (split_lines rest), snd (split_lines rest)).
Proof.
  induction line as [| c line IH].
  - intros _. rewrite app_nil_l, split_lines_cons.
    destruct (split_lines rest). by rewrite bool_decide_eq_true_2.
  - rewrite not_elem_of_cons. intros [Hne Hnotin].
    rewrite <- app_comm_cons, split_lines_cons, (IH Hnotin).
    by rewrite bool_decide_eq_false_2 by congruence.
Qed.

(** A chunk is its complete lines, each followed by its line feed, and then
    the text behind the last line feed; neither a line nor that text holds
    a line feed. *)
Lemma split_lines_spec (chunk : list ascii) :
  chunk = join_lines (fst (split_lines chunk)) ++ snd (split_lines chunk) /\
  Forall (fun line => LF ∉ line) (fst (split_lines chunk)) /\
  LF ∉ snd (split_lines chunk).
Proof.
  induction chunk as [| c rest (Hjoin & Hlines & Htail)].
  { repeat split; [constructor | intros Hin; inversion Hin]. }
  rewrite split_lines_cons.
  destruct (split_lines rest) as [lines tail]; simpl in Hjoin, Hlines, Htail.
  destruct (bool_decide_reflect (c = LF)) as [-> | Hne]; simpl.
  - repeat split; [by rewrite Hjoin at 1 | | exact Htail].
    constructor; [intros Hin; inversion Hin | exact Hlines].
  - destruct lines as [| line more]; simpl in *.
    + repeat split; [by rewrite Hjoin at 1 | constructor |].
      rewrite not_elem_of_cons. split; [congruence | exact Htail].
    + repeat split; [by rewrite Hjoin at 1 | | exact Htail].
      inversion Hlines as [| ? ? Hline Hmore]; subst.
      constructor; [| exact Hmore].
      rewrite not_elem_of_cons. split; [congruence | exact Hline].
Qed.

(** The decomposition is the only one of its kind. *)
Lemma split_lines_unique (lines : list (list ascii)) (tail : list ascii) :
  Forall (fun line => LF ∉ line) lines ->
  LF ∉ tail ->
  split_lines (join_lines lines ++ tail) = (lines, tail).
Proof.
  intros Hlines Htail.
  induction Hlines as [| line more Hline _ IH]; simpl.
  - by apply split_lines_no_LF.
  - unfold join_lines in *. simpl. rewrite <- !app_assoc. simpl.
    rewrite (split_lines_first_line _ _ Hline), IH. reflexivity.
Qed.

Section IngestionFacts.
Context {Team State : Type} `{!HeaderDecls Team State}.
Variable ParseConsoleLine : list ascii -> time_point_t -> option (IConsoleLine Team State).
Variable listeners : list Listener.

Abbreviation World := (WorldState.t Team State).

(** The loop of [AddConsoleOutputChunk] hands the complete lines behind
    [last] to [AddConsoleOutputLine], given one turn per character left and
    one more. *)
Lemma AddConsoleOutputChunk_loop_lines (fuel : nat) (w : World) (chunk : list ascii) (last : nat) :
  length (drop last chunk) < fuel ->
  AddConsoleOutputChunk_loop ParseConsoleLine listeners fuel w chunk last =
  dispatch_lines ParseConsoleLine listeners w (fst (split_lines (drop last chunk))).
Proof.
  revert w last.
  induction fuel as [| fuel IH]; intros w last Hfuel; [lia |].
  simpl. unfold sv_find.
  destruct (find_char LF (drop last chunk)) as [j |] eqn:Hfind; simpl.
  - destruct (find_char_Some _ _ _ Hfind) as [Hsplit Hnotin].
    replace (last + j - last) with j by lia.
    unfold sv_substr.
    assert (Hlines : fst (split_lines (drop last chunk)) =
                     take j (drop last chunk)
                     :: fst (split_lines (drop (S j) (drop last chunk)))).
    { rewrite Hsplit at 1. by rewrite (split_lines_first_line _ _ Hnotin). }
    rewrite Hlines. simpl.
    destruct (AddConsoleOutputLine ParseConsoleLine listeners w (take j (drop last chunk)))
      as [w1 out1].
    rewrite drop_drop.
    replace (last + S j) with (last + j + 1) by lia.
    rewrite IH; [reflexivity |].
    rewrite Hsplit, length_app in Hfuel. simpl in Hfuel.
    rewrite drop_drop in Hfuel.
    replace (last + S j) with (last + j + 1) in Hfuel by lia. lia.
  - apply find_char_None in Hfind. by rewrite (split_lines_no_LF _ Hfind).
Qed.

(** No line changes the current timestamp, which [UpdateTimestamp] sets. *)
Lemma OnConsoleLineParsed_timestamp (w : World) (parsed : IConsoleLine Team State) :
  WorldState.m_CurrentTimestamp (fst (OnConsoleLineParsed w parsed))
  = WorldState.m_CurrentTimestamp w.
Proof.
  assert (Hplayer : forall (v : World) id change,
            WorldState.m_CurrentTimestamp (with_player v id change)
            = WorldState.m_CurrentTimestamp v).
  { intros v id change. unfold with_player.
    by destruct (FindOrCreatePlayer (WorldState.m_CurrentPlayerData v) id). }
  unfold OnConsoleLineParsed, OnConfigExecLineParsed.
  destruct parsed as [mc pc | | changeType | | | | name msg | name reason | cfg | member
                     | ts name ping | ts status | name idx | attacker victim | type |]; simpl;
    rewrite ?Hplayer;
    repeat match goal with
           | |- context [FindOrCreatePlayer ?t ?i] => destruct (FindOrCreatePlayer t i)
           | |- context [match ?x with _ => _ end] => destruct x
           | |- context [if ?x then _ else _] => destruct x
           end; rewrite ?Hplayer; reflexivity.
Qed.

Lemma notify_parsed_deliveries (ls : list Listener) (w : World)
    (parsed : IConsoleLine Team State) :
  snd (notify_parsed ls w parsed) = map (fun listener => LineParsed listener parsed) ls /\
  WorldState.m_CurrentTimestamp (fst (notify_parsed ls w parsed))
  = WorldState.m_CurrentTimestamp w.
Proof.
  revert w.
  induction ls as [| listener rest IH]; intros w; simpl; [done |].
  set (w1 := match listener with
             | TheWorldState => fst (OnConsoleLineParsed w parsed)
             | OtherListener _ => w
             end).
  assert (Hts : WorldState.m_CurrentTimestamp w1 = WorldState.m_CurrentTimestamp w).
  { subst w1. destruct listener; [| reflexivity]. apply OnConsoleLineParsed_timestamp. }
  destruct (IH w1) as [Hout Hts'].
  destruct (notify_parsed rest w1 parsed) as [w2 out]. simpl in *.
  split; [by rewrite Hout | by rewrite Hts', Hts].
Qed.

(** What one call of [AddConsoleOutputLine] lets out: the parser is handed
    the line, then every listener is handed either the parsed line or the
    text of the line. *)
Lemma AddConsoleOutputLine_deliveries (w : World) (line : list ascii) :
  let now := WorldState.m_CurrentTimestamp w in
  snd (AddConsoleOutputLine ParseConsoleLine listeners w line) =
    ParseCall line now ::
    match ParseConsoleLine line now with
    | Some parsed => map (fun listener => LineParsed listener parsed) listeners
    | None => map (fun listener => LineUnparsed listener line) listeners
    end /\
  WorldState.m_CurrentTimestamp (fst (AddConsoleOutputLine ParseConsoleLine listeners w line))
  = now.
Proof.
  cbv zeta. unfold AddConsoleOutputLine.
  destruct (ParseConsoleLine line (WorldState.m_CurrentTimestamp w)) as [parsed |]; [| done].
  destruct (notify_parsed_deliveries listeners w parsed) as [Hout Hts].
  destruct (notify_parsed listeners w parsed) as [w1 out]. simpl in *.
  by rewrite Hout, Hts.
Qed.

Lemma parser_inputs_listener_calls (ls : list Listener)
    (call : Listener -> Delivery Team State) :
  (forall listener, match call listener with ParseCall _ _ => False | _ => True end) ->
  parser_inputs (map call ls) = [].
Proof.
  intros Hcall. unfold parser_inputs.
  induction ls as [| listener rest IH]; simpl; [reflexivity |].
  specialize (Hcall listener). destruct (call listener); [contradiction | exact IH ..].
Qed.

(** Over a list of lines, what is let out is what each line lets out, one
    line after another; the timestamp handed to the parser stays the same. *)
Lemma dispatch_lines_deliveries (lines : list (list ascii)) (w : World) :
  let now := WorldState.m_CurrentTimestamp w in
  snd (dispatch_lines ParseConsoleLine listeners w lines)
  = concat (map (fun line =>
                   ParseCall line now ::
                   match ParseConsoleLine line now with
                   | Some parsed => map (fun listener => LineParsed listener parsed) listeners
                   | None => map (fun listener => LineUnparsed listener line) listeners
                   end) lines).
Proof.
  cbv zeta. revert w.
  induction lines as [| line rest IH]; intros w; simpl; [reflexivity |].
  destruct (AddConsoleOutputLine_deliveries w line) as [Hout1 Hts1]. cbv zeta in Hout1, Hts1.
  destruct (AddConsoleOutputLine ParseConsoleLine listeners w line) as [w1 out1].
  simpl in Hout1, Hts1.
  specialize (IH w1).
  destruct (dispatch_lines ParseConsoleLine listeners w1 rest) as [w2 out2].
  simpl in *. by rewrite IH, Hts1, Hout1.
Qed.

Lemma elem_of_concat_map {A B : Type} (f : A -> list B) (l : list A) (y : B) :
  y ∈ concat (map f l) <-> exists x, x ∈ l /\ y ∈ f x.
Proof.
  induction l as [| a l IH]; simpl.
  - split; [intros Hin; inversion Hin | intros (x & Hx & _); inversion Hx].
  - rewrite elem_of_app, IH. split.
    + intros [Hin | (x & Hx & Hin)]; [exists a | exists x]; split; try done;
        [by left | by right].
    + intros (x & [-> | Hx]%elem_of_cons & Hin); [by left | right; by exists x].
Qed.

Lemma elem_of_map_listeners {D : Type} (call : Listener -> D) (d : D) (ls : list Listener) :
  d ∈ map call ls <-> exists listener, listener ∈ ls /\ d = call listener.
Proof.
  induction ls as [| l ls IH]; simpl.
  - split; [intros Hin; inversion Hin | intros (x & Hx & _); inversion Hx].
  - rewrite elem_of_cons, IH. split.
    + intros [-> | (x & Hx & ->)]; [exists l | exists x]; split; try done;
        [by left | by right].
    + intros (x & [-> | Hx]%elem_of_cons & ->); [by left | right; by exists x].
Qed.

(** C9.  A chunk falls into its complete lines, each ended by a line feed,
    and the text behind the last line feed.  [AddConsoleOutputChunk] hands
    exactly the complete lines, without their line feeds and in order, to the
    parser, each with the current timestamp, and after each call of the
    parser every registered listener is handed the parsed line or, when the
    line did not parse, its text: the calls that leave the function are
    these, in this order, and no others.  So the parser is called on the
    complete lines and on nothing else; a listener receives a text exactly
    when the text is a complete line that does not parse, and a parsed line
    exactly when a complete line parses to it.  The text behind the last line
    feed reaches neither the parser nor a listener; a chunk without a line
    feed has no effect at all. *)
Theorem AddConsoleOutputChunk_complete_lines_only (w : World) (chunk : list ascii) :
  let lines := fst (split_lines chunk) in
  let tail := snd (split_lines chunk) in
  let now := WorldState.m_CurrentTimestamp w in
  let out := snd (AddConsoleOutputChunk ParseConsoleLine listeners w chunk) in
  (chunk = join_lines lines ++ tail /\
   Forall (fun line => LF ∉ line) lines /\
   LF ∉ tail) /\
  out = concat (map (fun line =>
                       ParseCall line now ::
                       match ParseConsoleLine line now with
                       | Some parsed => map (fun listener => LineParsed listener parsed) listeners
                       | None => map (fun listener => LineUnparsed listener line) listeners
                       end) lines) /\
  parser_inputs out = lines /\
  (forall listener text,
     LineUnparsed listener text ∈ out <->
     listener ∈ listeners /\ text ∈ lines /\ ParseConsoleLine text now = None) /\
  (forall listener parsed,
     LineParsed listener parsed ∈ out <->
     listener ∈ listeners /\
     exists line, line ∈ lines /\ ParseConsoleLine line now = Some parsed) /\
  (LF ∉ chunk ->
   AddConsoleOutputChunk ParseConsoleLine listeners w chunk = (w, [])).
Proof.
  cbv zeta.
  assert (Hloop : AddConsoleOutputChunk ParseConsoleLine listeners w chunk
                  = dispatch_lines ParseConsoleLine listeners w (fst (split_lines chunk))).
  { unfold AddConsoleOutputChunk.
    rewrite AddConsoleOutputChunk_loop_lines by (rewrite drop_0; lia).
    by rewrite drop_0. }
  pose proof (dispatch_lines_deliveries (fst (split_lines chunk)) w) as Hout.
  cbv zeta in Hout. rewrite <- Hloop in Hout.
  split; [apply split_lines_spec |].
  split; [exact Hout |]. rewrite Hout.
  split; [| split; [| split]].
  - clear. pose proof (fun call => parser_inputs_listener_calls listeners call) as Hcalls.
    unfold parser_inputs in *.
    induction (fst (split_lines chunk)) as [| line rest IH]; [reflexivity |].
    simpl. f_equal. rewrite omap_app, IH.
    destruct (ParseConsoleLine line (WorldState.m_CurrentTimestamp w));
      by rewrite Hcalls.
  - intros listener text. rewrite elem_of_concat_map. split.
    + intros (line & Hline & Hin).
      apply elem_of_cons in Hin as [Hin | Hin]; [discriminate |].
      destruct (ParseConsoleLine line (WorldState.m_CurrentTimestamp w)) eqn:Hparse;
        apply elem_of_map_listeners in Hin as (l & Hl & Heq); [discriminate |].
      injection Heq as -> ->. done.
    + intros (Hl & Hline & Hparse). exists text. split; [exact Hline |].
      rewrite Hparse. right. apply elem_of_map_listeners. by exists listener.
  - intros listener parsed. rewrite elem_of_concat_map. split.
    + intros (line & Hline & Hin).
      apply elem_of_cons in Hin as [Hin | Hin]; [discriminate |].
      destruct (ParseConsoleLine line (WorldState.m_CurrentTimestamp w)) eqn:Hparse;
        apply elem_of_map_listeners in Hin as (l & Hl & Heq); [| discriminate].
      injection Heq as -> ->. split; [exact Hl |]. by exists line.
    + intros (Hl & line & Hline & Hparse). exists line. split; [exact Hline |].
      rewrite Hparse. right. apply elem_of_map_listeners. by exists listener.
  - intros Hnone. rewrite Hloop. by rewrite (split_lines_no_LF _ Hnone).
Qed.

End IngestionFacts.

Lemma AddConsoleOutputChunk_complete_lines_only_witness :
  snd (AddConsoleOutputChunk Sample.parse Sample.listeners Sample.lobby_2_1 Sample.chunk)
  = [ParseCall (list_ascii_of_string "Failed to find lobby shared object") 0%Z;
     LineParsed TheWorldState LobbyStatusFailedLine;
     LineParsed (OtherListener 0) LobbyStatusFailedLine;
     ParseCall (list_ascii_of_string "hello") 0%Z;
     LineUnparsed TheWorldState (list_ascii_of_string "hello");
     LineUnparsed (OtherListener 0) (list_ascii_of_string "hello")] /\
  AddConsoleOutputChunk Sample.parse Sample.listeners Sample.lobby_2_1
    (list_ascii_of_string "Lobby cre")
  = (Sample.lobby_2_1, []).
Proof.
  split.
  - destruct (AddConsoleOutputChunk_complete_lines_only Sample.parse Sample.listeners
                Sample.lobby_2_1 Sample.chunk) as (_ & Hout & _).
    rewrite Hout. vm_compute. reflexivity.
  - apply (AddConsoleOutputChunk_complete_lines_only Sample.parse Sample.listeners
             Sample.lobby_2_1 (list_ascii_of_string "Lobby cre")).
    apply (bool_decide_unpack _). vm_compute. exact I.
Defined.

(** Of two complete lines and the beginning of a third, the two complete
    lines reach the parser; the first parses and is handed to both listeners,
    which empties the lobby, the second is handed on as text. *)
Example AddConsoleOutputChunk_sample :
  AddConsoleOutputChunk Sample.parse Sample.listeners Sample.lobby_2_1 Sample.chunk =
  (Sample.empty_world,
   [ParseCall (list_ascii_of_string "Failed to find lobby shared object") 0%Z;
    LineParsed TheWorldState LobbyStatusFailedLine;
    LineParsed (OtherListener 0) LobbyStatusFailedLine;
    ParseCall (list_ascii_of_string "hello") 0%Z;
    LineUnparsed TheWorldState (list_ascii_of_string "hello");
    LineUnparsed (OtherListener 0) (list_ascii_of_string "hello")]).
Proof. vm_compute. reflexivity. Qed.

(** * Further properties of the session model *)

Section TableFacts.
Context {Team State : Type} `{!HeaderDecls Team State}.

Abbreviation Player := (PlayerExtraData.t State).
Abbreviation Table := (list (SteamID * PlayerExtraData.t State)).
Abbreviation World := (WorldState.t Team State).
Abbreviation Member := (LobbyMember.t Team).
Abbreviation Line := (IConsoleLine Team State).

Lemma table_find_elem_of (tbl : Table) (id : SteamID) (p : Player) :
  table_find tbl id = Some p -> (id, p) ∈ tbl.
Proof.
  induction tbl as [| [k q] rest IH]; simpl; [discriminate |].
  destruct (bool_decide_reflect (k = id)) as [-> | Hne].
  - intros [= ->]. by left.
  - intros Hfind. right. by apply IH.
Qed.

Lemma elem_of_table_find (tbl : Table) (id : SteamID) (p : Player) :
  NoDup (map fst tbl) -> (id, p) ∈ tbl -> table_find tbl id = Some p.
Proof.
  induction tbl as [| [k q] rest IH]; simpl; intros Hkeys Hin; [inversion Hin |].
  apply NoDup_cons in Hkeys as [Hfresh Hkeys].
  apply elem_of_cons in Hin as [Heq | Hin].
  - injection Heq as <- <-. by rewrite bool_decide_eq_true_2.
  - rewrite bool_decide_eq_false_2; [by apply IH |].
    intros ->. apply Hfresh.
    apply list_elem_of_In, in_map_iff. exists (id, p).
    split; [reflexivity | by apply list_elem_of_In].
Qed.

Lemma FindOrCreatePlayer_other (tbl : Table) (id id' : SteamID) :
  id' <> id ->
  table_find (fst (FindOrCreatePlayer tbl id)) id' = table_find tbl id'.
Proof.
  intros Hne. unfold FindOrCreatePlayer.
  destruct (table_find tbl id); simpl; [reflexivity |].
  by apply emplace_find.
Qed.

(** X1. [FindOrCreatePlayer] and the lookup, whatever the place the
    container gives to an emplaced entry.  The returned reference is the
    entry a lookup of the identifier finds afterwards: the entry found
    before, if there was one, and a freshly constructed one otherwise.  A
    lookup of any other identifier finds what it found before.  With an
    entry for the identifier the table is left as it is; without one the
    table holds the new entry and the old ones, each once, and nothing else.
    No entry is ever removed, a second call returns the same entry without
    changing the table again, and the call keeps the keys pairwise different
    and the records under their own identifiers. *)
Theorem FindOrCreatePlayer_lookup (tbl : Table) (id : SteamID) :
  let tbl' := fst (FindOrCreatePlayer tbl id) in
  let player := snd (FindOrCreatePlayer tbl id) in
  table_find tbl' id = Some player /\
  player = default (new_PlayerExtraData id) (table_find tbl id) /\
  (forall id', id' <> id -> table_find tbl' id' = table_find tbl id') /\
  (is_Some (table_find tbl id) -> tbl' = tbl) /\
  (table_find tbl id = None ->
   Permutation tbl' ((id, new_PlayerExtraData id) :: tbl) /\
   length tbl' = S (length tbl)) /\
  (forall entry, entry ∈ tbl -> entry ∈ tbl') /\
  FindOrCreatePlayer tbl' id = (tbl', player) /\
  (table_wf tbl -> table_wf tbl' /\ GetSteamID player = id).
Proof.
  cbv zeta.
  destruct (FindOrCreatePlayer_spec tbl id) as [Hfind Hentry].
  split; [exact Hfind |]. split; [| split; [| split; [| split; [| split; [| split]]]]].
  - rewrite Hentry. by destruct (table_find tbl id).
  - intros id' Hne. by apply FindOrCreatePlayer_other.
  - intros [found Hfound]. unfold FindOrCreatePlayer. by rewrite Hfound.
  - intros Hnone. unfold FindOrCreatePlayer. rewrite Hnone. simpl.
    pose proof (emplace_entries tbl id (new_PlayerExtraData id)) as Hperm.
    split; [exact Hperm |]. by rewrite Hperm.
  - intros entry Hin. unfold FindOrCreatePlayer.
    destruct (table_find tbl id); simpl; [exact Hin |].
    rewrite (emplace_entries tbl id (new_PlayerExtraData id)). by right.
  - unfold FindOrCreatePlayer at 1. rewrite Hfind. reflexivity.
  - apply FindOrCreatePlayer_wf.
Qed.

(** X2. The table invariant.  Every line of the update switch keeps the
    keys of the player table pairwise different and every record under the
    key that is its own identifier; so it holds in every state reached from
    an empty table. *)
Theorem table_wf_invariant :
  (forall (w : World) (line : Line),
     table_wf (WorldState.m_CurrentPlayerData w) ->
     table_wf (WorldState.m_CurrentPlayerData (fst (OnConsoleLineParsed w line)))) /\
  (forall (w : World) (lines : list Line),
     WorldState.m_CurrentPlayerData w = [] ->
     table_wf (WorldState.m_CurrentPlayerData (run_lines w lines)) /\
     forall id p, FindPlayer (run_lines w lines) id = Some p -> GetSteamID p = id).
Proof.
  split; [apply OnConsoleLineParsed_table_wf |].
  intros w lines Hempty.
  assert (Hwf : table_wf (WorldState.m_CurrentPlayerData (run_lines w lines))).
  { apply run_lines_table_wf. rewrite Hempty. split; constructor. }
  split; [exact Hwf |].
  intros id p Hfind. destruct Hwf as [_ Hids].
  by apply (table_find_identifier _ _ _ Hids).
Qed.

End TableFacts.

Lemma table_wf_invariant_witness :
  table_wf (WorldState.m_CurrentPlayerData Cases.two_known_players).
Proof.
  apply (proj2 (@table_wf_invariant Sample.team Sample.state _) Sample.empty_world).
  reflexivity.
Defined.

Lemma FindOrCreatePlayer_lookup_witness :
  map fst (fst (FindOrCreatePlayer
                  (WorldState.m_CurrentPlayerData
                     (run_lines TwoTeams.empty_world (take 2 TwoTeams.three_status_lines)))
                  9%N))
  = [9%N; 6%N; 5%N] /\
  table_find
    (fst (FindOrCreatePlayer
            (WorldState.m_CurrentPlayerData
               (run_lines TwoTeams.empty_world (take 2 TwoTeams.three_status_lines)))
            9%N))
    5%N
  = table_find
      (WorldState.m_CurrentPlayerData
         (run_lines TwoTeams.empty_world (take 2 TwoTeams.three_status_lines)))
      5%N.
Proof.
  split; [reflexivity |].
  destruct (FindOrCreatePlayer_lookup
              (WorldState.m_CurrentPlayerData
                 (run_lines TwoTeams.empty_world (take 2 TwoTeams.three_status_lines)))
              9%N)
    as (_ & _ & Hother & _).
  apply Hother. discriminate.
Defined.

Section UpdateFacts.
Context {Team State : Type} `{!HeaderDecls Team State}.

Abbreviation Player := (PlayerExtraData.t State).
Abbreviation Table := (list (SteamID * PlayerExtraData.t State)).
Abbreviation World := (WorldState.t Team State).
Abbreviation Member := (LobbyMember.t Team).
Abbreviation Line := (IConsoleLine Team State).

Lemma store_player_Forall (P : Player -> Prop) (tbl : Table) (id : SteamID) (p : Player) :
  Forall (fun kp => P (snd kp)) tbl -> P p ->
  Forall (fun kp => P (snd kp)) (store_player tbl id p).
Proof.
  intros Hall Hp.
  induction Hall as [| [k q] rest Hhd Hrest IH]; simpl; [constructor |].
  destruct (bool_decide (k = id)); by constructor.
Qed.

(** A property of all records that holds of a fresh record and that a
    change keeps, holds of all records after [FindOrCreatePlayer], the
    change and the assignment. *)
Lemma update_Forall (P : Player -> Prop) (change : Player -> Player)
    (tbl : Table) (id : SteamID) :
  Forall (fun kp => P (snd kp)) tbl ->
  P (new_PlayerExtraData id) ->
  (forall p, P p -> P (change p)) ->
  Forall (fun kp => P (snd kp))
         (store_player (fst (FindOrCreatePlayer tbl id)) id
            (change (snd (FindOrCreatePlayer tbl id)))).
Proof.
  intros Hall Hnew Hchange. unfold FindOrCreatePlayer.
  destruct (table_find tbl id) as [found |] eqn:Hfind; simpl.
  - apply store_player_Forall; [exact Hall |]. apply Hchange.
    apply table_find_elem_of in Hfind.
    rewrite Forall_forall in Hall. exact (Hall _ Hfind).
  - apply store_player_Forall; [| by apply Hchange].
    apply (Permutation_Forall (Permutation_sym (emplace_entries tbl id _))).
    by constructor.
Qed.

Lemma with_player_Forall (P : Player -> Prop) (w : World) (id : SteamID)
    (change : Player -> Player) :
  P (new_PlayerExtraData id) ->
  (forall p, P p -> P (change p)) ->
  Forall (fun kp => P (snd kp)) (WorldState.m_CurrentPlayerData w) ->
  Forall (fun kp => P (snd kp)) (WorldState.m_CurrentPlayerData (with_player w id change)).
Proof.
  intros Hnew Hchange Hall. unfold with_player.
  pose proof (update_Forall P change _ id Hall Hnew Hchange) as Hstored.
  by destruct (FindOrCreatePlayer (WorldState.m_CurrentPlayerData w) id).
Qed.

Lemma with_player_LastStatusUpdateTime (w : World) (id : SteamID) (change : Player -> Player) :
  WorldState.m_LastStatusUpdateTime (with_player w id change)
  = WorldState.m_LastStatusUpdateTime w.
Proof.
  unfold with_player.
  by destruct (FindOrCreatePlayer (WorldState.m_CurrentPlayerData w) id).
Qed.

(** X3. The session-wide last status update.  Every line keeps it not
    negative and at least as late as the last status update of every record,
    and no line moves it back. *)
Theorem LastStatusUpdateTime_bounds_players (w : World) (line : Line) :
  status_time_bound w ->
  status_time_bound (fst (OnConsoleLineParsed w line)) /\
  (WorldState.m_LastStatusUpdateTime w
   <= WorldState.m_LastStatusUpdateTime (fst (OnConsoleLineParsed w line)))%Z.
Proof.
  intros [Hpos Hall].
  set (bound := WorldState.m_LastStatusUpdateTime w) in *.
  assert (Hupdate : forall id (change : Player -> Player),
            (forall p, GetLastStatusUpdateTime (change p) = GetLastStatusUpdateTime p) ->
            Forall (fun kp => (GetLastStatusUpdateTime (snd kp) <= bound)%Z)
                   (store_player (fst (FindOrCreatePlayer (WorldState.m_CurrentPlayerData w) id))
                      id (change (snd (FindOrCreatePlayer (WorldState.m_CurrentPlayerData w) id))))).
  { intros id change Hchange.
    apply (update_Forall (fun p => (GetLastStatusUpdateTime p <= bound)%Z));
      [exact Hall | exact Hpos |].
    intros p Hp. by rewrite Hchange. }
  unfold status_time_bound.
  destruct line as [mc pc | | changeType | | | | name msg | name reason | cfg | member
                   | ts name ping | ts status | name idx | attacker victim | type |];
    unfold OnConsoleLineParsed.
  - simpl. repeat split; first [assumption | reflexivity].
  - destruct (negb _ || negb _); simpl; repeat split;
      first [assumption | reflexivity | constructor].
  - destruct changeType; simpl; repeat split;
      try first [assumption | reflexivity | constructor].
    clear Hupdate. induction Hall as [| [k q] rest Hhd Hrest IH]; simpl; by constructor.
  - destruct (WorldState.m_IsLocalPlayerInitialized w); simpl; repeat split;
      first [assumption | reflexivity].
  - destruct (WorldState.m_IsLocalPlayerInitialized w); simpl; repeat split;
      first [assumption | reflexivity].
  - destruct (WorldState.m_IsLocalPlayerInitialized w); simpl; repeat split;
      first [assumption | reflexivity].
  - destruct (FindSteamIDForName w name) as [sid |];
      [destruct (FindPlayer w sid) |]; simpl; repeat split;
      first [assumption | reflexivity].
  - destruct (FindSteamIDForName w name) as [sid |];
      [destruct (FindPlayer w sid) |]; simpl; repeat split;
      first [assumption | reflexivity].
  - unfold OnConfigExecLineParsed.
    destruct (is_class_config cfg); [destruct (negb _) |]; simpl; repeat split;
      first [assumption | reflexivity].
  - specialize (Hupdate (LobbyMember.m_SteamID member)
                  (fun p => PlayerExtraData.with_Team p
                     (Some (if bool_decide (LobbyMember.m_Team member = Defenders)
                            then Red else Blue)))
                  (fun p => eq_refl)).
    destruct (LobbyMember.m_Pending member); simpl;
      destruct (FindOrCreatePlayer (WorldState.m_CurrentPlayerData w)
                  (LobbyMember.m_SteamID member));
      simpl; repeat split; first [assumption | reflexivity].
  - destruct (FindSteamIDForName w name) as [found |];
      [| simpl; repeat split; first [assumption | reflexivity]].
    specialize (Hupdate found (fun p => SetPing p ping ts) (fun p => eq_refl)).
    destruct (FindOrCreatePlayer (WorldState.m_CurrentPlayerData w) found);
      simpl; repeat split; first [assumption | reflexivity].
  - pose proof (update_Forall
                  (fun p => (GetLastStatusUpdateTime p <= Z.max bound ts)%Z)
                  (fun p => SetStatus p
                     (PlayerStatus.with_ConnectionTime status
                        (patched_ConnectionTime
                           (PlayerStatus.m_ConnectionTime (PlayerExtraData.m_Status p))
                           (PlayerStatus.m_ConnectionTime status))) ts)
                  (WorldState.m_CurrentPlayerData w) (PlayerStatus.m_SteamID status))
      as Hstatus.
    destruct (FindOrCreatePlayer (WorldState.m_CurrentPlayerData w)
                (PlayerStatus.m_SteamID status)) as [tbl playerData].
    simpl in *. fold bound. repeat split; [lia | | lia].
    apply Hstatus.
    + eapply Forall_impl; [exact Hall |]. simpl. intros kp Hkp. lia.
    + unfold GetLastStatusUpdateTime. simpl. lia.
    + intros p _. unfold GetLastStatusUpdateTime. simpl. lia.
  - destruct (FindSteamIDForName w name) as [steamID |];
      [| simpl; repeat split; first [assumption | reflexivity]].
    specialize (Hupdate steamID (fun p => PlayerExtraData.with_ClientIndex p idx)
                  (fun p => eq_refl)).
    destruct (FindOrCreatePlayer (WorldState.m_CurrentPlayerData w) steamID);
      simpl; repeat split; first [assumption | reflexivity].
  - simpl.
    destruct (FindSteamIDForName w attacker) as [a |];
      destruct (FindSteamIDForName w victim) as [v |];
      rewrite ?with_player_LastStatusUpdateTime; fold bound;
      (split; [split; [exact Hpos |] | reflexivity]);
      repeat (apply (with_player_Forall (fun p => (GetLastStatusUpdateTime p <= bound)%Z));
              [exact Hpos | done |]);
      exact Hall.
  - destruct type; simpl; repeat split; first [assumption | reflexivity].
  - simpl. repeat split; first [assumption | reflexivity].
Qed.

(** ** Lines that update a player found by name *)

(** Under the table invariant a name resolves to an identifier that has a
    record, and the record carries the name. *)
Lemma FindSteamIDForName_known (w : World) (name : string) (id : SteamID) :
  table_wf (WorldState.m_CurrentPlayerData w) ->
  FindSteamIDForName w name = Some id ->
  exists p, FindPlayer w id = Some p /\ name_of p = name /\ GetSteamID p = id.
Proof.
  intros [Hkeys Hids] Hfound. unfold FindSteamIDForName in Hfound.
  destruct (FindSteamIDForName_loop_spec (WorldState.m_CurrentPlayerData w) name None 0%Z)
    as [[Hnone _] | (pre & k & p & post & Htbl & Hsome & Hname & _)]; [congruence |].
  assert (Hin : (k, p) ∈ WorldState.m_CurrentPlayerData w).
  { rewrite Htbl. apply elem_of_app. right. by left. }
  assert (Hk : GetSteamID p = k).
  { rewrite Forall_forall in Hids. exact (Hids _ Hin). }
  rewrite Hsome in Hfound. injection Hfound as Hid.
  exists p. unfold FindPlayer. rewrite <- Hid, Hk.
  split; [by apply elem_of_table_find | by split].
Qed.

(** Replacing a record by one of the same name, identifier and last status
    update does not change what a name resolves to. *)
Lemma FindSteamIDForName_loop_store (tbl : Table) (id : SteamID) (p : Player)
    (name : string) (retVal : option SteamID) (lastUpdated : time_point_t) :
  (forall old, table_find tbl id = Some old ->
               name_of p = name_of old /\ GetSteamID p = GetSteamID old /\
               GetLastStatusUpdateTime p = GetLastStatusUpdateTime old) ->
  FindSteamIDForName_loop (store_player tbl id p) name retVal lastUpdated
  = FindSteamIDForName_loop tbl name retVal lastUpdated.
Proof.
  revert retVal lastUpdated.
  induction tbl as [| [k q] rest IH]; intros retVal lastUpdated Hsame; [reflexivity |].
  simpl in *.
  destruct (bool_decide_reflect (k = id)) as [-> | Hne]; simpl.
  - destruct (Hsame q eq_refl) as (Hname & Hid & Htime).
    fold (name_of p). fold (name_of q). by rewrite Hname, Hid, Htime.
  - by rewrite !IH.
Qed.

(** What the [Ping] and the [PlayerStatusShort] case have in common: the
    name is resolved and the record of the identifier is changed in place. *)
Lemma resolved_update (w : World) (name : string) (change : Player -> Player) :
  table_wf (WorldState.m_CurrentPlayerData w) ->
  (forall p, name_of (change p) = name_of p /\ GetSteamID (change p) = GetSteamID p /\
             GetLastStatusUpdateTime (change p) = GetLastStatusUpdateTime p) ->
  let w' :=
    match FindSteamIDForName w name with
    | Some found =>
        let '(tbl, playerData) := FindOrCreatePlayer (WorldState.m_CurrentPlayerData w) found in
        WorldState.with_players w (store_player tbl found (change playerData))
    | None => w
    end in
  (FindSteamIDForName w name = None -> w' = w) /\
  (forall id, FindSteamIDForName w name = Some id ->
     exists p, FindPlayer w id = Some p /\ name_of p = name /\
               FindPlayer w' id = Some (change p)) /\
  (forall id, FindSteamIDForName w name <> Some id -> FindPlayer w' id = FindPlayer w id) /\
  map fst (WorldState.m_CurrentPlayerData w') = map fst (WorldState.m_CurrentPlayerData w) /\
  (forall n, FindSteamIDForName w' n = FindSteamIDForName w n) /\
  WorldState.with_players w' (WorldState.m_CurrentPlayerData w) = w.
Proof.
  intros Hwf Hchange. cbv zeta.
  destruct (FindSteamIDForName w name) as [found |] eqn:Hresolved.
  2: { repeat split; try done. by destruct w. }
  destruct (FindSteamIDForName_known w name found Hwf Hresolved) as (p & Hp & Hname & Hid).
  unfold FindPlayer in Hp.
  unfold FindOrCreatePlayer. rewrite Hp.
  repeat split.
  - discriminate.
  - intros id [= <-]. exists p. unfold FindPlayer. simpl.
    repeat split; try assumption. apply table_find_store. by rewrite Hp.
  - intros id Hne. unfold FindPlayer. simpl.
    apply table_find_store_ne. congruence.
  - simpl. apply store_player_keys.
  - intros n. unfold FindSteamIDForName. simpl.
    apply FindSteamIDForName_loop_store.
    intros old Hold. rewrite Hp in Hold. injection Hold as <-. apply Hchange.
  - by destruct w.
Qed.

(** X4. A ping line.  In a state that satisfies the table invariant, a ping
    line whose name does not resolve changes nothing; one whose name resolves
    sets the ping of the status and the time of the last ping update of the
    resolved record to the ping and the timestamp of the line, and leaves
    every other member of the record as it is.  No record is created, every
    other record, the slot vectors and the flags stay as they are, no event
    is raised, and every name resolves as before. *)
Theorem Ping_touches_ping_only (w : World) (timestamp : time_point_t)
    (name : string) (ping : N) :
  table_wf (WorldState.m_CurrentPlayerData w) ->
  let w' := fst (OnConsoleLineParsed w (PingLine timestamp name ping)) in
  snd (OnConsoleLineParsed w (PingLine timestamp name ping)) = [] /\
  (FindSteamIDForName w name = None -> w' = w) /\
  (forall id, FindSteamIDForName w name = Some id ->
     exists p, FindPlayer w id = Some p /\ name_of p = name /\
               FindPlayer w' id
               = Some (PlayerExtraData.mk
                         (PlayerStatus.mk
                            (PlayerStatus.m_SteamID (PlayerExtraData.m_Status p))
                            (PlayerStatus.m_Name (PlayerExtraData.m_Status p))
                            (PlayerStatus.m_State (PlayerExtraData.m_Status p))
                            (PlayerStatus.m_ConnectionTime (PlayerExtraData.m_Status p))
                            (PlayerStatus.m_UserID (PlayerExtraData.m_Status p))
                            ping)
                         (PlayerExtraData.m_LastStatusActiveBegin p)
                         (PlayerExtraData.m_LastStatusUpdateTime p)
                         timestamp
                         (PlayerExtraData.m_Team p)
                         (PlayerExtraData.m_ClientIndex p)
                         (PlayerExtraData.m_Scores p))) /\
  (forall id, FindSteamIDForName w name <> Some id -> FindPlayer w' id = FindPlayer w id) /\
  map fst (WorldState.m_CurrentPlayerData w') = map fst (WorldState.m_CurrentPlayerData w) /\
  (forall n, FindSteamIDForName w' n = FindSteamIDForName w n) /\
  WorldState.with_players w' (WorldState.m_CurrentPlayerData w) = w.
Proof.
  intros Hwf. cbv zeta.
  pose proof (resolved_update w name (fun p => SetPing p ping timestamp) Hwf
                (fun p => conj eq_refl (conj eq_refl eq_refl))) as Hupdate.
  cbv zeta in Hupdate.
  unfold OnConsoleLineParsed.
  destruct (FindSteamIDForName w name) as [found |]; [| by split].
  destruct (FindOrCreatePlayer (WorldState.m_CurrentPlayerData w) found).
  by split.
Qed.

(** X5. A short status line.  In a state that satisfies the table
    invariant, a short status line whose name does not resolve changes
    nothing; one whose name resolves sets the client index of the resolved
    record and nothing else: no record is created, every other record, the
    slot vectors and the flags stay as they are, no event is raised, and
    every name resolves as before. *)
Theorem PlayerStatusShort_touches_client_index_only (w : World)
    (name : string) (clientIndex : N) :
  table_wf (WorldState.m_CurrentPlayerData w) ->
  let w' := fst (OnConsoleLineParsed w (ServerStatusShortPlayerLine name clientIndex)) in
  snd (OnConsoleLineParsed w (ServerStatusShortPlayerLine name clientIndex)) = [] /\
  (FindSteamIDForName w name = None -> w' = w) /\
  (forall id, FindSteamIDForName w name = Some id ->
     exists p, FindPlayer w id = Some p /\ name_of p = name /\
               FindPlayer w' id = Some (PlayerExtraData.with_ClientIndex p clientIndex)) /\
  (forall id, FindSteamIDForName w name <> Some id -> FindPlayer w' id = FindPlayer w id) /\
  map fst (WorldState.m_CurrentPlayerData w') = map fst (WorldState.m_CurrentPlayerData w) /\
  (forall n, FindSteamIDForName w' n = FindSteamIDForName w n) /\
  WorldState.with_players w' (WorldState.m_CurrentPlayerData w) = w.
Proof.
  intros Hwf. cbv zeta.
  pose proof (resolved_update w name
                (fun p => PlayerExtraData.with_ClientIndex p clientIndex) Hwf
                (fun p => conj eq_refl (conj eq_refl eq_refl))) as Hupdate.
  cbv zeta in Hupdate.
  unfold OnConsoleLineParsed.
  destruct (FindSteamIDForName w name) as [found |]; [| by split].
  destruct (FindOrCreatePlayer (WorldState.m_CurrentPlayerData w) found).
  by split.
Qed.

End UpdateFacts.

Section LineFacts.
Context {Team State : Type} `{!HeaderDecls Team State}.

Abbreviation Player := (PlayerExtraData.t State).
Abbreviation Table := (list (SteamID * PlayerExtraData.t State)).
Abbreviation World := (WorldState.t Team State).
Abbreviation Member := (LobbyMember.t Team).
Abbreviation Line := (IConsoleLine Team State).

(** X6. Chat and player-dropped lines.  Neither changes the state.  In a
    state that satisfies the table invariant, a line whose player name does
    not resolve raises no event, and one whose name resolves raises exactly
    one event, for the record of the resolved identifier, which carries that
    name: the branch for a resolved identifier without a record is never
    taken. *)
Theorem Chat_and_Dropped_raise_for_named_player (w : World) (name text : string) :
  table_wf (WorldState.m_CurrentPlayerData w) ->
  fst (OnConsoleLineParsed w (ChatConsoleLine name text)) = w /\
  fst (OnConsoleLineParsed w (ServerDroppedPlayerLine name text)) = w /\
  (FindSteamIDForName w name = None ->
   snd (OnConsoleLineParsed w (ChatConsoleLine name text)) = [] /\
   snd (OnConsoleLineParsed w (ServerDroppedPlayerLine name text)) = []) /\
  (forall id, FindSteamIDForName w name = Some id ->
     exists p, FindPlayer w id = Some p /\ name_of p = name /\ GetSteamID p = id /\
       snd (OnConsoleLineParsed w (ChatConsoleLine name text)) = [OnChatMsg p text] /\
       snd (OnConsoleLineParsed w (ServerDroppedPlayerLine name text))
       = [OnPlayerDroppedFromServer p text]).
Proof.
  intros Hwf. unfold OnConsoleLineParsed.
  destruct (FindSteamIDForName w name) as [sid |] eqn:Hresolved.
  - destruct (FindSteamIDForName_known w name sid Hwf Hresolved) as (p & Hp & Hname & Hid).
    rewrite Hp. repeat split; try done.
    intros id [= <-]. by exists p.
  - repeat split; done.
Qed.

(** X7. New game, connecting and reached-spawn lines act alike: the local
    player is marked uninitialised and no vote is in progress afterwards,
    nothing else changes, the initialisation event is raised exactly when the
    local player was marked initialised before, and the same line once more
    changes nothing and raises nothing. *)
Theorem session_start_lines_reset_flags (w : World) (line : Line) :
  line = HostNewGameLine \/ line = ConnectingLine \/ line = ClientReachedServerSpawnLine ->
  let w' := fst (OnConsoleLineParsed w line) in
  w' = WorldState.with_vote (WorldState.with_initialized w false) false /\
  snd (OnConsoleLineParsed w line)
  = (if WorldState.m_IsLocalPlayerInitialized w then [OnLocalPlayerInitialized false] else []) /\
  OnConsoleLineParsed w' line = (w', []).
Proof.
  intros [-> | [-> | ->]]; cbv zeta; unfold OnConsoleLineParsed;
    destruct w as [settings cur pend tbl [] vote last now]; simpl; done.
Qed.

Lemma table_find_map (change : Player -> Player) (tbl : Table) (id : SteamID) :
  table_find (map (fun player => (fst player, change (snd player))) tbl) id
  = change <$> table_find tbl id.
Proof.
  induction tbl as [| [k q] rest IH]; simpl; [reflexivity |].
  destruct (bool_decide (k = id)); [reflexivity | exact IH].
Qed.

Lemma FindSteamIDForName_loop_map (change : Player -> Player) (tbl : Table)
    (name : string) (retVal : option SteamID) (lastUpdated : time_point_t) :
  (forall p, name_of (change p) = name_of p /\ GetSteamID (change p) = GetSteamID p /\
             GetLastStatusUpdateTime (change p) = GetLastStatusUpdateTime p) ->
  FindSteamIDForName_loop (map (fun player => (fst player, change (snd player))) tbl)
    name retVal lastUpdated
  = FindSteamIDForName_loop tbl name retVal lastUpdated.
Proof.
  intros Hchange. revert retVal lastUpdated.
  induction tbl as [| [k q] rest IH]; intros retVal lastUpdated; [reflexivity |].
  simpl. destruct (Hchange q) as (Hname & Hid & Htime).
  fold (name_of (change q)). fold (name_of q).
  by rewrite Hname, Hid, Htime, !IH.
Qed.

(** X8. A lobby-changed line.  [Created] empties both slot vectors and the
    player table; [Updated] sets the client index of every record to zero and
    leaves every other member of every record, the keys, the slot vectors and
    what names resolve to as they are; any other change type changes
    nothing.  No event is raised, and no flag or time of the session
    changes. *)
Theorem LobbyChanged_invalidates_client_indices (w : World) :
  OnConsoleLineParsed w (LobbyChangedLine Created)
  = (WorldState.with_players (WorldState.with_lobby w [] []) [], []) /\
  OnConsoleLineParsed w (LobbyChangedLine OtherChange) = (w, []) /\
  (let w' := fst (OnConsoleLineParsed w (LobbyChangedLine Updated)) in
   snd (OnConsoleLineParsed w (LobbyChangedLine Updated)) = [] /\
   WorldState.with_players w' (WorldState.m_CurrentPlayerData w) = w /\
   map fst (WorldState.m_CurrentPlayerData w') = map fst (WorldState.m_CurrentPlayerData w) /\
   (forall id, FindPlayer w' id
               = (fun p => PlayerExtraData.with_ClientIndex p 0%N) <$> FindPlayer w id) /\
   (forall name, FindSteamIDForName w' name = FindSteamIDForName w name) /\
   Forall (fun kp => PlayerExtraData.m_ClientIndex (snd kp) = 0%N)
          (WorldState.m_CurrentPlayerData w')).
Proof.
  split; [reflexivity |]. split; [reflexivity |].
  cbv zeta. unfold OnConsoleLineParsed. simpl.
  split; [reflexivity |]. split; [by destruct w |]. split; [| split; [| split]].
  - rewrite map_map. reflexivity.
  - intros id. unfold FindPlayer. simpl.
    apply (table_find_map (fun p => PlayerExtraData.with_ClientIndex p 0%N)).
  - intros name. unfold FindSteamIDForName. simpl.
    by apply (FindSteamIDForName_loop_map (fun p => PlayerExtraData.with_ClientIndex p 0%N)).
  - induction (WorldState.m_CurrentPlayerData w) as [| [k q] rest IH]; simpl; by constructor.
Qed.

(** X9. A lobby header.  Afterwards the two slot vectors have the declared
    sizes; a slot below both the old and the new size holds what it held, a
    slot from the old size on is empty, and slots from the new size on are
    gone.  A header that declares the sizes the vectors have changes nothing.
    Growing after shrinking does not bring a slot back.  The player table,
    the flags and the times are not touched and no event is raised. *)
Theorem LobbyHeader_resizes_slots (w : World) (memberCount pendingCount : nat) :
  let w' := fst (OnConsoleLineParsed w (LobbyHeaderLine memberCount pendingCount)) in
  snd (OnConsoleLineParsed w (LobbyHeaderLine memberCount pendingCount)) = [] /\
  WorldState.with_lobby w' (WorldState.m_CurrentLobbyMembers w)
    (WorldState.m_PendingLobbyMembers w) = w /\
  (length (WorldState.m_CurrentLobbyMembers w') = memberCount /\
   length (WorldState.m_PendingLobbyMembers w') = pendingCount) /\
  (forall i, i < memberCount ->
     WorldState.m_CurrentLobbyMembers w' !! i
     = Some (default empty_slot (WorldState.m_CurrentLobbyMembers w !! i))) /\
  (forall i, i < pendingCount ->
     WorldState.m_PendingLobbyMembers w' !! i
     = Some (default empty_slot (WorldState.m_PendingLobbyMembers w !! i))) /\
  (forall i, memberCount <= i -> WorldState.m_CurrentLobbyMembers w' !! i = None) /\
  (forall i, pendingCount <= i -> WorldState.m_PendingLobbyMembers w' !! i = None) /\
  (memberCount = length (WorldState.m_CurrentLobbyMembers w) ->
   pendingCount = length (WorldState.m_PendingLobbyMembers w) -> w' = w) /\
  (forall smaller i,
     smaller <= i -> i < memberCount ->
     WorldState.m_CurrentLobbyMembers
       (run_lines w [LobbyHeaderLine smaller pendingCount;
                     LobbyHeaderLine memberCount pendingCount]) !! i
     = Some empty_slot).
Proof.
  cbv zeta. unfold OnConsoleLineParsed. simpl. fold empty_slot.
  assert (Hslot : forall (l : list Member) n i,
            i < n -> resize n empty_slot l !! i = Some (default empty_slot (l !! i))).
  { intros l n i Hlt. destruct (decide (i < length l)) as [Hin | Hout].
    - rewrite lookup_resize by assumption.
      destruct (lookup_lt_is_Some_2 l i Hin) as [m Hm]. by rewrite Hm.
    - rewrite lookup_resize_new by lia.
      rewrite (proj2 (lookup_ge_None l i)) by lia. reflexivity. }
  split; [reflexivity |]. split; [by destruct w |].
  split; [split; apply length_resize |].
  split; [intros i Hi; by apply Hslot |].
  split; [intros i Hi; by apply Hslot |].
  split; [intros i Hi; by apply lookup_resize_old |].
  split; [intros i Hi; by apply lookup_resize_old |].
  split.
  - intros -> ->. rewrite !resize_all. by destruct w.
  - intros smaller i Hge Hlt. unfold run_lines. simpl. fold empty_slot.
    rewrite Hslot by exact Hlt.
    by rewrite lookup_resize_old by exact Hge.
Qed.

End LineFacts.

Section LobbyQueries.
Context {Team State : Type} `{!HeaderDecls Team State}.

Abbreviation Player := (PlayerExtraData.t State).
Abbreviation Table := (list (SteamID * PlayerExtraData.t State)).
Abbreviation World := (WorldState.t Team State).
Abbreviation Member := (LobbyMember.t Team).
Abbreviation Line := (IConsoleLine Team State).

Lemma find_member_team_find_member (members : list Member) (id : SteamID) :
  find_member_team members id = LobbyMember.m_Team <$> find_member members id.
Proof.
  induction members as [| member rest IH]; simpl; [reflexivity |].
  destruct (bool_decide (LobbyMember.m_SteamID member = id)); [reflexivity | exact IH].
Qed.

(** [find_member] returns the first slot that holds the identifier. *)
Lemma find_member_Some (members : list Member) (id : SteamID) (member : Member) :
  find_member members id = Some member <->
  exists i, members !! i = Some member /\ LobbyMember.m_SteamID member = id /\
            forall j other, j < i -> members !! j = Some other ->
                            LobbyMember.m_SteamID other <> id.
Proof.
  induction members as [| m rest IH]; simpl.
  { split; [discriminate | intros (i & Hi & _); by destruct i]. }
  destruct (bool_decide_reflect (LobbyMember.m_SteamID m = id)) as [Hm | Hm].
  - split.
    + intros [= <-]. exists 0. repeat split; [exact Hm |]. intros j other Hj. lia.
    + intros (i & Hi & Hid & Hfirst). destruct i as [| i]; [by injection Hi as -> |].
      exfalso. apply (Hfirst 0 m); [lia | reflexivity | exact Hm].
  - rewrite IH. split.
    + intros (i & Hi & Hid & Hfirst). exists (S i). repeat split; try assumption.
      intros [| j] other Hj Hother; [by injection Hother as <- |].
      apply (Hfirst j); [lia | exact Hother].
    + intros (i & Hi & Hid & Hfirst). destruct i as [| i].
      * injection Hi as ->. contradiction.
      * exists i. repeat split; try assumption.
        intros j other Hj Hother. apply (Hfirst (S j)); [lia | exact Hother].
Qed.

Lemma find_member_None (members : list Member) (id : SteamID) :
  find_member members id = None <->
  forall member, member ∈ members -> LobbyMember.m_SteamID member <> id.
Proof.
  induction members as [| m rest IH]; simpl.
  { split; [intros _ member Hin; inversion Hin | reflexivity]. }
  destruct (bool_decide_reflect (LobbyMember.m_SteamID m = id)) as [Hm | Hm].
  - split; [discriminate |]. intros Hall. exfalso. apply (Hall m); [by left | exact Hm].
  - rewrite IH. split.
    + intros Hall member [-> | Hin]%elem_of_cons; [exact Hm | by apply Hall].
    + intros Hall member Hin. apply Hall. by right.
Qed.

Lemma FindLobbyMemberTeam_None (w : World) (id : SteamID) :
  FindLobbyMemberTeam w id = None <-> ~ has_slot w id.
Proof.
  unfold FindLobbyMemberTeam, has_slot. rewrite !find_member_team_find_member.
  destruct (find_member (WorldState.m_CurrentLobbyMembers w) id) as [m |] eqn:Hcur; simpl.
  - split; [discriminate |]. intros Hnone. exfalso. apply Hnone.
    apply find_member_Some in Hcur as (i & Hi & Hid & _).
    exists m. split; [left; by apply (list_elem_of_lookup_2 _ i) | exact Hid].
  - pose proof (proj1 (find_member_None _ _) Hcur) as Hcur'.
    destruct (find_member (WorldState.m_PendingLobbyMembers w) id) as [m |] eqn:Hpend; simpl.
    + split; [discriminate |]. intros Hnone. exfalso. apply Hnone.
      apply find_member_Some in Hpend as (i & Hi & Hid & _).
      exists m. split; [right; by apply (list_elem_of_lookup_2 _ i) | exact Hid].
    + pose proof (proj1 (find_member_None _ _) Hpend) as Hpend'.
      split; [| reflexivity]. intros _ (m & [Hin | Hin] & Hid);
        [by apply (Hcur' m) | by apply (Hpend' m)].
Qed.

(** X10. Looking a player up in the lobby.  [FindLobbyMemberTeam] returns
    nothing exactly when no slot of either vector holds the identifier;
    otherwise it returns the team of the first confirmed slot that holds it
    and, only if no confirmed slot does, that of the first pending slot that
    holds it.  The slot is the one [GetLobbyMember] returns for a record of
    that identifier.  Empty slots are compared like the others. *)
Theorem FindLobbyMemberTeam_first_slot (w : World) (id : SteamID) :
  (FindLobbyMemberTeam w id = None <-> ~ has_slot w id) /\
  (forall p, GetSteamID p = id ->
     FindLobbyMemberTeam w id = LobbyMember.m_Team <$> GetLobbyMember w p) /\
  (forall p member, GetSteamID p = id ->
     GetLobbyMember w p = Some member <->
     (exists i, WorldState.m_CurrentLobbyMembers w !! i = Some member /\
                LobbyMember.m_SteamID member = id /\
                forall j other, j < i -> WorldState.m_CurrentLobbyMembers w !! j = Some other ->
                                LobbyMember.m_SteamID other <> id)
     \/
     ((forall other, other ∈ WorldState.m_CurrentLobbyMembers w ->
                     LobbyMember.m_SteamID other <> id) /\
      exists i, WorldState.m_PendingLobbyMembers w !! i = Some member /\
                LobbyMember.m_SteamID member = id /\
                forall j other, j < i -> WorldState.m_PendingLobbyMembers w !! j = Some other ->
                                LobbyMember.m_SteamID other <> id)).
Proof.
  split; [apply FindLobbyMemberTeam_None | split].
  - intros p <-. unfold FindLobbyMemberTeam, GetLobbyMember.
    rewrite !find_member_team_find_member.
    by destruct (find_member (WorldState.m_CurrentLobbyMembers w) (GetSteamID p)).
  - intros p member <-. unfold GetLobbyMember.
    destruct (find_member (WorldState.m_CurrentLobbyMembers w) (GetSteamID p))
      as [m |] eqn:Hcur.
    + split.
      * intros [= <-]. left. by apply find_member_Some.
      * intros [Hfirst | [Hnone _]].
        -- apply find_member_Some in Hfirst. congruence.
        -- apply find_member_None in Hnone. congruence.
    + rewrite find_member_Some. split.
      * intros Hpend. right. split; [by apply find_member_None | exact Hpend].
      * intros [Hfirst | [_ Hpend]]; [| exact Hpend].
        apply find_member_Some in Hfirst. congruence.
Qed.

Lemma find_member_insert (members : list Member) (member : Member) :
  LobbyMember.m_Index member < length members ->
  (forall j other, j < LobbyMember.m_Index member -> members !! j = Some other ->
                   LobbyMember.m_SteamID other <> LobbyMember.m_SteamID member) ->
  find_member (<[LobbyMember.m_Index member := member]> members)
              (LobbyMember.m_SteamID member) = Some member.
Proof.
  intros Hlt Hfirst. apply find_member_Some.
  exists (LobbyMember.m_Index member). repeat split.
  - by apply list_lookup_insert_eq.
  - intros j other Hj Hother.
    rewrite list_lookup_insert_ne in Hother by lia. by apply (Hfirst j).
Qed.

(** X11. A lobby member line and the lookup.  After a member line whose
    index is in bounds, the lookup of the member's identifier returns the
    member's team, provided no slot that is looked at before the written one
    holds the same identifier: no confirmed slot of a lower index for a
    confirmed member; no confirmed slot at all and no pending slot of a lower
    index for a pending member. *)
Theorem LobbyMember_then_FindLobbyMemberTeam (w : World) (member : Member) :
  let vec := if LobbyMember.m_Pending member
             then WorldState.m_PendingLobbyMembers w
             else WorldState.m_CurrentLobbyMembers w in
  LobbyMember.m_Index member < length vec ->
  (forall j other, j < LobbyMember.m_Index member -> vec !! j = Some other ->
                   LobbyMember.m_SteamID other <> LobbyMember.m_SteamID member) ->
  (LobbyMember.m_Pending member = true ->
   forall other, other ∈ WorldState.m_CurrentLobbyMembers w ->
                 LobbyMember.m_SteamID other <> LobbyMember.m_SteamID member) ->
  FindLobbyMemberTeam (fst (OnConsoleLineParsed w (LobbyMemberLine member)))
                      (LobbyMember.m_SteamID member)
  = Some (LobbyMember.m_Team member).
Proof.
  cbv zeta. intros Hlt Hfirst Hconfirmed.
  destruct (LobbyMember_slots w member) as [Hcur Hpend]. cbv zeta in Hcur, Hpend.
  unfold FindLobbyMemberTeam. rewrite Hcur, Hpend, !find_member_team_find_member.
  destruct (LobbyMember.m_Pending member).
  - rewrite (proj2 (find_member_None _ _) (Hconfirmed eq_refl)). simpl.
    rewrite bool_decide_eq_true_2 by exact Hlt.
    by rewrite find_member_insert.
  - rewrite bool_decide_eq_true_2 by exact Hlt.
    by rewrite find_member_insert.
Qed.

(** X12. The relationship of two identifiers.  It is [Neither] as soon as
    one of them has no slot; an identifier that has a slot is on the same
    team as itself, so the comparison of an identifier with itself never
    throws; and when [OppositeTeam] undoes itself the result does not depend
    on the order of the two identifiers. *)
Theorem GetTeamShareResult_ids_relation (w : World) (id0 id1 : SteamID) :
  (~ has_slot w id0 \/ ~ has_slot w id1 ->
   GetTeamShareResult_ids w id0 id1 = Returned Neither) /\
  GetTeamShareResult_ids w id0 id0
  = Returned (match FindLobbyMemberTeam w id0 with
              | Some _ => SameTeams
              | None => Neither
              end) /\
  ((forall t, OppositeTeam (OppositeTeam t) = t) ->
   GetTeamShareResult_ids w id0 id1 = GetTeamShareResult_ids w id1 id0).
Proof.
  unfold GetTeamShareResult_ids. split; [| split].
  - intros [Hnone | Hnone];
      apply FindLobbyMemberTeam_None in Hnone; rewrite Hnone;
      [reflexivity |].
    by destruct (FindLobbyMemberTeam w id0).
  - destruct (FindLobbyMemberTeam w id0) as [t |]; simpl; [| reflexivity].
    by rewrite bool_decide_eq_true_2.
  - intros Hinvolution.
    destruct (FindLobbyMemberTeam w id0) as [t0 |], (FindLobbyMemberTeam w id1) as [t1 |];
      simpl; try reflexivity.
    destruct (bool_decide_reflect (t0 = t1)) as [-> | Hne].
    + by rewrite bool_decide_eq_true_2.
    + rewrite (bool_decide_eq_false_2 (t1 = t0)) by congruence.
      destruct (bool_decide_reflect (t0 = OppositeTeam t1)) as [-> | Hnopp].
      * by rewrite Hinvolution, bool_decide_eq_true_2.
      * rewrite bool_decide_eq_false_2; [reflexivity |].
        intros ->. apply Hnopp. by rewrite Hinvolution.
Qed.

End LobbyQueries.

Section PlayerQueries.
Context {Team State : Type} `{!HeaderDecls Team State}.

Abbreviation Player := (PlayerExtraData.t State).
Abbreviation Table := (list (SteamID * PlayerExtraData.t State)).
Abbreviation World := (WorldState.t Team State).
Abbreviation Member := (LobbyMember.t Team).
Abbreviation Line := (IConsoleLine Team State).

(** X13. The user id of a player.  When every record is stored under its
    own identifier, [FindUserID] is the lookup of the record followed by
    [GetUserID]: it returns nothing for an identifier without a record and
    for a record whose user id is zero, and a user id it returns is
    positive. *)
Theorem FindUserID_is_lookup (w : World) (id : SteamID) :
  Forall (fun kp => GetSteamID (snd kp) = fst kp) (WorldState.m_CurrentPlayerData w) ->
  FindUserID w id = FindPlayer w id ≫= GetUserID /\
  (FindPlayer w id = None -> FindUserID w id = None) /\
  (forall p, FindPlayer w id = Some p ->
             PlayerStatus.m_UserID (PlayerExtraData.m_Status p) = 0%N ->
             FindUserID w id = None) /\
  (forall userID, FindUserID w id = Some userID -> (0 < userID)%N).
Proof.
  intros Hids. unfold FindUserID, FindPlayer.
  assert (Hloop : FindUserID_loop (WorldState.m_CurrentPlayerData w) id
                  = table_find (WorldState.m_CurrentPlayerData w) id ≫= GetUserID).
  { induction Hids as [| [k q] rest Hhd _ IH]; simpl; [reflexivity |].
    simpl in Hhd. rewrite Hhd.
    destruct (bool_decide (k = id)); [reflexivity | exact IH]. }
  rewrite Hloop. split; [reflexivity |]. split; [by intros -> |]. split.
  - intros p -> Hzero. simpl. unfold GetUserID. by rewrite Hzero.
  - intros userID.
    destruct (table_find (WorldState.m_CurrentPlayerData w) id) as [p |]; simpl;
      [| discriminate].
    unfold GetUserID.
    destruct (N.ltb_spec 0 (PlayerStatus.m_UserID (PlayerExtraData.m_Status p)));
      [| discriminate].
    by intros [= <-].
Qed.

Lemma lookup_all_length (tbl : Table) (slots : list Member) :
  length (fst (lookup_all tbl slots)) <= length slots /\
  Forall (fun p => p ∈ map snd tbl) (fst (lookup_all tbl slots)).
Proof.
  induction slots as [| member rest [IHlen IHin]]; simpl; [split; [lia | constructor] |].
  unfold GetPlayer.
  destruct (table_find tbl (LobbyMember.m_SteamID member)) as [p |] eqn:Hfind;
    [| simpl; split; [lia | constructor]].
  destruct (lookup_all tbl rest) as [more ended]. simpl in *.
  split; [lia |]. constructor; [| exact IHin].
  apply table_find_elem_of in Hfind.
  apply list_elem_of_In, in_map_iff. exists (LobbyMember.m_SteamID member, p).
  split; [reflexivity | by apply list_elem_of_In].
Qed.

(** X14. The lobby members and their approximate count.  The iteration
    yields at most as many players as [GetApproxLobbyMemberCount] says, every
    player it yields is a record of the player table, and with both slot
    vectors empty it yields nothing and ends normally. *)
Theorem GetLobbyMembers_within_approx_count (w : World) :
  length (fst (GetLobbyMembers w)) <= GetApproxLobbyMemberCount w /\
  Forall (fun p => p ∈ GetPlayers w) (fst (GetLobbyMembers w)) /\
  (GetApproxLobbyMemberCount w = 0 -> GetLobbyMembers w = ([], None)).
Proof.
  rewrite GetLobbyMembers_lookup_all.
  destruct (lookup_all_length (WorldState.m_CurrentPlayerData w) (looked_up_slots w))
    as [Hlen Hin].
  split; [| split; [exact Hin |]].
  - etransitivity; [exact Hlen |].
    unfold looked_up_slots, GetApproxLobbyMemberCount. rewrite length_app.
    pose proof (length_filter (fun member : Member => IsValid member = true)
                  (WorldState.m_CurrentLobbyMembers w)).
    pose proof (length_filter
                  (fun member : Member =>
                     IsValid member = true /\
                     in_current (WorldState.m_CurrentLobbyMembers w) member = false)
                  (WorldState.m_PendingLobbyMembers w)).
    lia.
  - unfold GetApproxLobbyMemberCount, looked_up_slots. intros Hzero.
    destruct (WorldState.m_CurrentLobbyMembers w); [| simpl in Hzero; lia].
    destruct (WorldState.m_PendingLobbyMembers w); [| simpl in Hzero; lia].
    reflexivity.
Qed.

(** X15. The recent players at the ends of the range of counts.  With a
    count of zero, and with an empty player table, the query returns the
    empty list and nothing else; with a count that is at least the number of
    records it returns all of them, each once. *)
Theorem GetRecentPlayers_edge_counts (tbl : Table) (recentPlayerCount : nat)
    (result : list Player) :
  GetRecentPlayersImpl tbl recentPlayerCount result ->
  (recentPlayerCount = 0 -> result = []) /\
  (tbl = [] -> result = []) /\
  (length tbl <= recentPlayerCount -> Permutation (map snd tbl) result) /\
  Forall (fun p => p ∈ map snd tbl) result.
Proof.
  intros (retVal & [Hperm Hsorted] & ->).
  assert (Hlen : length retVal = length tbl).
  { by rewrite <- (Permutation_length Hperm), length_map. }
  split; [| split; [| split]].
  - intros ->. case_bool_decide; [reflexivity |].
    destruct retVal; [reflexivity | simpl in *; lia].
  - intros ->. simpl in Hlen. destruct retVal; [| discriminate].
    case_bool_decide; [apply take_nil | reflexivity].
  - intros Hall. by rewrite bool_decide_eq_false_2 by lia.
  - apply Forall_forall. intros p Hp. rewrite Hperm.
    case_bool_decide; [| exact Hp].
    apply elem_of_take in Hp as (i & Hi & _). by apply (list_elem_of_lookup_2 _ i).
Qed.

End PlayerQueries.

Section StatusFacts.
Context {Team State : Type} `{!HeaderDecls Team State}.

Abbreviation Player := (PlayerExtraData.t State).
Abbreviation Table := (list (SteamID * PlayerExtraData.t State)).
Abbreviation World := (WorldState.t Team State).
Abbreviation Member := (LobbyMember.t Team).
Abbreviation Line := (IConsoleLine Team State).

(** X16. A lobby member line and the player record.  Whether or not the
    index is within the slot vector, the line leaves a record for the
    member's identifier, created if there was none, whose team is Red for a
    Defenders member and Blue for any other; the other members of that
    record and the records of all other identifiers are as before, and no
    event is raised. *)
Theorem LobbyMember_sets_player_team (w : World) (member : Member) :
  let id := LobbyMember.m_SteamID member in
  let w' := fst (OnConsoleLineParsed w (LobbyMemberLine member)) in
  FindPlayer w' id
  = Some (PlayerExtraData.with_Team (entry_of w id)
            (Some (if bool_decide (LobbyMember.m_Team member = Defenders)
                   then Red else Blue))) /\
  (forall id', id' <> id -> FindPlayer w' id' = FindPlayer w id') /\
  snd (OnConsoleLineParsed w (LobbyMemberLine member)) = [].
Proof.
  cbv zeta. unfold entry_of, OnConsoleLineParsed, FindPlayer.
  set (id := LobbyMember.m_SteamID member).
  assert (Htbl : forall cur pend,
            WorldState.m_CurrentPlayerData (WorldState.with_lobby w cur pend)
            = WorldState.m_CurrentPlayerData w) by reflexivity.
  destruct (FindOrCreatePlayer_spec (WorldState.m_CurrentPlayerData w) id) as [Hfind Hentry].
  pose proof (FindOrCreatePlayer_other (WorldState.m_CurrentPlayerData w) id) as Hother.
  destruct (LobbyMember.m_Pending member); rewrite Htbl;
    destruct (FindOrCreatePlayer (WorldState.m_CurrentPlayerData w) id) as [tbl player];
    simpl in *; subst player;
    (split; [apply table_find_store; by rewrite Hfind |]);
    (split; [| reflexivity]);
    intros id' Hne; rewrite table_find_store_ne by exact Hne; by apply Hother.
Qed.

(** The record of the reported identifier after a full status line, and the
    records of the other identifiers. *)
Lemma PlayerStatus_record (w : World) (timestamp : time_point_t)
    (status : PlayerStatus.t State) :
  let id := PlayerStatus.m_SteamID status in
  let w' := fst (OnConsoleLineParsed w (ServerStatusPlayerLine timestamp status)) in
  exists p',
    FindPlayer w' id = Some p' /\
    snd (OnConsoleLineParsed w (ServerStatusPlayerLine timestamp status))
    = [OnPlayerStatusUpdate p'] /\
    GetSteamID p' = id /\
    name_of p' = PlayerStatus.m_Name status /\
    GetLastStatusUpdateTime p' = timestamp /\
    PlayerExtraData.m_Team p' = PlayerExtraData.m_Team (entry_of w id) /\
    PlayerExtraData.m_ClientIndex p' = PlayerExtraData.m_ClientIndex (entry_of w id) /\
    (forall id', id' <> id -> FindPlayer w' id' = FindPlayer w id').
Proof.
  cbv zeta. unfold entry_of, OnConsoleLineParsed, FindPlayer.
  set (id := PlayerStatus.m_SteamID status).
  destruct (FindOrCreatePlayer_spec (WorldState.m_CurrentPlayerData w) id) as [Hfind Hentry].
  pose proof (FindOrCreatePlayer_other (WorldState.m_CurrentPlayerData w) id) as Hother.
  destruct (FindOrCreatePlayer (WorldState.m_CurrentPlayerData w) id) as [tbl player].
  simpl in *. subst player.
  eexists. split; [apply table_find_store; by rewrite Hfind |].
  repeat split; try reflexivity.
  intros id' Hne. rewrite table_find_store_ne by exact Hne. by apply Hother.
Qed.

(** X17. A full status line and the rest of the state.  The line leaves a
    record for the reported identifier, created if there was none, that keeps
    its team and its client index; the records of all other identifiers, the
    slot vectors, the flags and the current timestamp are as before; the
    session-wide last status update becomes the later of itself and the
    line's timestamp; and exactly one status event is raised, for the updated
    record. *)
Theorem PlayerStatus_frame (w : World) (timestamp : time_point_t)
    (status : PlayerStatus.t State) :
  let id := PlayerStatus.m_SteamID status in
  let w' := fst (OnConsoleLineParsed w (ServerStatusPlayerLine timestamp status)) in
  exists p',
    FindPlayer w' id = Some p' /\
    snd (OnConsoleLineParsed w (ServerStatusPlayerLine timestamp status))
    = [OnPlayerStatusUpdate p'] /\
    GetSteamID p' = id /\
    name_of p' = PlayerStatus.m_Name status /\
    PlayerExtraData.m_Team p' = PlayerExtraData.m_Team (entry_of w id) /\
    PlayerExtraData.m_ClientIndex p' = PlayerExtraData.m_ClientIndex (entry_of w id) /\
    (forall id', id' <> id -> FindPlayer w' id' = FindPlayer w id') /\
    WorldState.m_LastStatusUpdateTime w'
    = Z.max (WorldState.m_LastStatusUpdateTime w) timestamp /\
    WorldState.with_LastStatusUpdateTime
      (WorldState.with_players w' (WorldState.m_CurrentPlayerData w))
      (WorldState.m_LastStatusUpdateTime w) = w.
Proof.
  cbv zeta.
  destruct (PlayerStatus_record w timestamp status)
    as (p' & Hfind & Hevent & Hid & Hname & Htime & Hteam & Hindex & Hframe).
  exists p'. repeat split; try assumption.
  - unfold OnConsoleLineParsed.
    destruct (FindOrCreatePlayer (WorldState.m_CurrentPlayerData w)
                (PlayerStatus.m_SteamID status)).
    reflexivity.
  - unfold OnConsoleLineParsed.
    destruct (FindOrCreatePlayer (WorldState.m_CurrentPlayerData w)
                (PlayerStatus.m_SteamID status)).
    by destruct w.
Qed.

(** X18. A full status line makes the player resolvable by name.  In a
    state that satisfies the table invariant, after a status line with a
    timestamp later than the zero time point, the reported name resolves to
    the reported identifier, provided every other record of that name was
    last updated earlier than the line's timestamp. *)
Theorem PlayerStatus_then_FindSteamIDForName (w : World) (timestamp : time_point_t)
    (status : PlayerStatus.t State) :
  table_wf (WorldState.m_CurrentPlayerData w) ->
  (0 < timestamp)%Z ->
  (forall id' q, FindPlayer w id' = Some q ->
                 id' <> PlayerStatus.m_SteamID status ->
                 name_of q = PlayerStatus.m_Name status ->
                 (GetLastStatusUpdateTime q < timestamp)%Z) ->
  FindSteamIDForName (fst (OnConsoleLineParsed w (ServerStatusPlayerLine timestamp status)))
                     (PlayerStatus.m_Name status)
  = Some (PlayerStatus.m_SteamID status).
Proof.
  intros Hwf Hpos Hothers.
  set (id := PlayerStatus.m_SteamID status) in *.
  set (name := PlayerStatus.m_Name status) in *.
  set (w' := fst (OnConsoleLineParsed w (ServerStatusPlayerLine timestamp status))).
  destruct (PlayerStatus_record w timestamp status)
    as (p' & Hfind & _ & Hid & Hname & Htime & _ & _ & Hframe).
  fold id w' in Hfind, Hframe, Hid. fold name in Hname.
  assert (Hwf' : table_wf (WorldState.m_CurrentPlayerData w'))
    by (by apply OnConsoleLineParsed_table_wf).
  assert (Hin : (id, p') ∈ WorldState.m_CurrentPlayerData w')
    by (by apply table_find_elem_of).
  unfold FindSteamIDForName.
  destruct (FindSteamIDForName_loop_spec (WorldState.m_CurrentPlayerData w') name None 0%Z)
    as [[_ Hall] | (pre & k & p & post & Htbl & Hsome & Hn & _ & Hpre & Hpost)].
  { specialize (Hall id p' Hin Hname). lia. }
  rewrite Hsome. f_equal.
  destruct (decide (k = id)) as [-> | Hne].
  - assert (Hp : table_find (WorldState.m_CurrentPlayerData w') id = Some p).
    { apply elem_of_table_find; [apply Hwf' |].
      rewrite Htbl. apply elem_of_app. right. by left. }
    unfold FindPlayer in Hfind. rewrite Hfind in Hp. by injection Hp as <-.
  - exfalso.
    assert (Hold : FindPlayer w k = Some p).
    { rewrite <- (Hframe k Hne). unfold FindPlayer.
      apply elem_of_table_find; [apply Hwf' |].
      rewrite Htbl. apply elem_of_app. right. by left. }
    pose proof (Hothers k p Hold Hne Hn) as Hearlier.
    rewrite Htbl in Hin.
    apply elem_of_app in Hin as [Hin | Hin].
    + specialize (Hpre id p' Hin Hname). lia.
    + apply elem_of_cons in Hin as [Heq | Hin]; [congruence |].
      specialize (Hpost id p' Hin Hname). lia.
Qed.

(** X19. The active time.  A status that is not active reads as an active
    time of zero; a status that turns a player active starts the active time
    at zero; and while the player stays active the active time grows by the
    time between the status updates. *)
Theorem SetStatus_active_time (p : Player) (status : PlayerStatus.t State)
    (timestamp : time_point_t) :
  (PlayerStatus.m_State status <> Active ->
   GetActiveTime (SetStatus p status timestamp) = 0%Z) /\
  (PlayerStatus.m_State (PlayerExtraData.m_Status p) <> Active ->
   PlayerStatus.m_State status = Active ->
   GetActiveTime (SetStatus p status timestamp) = 0%Z) /\
  (PlayerStatus.m_State (PlayerExtraData.m_Status p) = Active ->
   PlayerStatus.m_State status = Active ->
   GetActiveTime (SetStatus p status timestamp)
   = (GetActiveTime p + (timestamp - GetLastStatusUpdateTime p))%Z).
Proof.
  unfold GetActiveTime, SetStatus, GetLastStatusUpdateTime. simpl.
  split; [| split].
  - intros Hinactive. by rewrite bool_decide_eq_true_2.
  - intros Hbefore Hactive.
    rewrite (bool_decide_eq_false_2 (PlayerStatus.m_State status <> Active)) by tauto.
    rewrite bool_decide_eq_true_2 by exact Hbefore.
    rewrite bool_decide_eq_true_2 by exact Hactive. simpl. lia.
  - intros Hbefore Hactive.
    rewrite (bool_decide_eq_false_2 (PlayerStatus.m_State status <> Active)) by tauto.
    rewrite (bool_decide_eq_false_2
               (PlayerStatus.m_State (PlayerExtraData.m_Status p) <> Active)) by tauto.
    simpl. lia.
Qed.

End StatusFacts.

(** ** Chunks and line boundaries *)

Lemma join_lines_app (lines lines' : list (list ascii)) :
  join_lines (lines ++ lines') = join_lines lines ++ join_lines lines'.
Proof. unfold join_lines. by rewrite map_app, concat_app. Qed.

(** Behind a chunk that ends at a line boundary, the lines of what follows
    are found as if it stood alone. *)
Lemma split_lines_app (chunk chunk' : list ascii) :
  snd (split_lines chunk) = [] ->
  split_lines (chunk ++ chunk')
  = (fst (split_lines chunk) ++ fst (split_lines chunk'), snd (split_lines chunk')).
Proof.
  intros Hboundary.
  destruct (split_lines_spec chunk) as (Hchunk & Hlines & _).
  destruct (split_lines_spec chunk') as (Hchunk' & Hlines' & Htail').
  rewrite Hboundary, app_nil_r in Hchunk.
  rewrite Hchunk at 1. rewrite Hchunk' at 1.
  rewrite app_assoc, <- join_lines_app.
  apply split_lines_unique; [| exact Htail'].
  apply Forall_app. by split.
Qed.

Section ChunkFacts.
Context {Team State : Type} `{!HeaderDecls Team State}.
Variable ParseConsoleLine : list ascii -> time_point_t -> option (IConsoleLine Team State).
Variable listeners : list Listener.

Abbreviation World := (WorldState.t Team State).

Lemma AddConsoleOutputChunk_dispatch (w : World) (chunk : list ascii) :
  AddConsoleOutputChunk ParseConsoleLine listeners w chunk
  = dispatch_lines ParseConsoleLine listeners w (fst (split_lines chunk)).
Proof.
  unfold AddConsoleOutputChunk.
  rewrite AddConsoleOutputChunk_loop_lines by (rewrite drop_0; lia).
  by rewrite drop_0.
Qed.

Lemma dispatch_lines_app (w : World) (lines lines' : list (list ascii)) :
  dispatch_lines ParseConsoleLine listeners w (lines ++ lines')
  = let '(w1, out1) := dispatch_lines ParseConsoleLine listeners w lines in
    let '(w2, out2) := dispatch_lines ParseConsoleLine listeners w1 lines' in
    (w2, out1 ++ out2).
Proof.
  revert w.
  induction lines as [| line rest IH]; intros w; simpl.
  - by destruct (dispatch_lines ParseConsoleLine listeners w lines').
  - destruct (AddConsoleOutputLine ParseConsoleLine listeners w line) as [w1 out1].
    rewrite IH.
    destruct (dispatch_lines ParseConsoleLine listeners w1 rest) as [w2 out2].
    destruct (dispatch_lines ParseConsoleLine listeners w2 lines') as [w3 out3].
    by rewrite app_assoc.
Qed.

(** X20. Chunks and line boundaries.  A chunk made of lines without line
    feeds, each followed by a line feed, and a rest without line feed is
    dispatched as exactly those lines.  Two chunks of which the first is
    empty or ends in a line feed have the same effect one after the other as
    their concatenation has at once.  A line that is cut in two by a chunk
    boundary is not put together again: the part in the first chunk is
    dropped and the part in the second is dispatched as a line of its own. *)
Theorem AddConsoleOutputChunk_boundaries (w : World) :
  (forall lines rest,
     Forall (fun line => LF ∉ line) lines -> LF ∉ rest ->
     AddConsoleOutputChunk ParseConsoleLine listeners w (join_lines lines ++ rest)
     = dispatch_lines ParseConsoleLine listeners w lines) /\
  (forall chunk chunk',
     snd (split_lines chunk) = [] ->
     AddConsoleOutputChunk ParseConsoleLine listeners w (chunk ++ chunk')
     = let '(w1, out1) := AddConsoleOutputChunk ParseConsoleLine listeners w chunk in
       let '(w2, out2) := AddConsoleOutputChunk ParseConsoleLine listeners w1 chunk' in
       (w2, out1 ++ out2)) /\
  (forall head tail,
     LF ∉ head -> LF ∉ tail ->
     AddConsoleOutputChunk ParseConsoleLine listeners w head = (w, []) /\
     AddConsoleOutputChunk ParseConsoleLine listeners w (tail ++ [LF])
     = dispatch_lines ParseConsoleLine listeners w [tail] /\
     AddConsoleOutputChunk ParseConsoleLine listeners w (head ++ tail ++ [LF])
     = dispatch_lines ParseConsoleLine listeners w [head ++ tail]).
Proof.
  split; [| split].
  - intros lines rest Hlines Hrest.
    by rewrite AddConsoleOutputChunk_dispatch, split_lines_unique.
  - intros chunk chunk' Hboundary.
    rewrite !AddConsoleOutputChunk_dispatch, (split_lines_app _ _ Hboundary). simpl.
    rewrite dispatch_lines_app.
    destruct (dispatch_lines ParseConsoleLine listeners w (fst (split_lines chunk)))
      as [w1 out1].
    by rewrite AddConsoleOutputChunk_dispatch.
  - intros head tail Hhead Htail.
    assert (Hone : forall line, LF ∉ line -> split_lines (line ++ [LF]) = ([line], [])).
    { intros line Hline.
      assert (Hlines : Forall (fun l : list ascii => LF ∉ l) [line])
        by (constructor; [exact Hline | constructor]).
      pose proof (split_lines_unique [line] [] Hlines (not_elem_of_nil LF)) as Hsplit.
      unfold join_lines in Hsplit. simpl in Hsplit.
      by rewrite !app_nil_r in Hsplit. }
    rewrite !AddConsoleOutputChunk_dispatch.
    rewrite (split_lines_no_LF _ Hhead), (Hone _ Htail).
    rewrite app_assoc, Hone; [done |].
    rewrite not_elem_of_app. by split.
Qed.

End ChunkFacts.

Section HandlerFacts.
Context {Team State : Type} `{!HeaderDecls Team State}.

Abbreviation Player := (PlayerExtraData.t State).
Abbreviation World := (WorldState.t Team State).
Abbreviation Line := (IConsoleLine Team State).

(** X21. Class configs.  For each of the nine class configs the spawn event
    carries the class the file is named after; the local player is marked
    initialised afterwards, nothing else changes, and the initialisation
    event follows the spawn event exactly when the local player was not
    marked initialised before.  Hence a second class config raises the spawn
    event only, and after a new game, connecting or reached-spawn line the
    next class config announces the initialisation again.  A config-exec line
    for any other file changes nothing and raises nothing. *)
Theorem OnConfigExecLineParsed_class_configs (w : World) :
  (forall cfgName cl,
     (cfgName, cl)
     ∈ [("scout.cfg", Scout); ("sniper.cfg", Sniper); ("soldier.cfg", Soldier);
        ("demoman.cfg", Demoman); ("medic.cfg", Medic); ("heavyweapons.cfg", Heavy);
        ("pyro.cfg", Pyro); ("spy.cfg", Spy); ("engineer.cfg", Engie)] ->
     OnConsoleLineParsed w (ConfigExecLine cfgName)
     = (WorldState.with_initialized w true,
        OnLocalPlayerSpawned cl
        :: (if WorldState.m_IsLocalPlayerInitialized w then []
            else [OnLocalPlayerInitialized true])) /\
     snd (OnConsoleLineParsed (fst (OnConsoleLineParsed w (ConfigExecLine cfgName)))
            (ConfigExecLine cfgName))
     = [OnLocalPlayerSpawned cl] /\
     (forall line : Line,
        line = HostNewGameLine \/ line = ConnectingLine \/ line = ClientReachedServerSpawnLine ->
        snd (OnConsoleLineParsed (fst (OnConsoleLineParsed w line)) (ConfigExecLine cfgName))
        = [OnLocalPlayerSpawned cl; OnLocalPlayerInitialized true])) /\
  (forall cfgName,
     cfgName ∉ ["scout.cfg"; "sniper.cfg"; "soldier.cfg"; "demoman.cfg"; "medic.cfg";
                "heavyweapons.cfg"; "pyro.cfg"; "spy.cfg"; "engineer.cfg"] ->
     OnConsoleLineParsed w (ConfigExecLine cfgName) = (w, [])).
Proof.
  split.
  - intros cfgName cl Hin.
    repeat (apply elem_of_cons in Hin as [[= -> ->] | Hin];
            [destruct w as [settings cur pend tbl [] vote last now];
             (split; [reflexivity | split; [reflexivity |]]);
             intros line [-> | [-> | ->]]; reflexivity |]).
    inversion Hin.
  - intros cfgName Hother.
    assert (Hnot : is_class_config cfgName = false).
    { unfold is_class_config.
      repeat (rewrite (bool_decide_eq_false_2 (cfgName = _));
              [| intros ->; apply Hother; set_solver]).
      reflexivity. }
    unfold OnConsoleLineParsed, OnConfigExecLineParsed. by rewrite Hnot.
Qed.

Lemma emplace_first (id : SteamID) (p : Player) : emplace [] id p = [(id, p)].
Proof. apply Permutation_singleton_r, emplace_entries. Qed.

(** X22. A member line after a reset.  After a lobby-changed line of type
    [Created], and after a lobby-status-failure line in a state with a
    non-empty slot vector, a member line for any identifier, known before or
    not, writes no slot, since both vectors are empty until the next header,
    and leaves a player table that holds one freshly constructed record with
    nothing but the team set. *)
Theorem LobbyMember_after_reset (w : World) (member : LobbyMember.t Team) :
  let fresh :=
    PlayerExtraData.with_Team (new_PlayerExtraData (LobbyMember.m_SteamID member))
      (Some (if bool_decide (LobbyMember.m_Team member = Defenders) then Red else Blue)) in
  let expected :=
    WorldState.with_players (WorldState.with_lobby w [] [])
      [(LobbyMember.m_SteamID member, fresh)] in
  run_lines w [LobbyChangedLine Created; LobbyMemberLine member] = expected /\
  (WorldState.m_CurrentLobbyMembers w <> [] \/ WorldState.m_PendingLobbyMembers w <> [] ->
   run_lines w [LobbyStatusFailedLine; LobbyMemberLine member] = expected).
Proof.
  cbv zeta. unfold run_lines. simpl.
  split.
  - destruct (LobbyMember.m_Pending member); simpl; unfold FindOrCreatePlayer; simpl;
      rewrite emplace_first; simpl; by rewrite bool_decide_eq_true_2.
  - intros Hnonempty.
    assert (Hreset : negb (vector_empty (WorldState.m_CurrentLobbyMembers w))
                     || negb (vector_empty (WorldState.m_PendingLobbyMembers w)) = true).
    { destruct (WorldState.m_CurrentLobbyMembers w), (WorldState.m_PendingLobbyMembers w);
        simpl; try reflexivity. destruct Hnonempty; contradiction. }
    rewrite Hreset. simpl.
    destruct (LobbyMember.m_Pending member); simpl; unfold FindOrCreatePlayer; simpl;
      rewrite emplace_first; simpl; by rewrite bool_decide_eq_true_2.
Qed.

End HandlerFacts.

Section KillFacts.
Context {Team State : Type} `{!HeaderDecls Team State}.

Abbreviation Player := (PlayerExtraData.t State).
Abbreviation World := (WorldState.t Team State).
Abbreviation Line := (IConsoleLine Team State).

(** An assignment to the scores of a record that exists. *)
Lemma with_player_scores (w : World) (id : SteamID) (p : Player)
    (change : PlayerScores.t -> PlayerScores.t) :
  table_wf (WorldState.m_CurrentPlayerData w) ->
  FindPlayer w id = Some p ->
  let w' := with_player w id
              (fun q => PlayerExtraData.with_Scores q (change (PlayerExtraData.m_Scores q))) in
  table_wf (WorldState.m_CurrentPlayerData w') /\
  FindPlayer w' id = Some (PlayerExtraData.with_Scores p (change (PlayerExtraData.m_Scores p))) /\
  (forall id', id' <> id -> FindPlayer w' id' = FindPlayer w id') /\
  map fst (WorldState.m_CurrentPlayerData w') = map fst (WorldState.m_CurrentPlayerData w) /\
  (forall name, FindSteamIDForName w' name = FindSteamIDForName w name) /\
  WorldState.with_players w' (WorldState.m_CurrentPlayerData w) = w.
Proof.
  intros Hwf Hp. cbv zeta.
  pose proof (update_table_wf _ id
                (fun q => PlayerExtraData.with_Scores q (change (PlayerExtraData.m_Scores q)))
                Hwf (fun q => eq_refl)) as Hwf'.
  unfold with_player, FindOrCreatePlayer in *. unfold FindPlayer in *.
  rewrite Hp in *. simpl in *.
  split; [exact Hwf' |]. split; [| split; [| split; [| split]]].
  - apply table_find_store. by rewrite Hp.
  - intros id' Hne. by apply table_find_store_ne.
  - apply store_player_keys.
  - intros name. unfold FindSteamIDForName. simpl.
    apply FindSteamIDForName_loop_store.
    intros old Hold. rewrite Hp in Hold. by injection Hold as <-.
  - by destruct w.
Qed.

(** X23. A kill notification.  The two names are resolved in the state
    before the line, each on its own.  In a state that satisfies the table
    invariant the line creates no record and changes nothing but score
    counters: the record the attacker's name resolves to has its kills
    increased by one, and its kills of the local player as well when the
    victim's name resolves to the local player; the record the victim's name
    resolves to has its deaths increased by one, and its deaths to the local
    player as well when the attacker's name resolves to the local player.  A
    name that does not resolve changes no counter.  A counter wraps around
    at the number of values of its type.  No event is raised and every name
    resolves as before. *)
Theorem KillNotification_counts (w : World) (attackerName victimName : string) :
  table_wf (WorldState.m_CurrentPlayerData w) ->
  let attacker := FindSteamIDForName w attackerName in
  let victim := FindSteamIDForName w victimName in
  let localSteamID := Settings.m_LocalSteamID (WorldState.m_Settings w) in
  let w' := fst (OnConsoleLineParsed w (KillNotificationLine attackerName victimName)) in
  snd (OnConsoleLineParsed w (KillNotificationLine attackerName victimName)) = [] /\
  WorldState.with_players w' (WorldState.m_CurrentPlayerData w) = w /\
  map fst (WorldState.m_CurrentPlayerData w') = map fst (WorldState.m_CurrentPlayerData w) /\
  (forall id, FindPlayer w id = None -> FindPlayer w' id = None) /\
  (forall id p,
     FindPlayer w id = Some p ->
     let scores := PlayerExtraData.m_Scores p in
     FindPlayer w' id
     = Some (PlayerExtraData.with_Scores p
               (PlayerScores.mk
                  (if bool_decide (attacker = Some id)
                   then ((PlayerScores.m_Kills scores + 1) mod counter_values)%N
                   else PlayerScores.m_Kills scores)
                  (if bool_decide (victim = Some id)
                   then ((PlayerScores.m_Deaths scores + 1) mod counter_values)%N
                   else PlayerScores.m_Deaths scores)
                  (if bool_decide (attacker = Some id) && bool_decide (victim = Some localSteamID)
                   then ((PlayerScores.m_LocalKills scores + 1) mod counter_values)%N
                   else PlayerScores.m_LocalKills scores)
                  (if bool_decide (victim = Some id) && bool_decide (attacker = Some localSteamID)
                   then ((PlayerScores.m_LocalDeaths scores + 1) mod counter_values)%N
                   else PlayerScores.m_LocalDeaths scores)))) /\
  (forall name, FindSteamIDForName w' name = FindSteamIDForName w name).
Proof.
  intros Hwf. cbv zeta. unfold OnConsoleLineParsed.
  set (localSteamID := Settings.m_LocalSteamID (WorldState.m_Settings w)).
  assert (Hsame : forall (p : Player), PlayerExtraData.with_Scores p (PlayerExtraData.m_Scores p) = p)
    by (by intros []).
  assert (Hscores : forall p : Player,
            PlayerScores.mk (PlayerScores.m_Kills (PlayerExtraData.m_Scores p))
              (PlayerScores.m_Deaths (PlayerExtraData.m_Scores p))
              (PlayerScores.m_LocalKills (PlayerExtraData.m_Scores p))
              (PlayerScores.m_LocalDeaths (PlayerExtraData.m_Scores p))
            = PlayerExtraData.m_Scores p)
    by (intros p; by destruct (PlayerExtraData.m_Scores p)).
  destruct (FindSteamIDForName w attackerName) as [a |] eqn:Hattacker;
    destruct (FindSteamIDForName w victimName) as [v |] eqn:Hvictim; cbn [fst snd].
  - (* both names resolve *)
    destruct (FindSteamIDForName_known w attackerName a Hwf Hattacker) as (pa & Hpa & _).
    destruct (FindSteamIDForName_known w victimName v Hwf Hvictim) as (pv & Hpv & _).
    destruct (with_player_scores w a pa
                (fun scores => count_kill scores (bool_decide (Some v = Some localSteamID)))
                Hwf Hpa)
      as (Hwf1 & Ha1 & Hother1 & Hkeys1 & Hnames1 & Hframe1).
    cbv zeta in Hwf1, Ha1, Hother1, Hkeys1, Hnames1, Hframe1.
    remember (with_player w a _) as w1 eqn:Hw1 in *. clear Hw1.
    assert (Hv1 : exists pv1, FindPlayer w1 v = Some pv1 /\
                    pv1 = if bool_decide (v = a)
                          then PlayerExtraData.with_Scores pa
                                 (count_kill (PlayerExtraData.m_Scores pa)
                                    (bool_decide (Some v = Some localSteamID)))
                          else pv).
    { destruct (bool_decide_reflect (v = a)) as [Hva | Hva].
      - exists (PlayerExtraData.with_Scores pa
                  (count_kill (PlayerExtraData.m_Scores pa)
                     (bool_decide (Some v = Some localSteamID)))).
        split; [| reflexivity]. rewrite <- Ha1. congruence.
      - exists pv. split; [| reflexivity]. by rewrite Hother1. }
    destruct Hv1 as (pv1 & Hpv1 & Hpv1_is).
    destruct (with_player_scores w1 v pv1
                (fun scores => count_death scores (bool_decide (Some a = Some localSteamID)))
                Hwf1 Hpv1)
      as (Hwf2 & Hv2 & Hother2 & Hkeys2 & Hnames2 & Hframe2).
    cbv zeta in Hwf2, Hv2, Hother2, Hkeys2, Hnames2, Hframe2.
    remember (with_player w1 v _) as w2 eqn:Hw2 in *. clear Hw2.
    split; [reflexivity |]. split; [| split; [| split; [| split]]].
    + clear -Hframe1 Hframe2. destruct w, w1, w2.
      unfold WorldState.with_players in *. simpl in *.
      injection Hframe1 as -> -> -> -> -> -> ->.
      injection Hframe2 as -> -> -> -> -> -> ->. reflexivity.
    + by rewrite Hkeys2, Hkeys1.
    + intros id Hnone.
      assert (id <> a) by congruence. assert (id <> v) by congruence.
      by rewrite Hother2, Hother1.
    + intros id p Hp. cbv zeta.
      destruct (decide (id = v)) as [-> | Hidv].
      * rewrite Hv2, Hpv1_is. f_equal.
        rewrite Hpv in Hp. injection Hp as ->.
        destruct (bool_decide_reflect (v = a)) as [Hva | Hva].
        -- subst a. rewrite Hpa in Hpv. injection Hpv as ->.
           rewrite !(bool_decide_eq_true_2 (Some v = Some v)) by reflexivity.
           unfold count_kill, count_death, counter_succ. simpl.
           by destruct (bool_decide (Some v = Some localSteamID)).
        -- rewrite (bool_decide_eq_false_2 (Some a = Some v)) by congruence.
           rewrite (bool_decide_eq_true_2 (Some v = Some v)) by reflexivity.
           unfold count_death, counter_succ. simpl.
           by destruct (bool_decide (Some a = Some localSteamID)).
      * rewrite Hother2 by exact Hidv.
        rewrite (bool_decide_eq_false_2 (Some v = Some id)) by congruence.
        destruct (decide (id = a)) as [-> | Hida].
        -- rewrite Ha1. f_equal. rewrite Hpa in Hp. injection Hp as ->.
           rewrite (bool_decide_eq_true_2 (Some a = Some a)) by reflexivity.
           unfold count_kill, counter_succ. simpl.
           by destruct (bool_decide (Some v = Some localSteamID)).
        -- rewrite Hother1 by exact Hida. rewrite Hp. f_equal.
           rewrite (bool_decide_eq_false_2 (Some a = Some id)) by congruence.
           simpl. by rewrite Hscores, Hsame.
    + intros name. by rewrite Hnames2, Hnames1.
  - (* the attacker's name resolves, the victim's does not *)
    destruct (FindSteamIDForName_known w attackerName a Hwf Hattacker) as (pa & Hpa & _).
    destruct (with_player_scores w a pa
                (fun scores => count_kill scores (bool_decide (None = Some localSteamID)))
                Hwf Hpa)
      as (Hwf1 & Ha1 & Hother1 & Hkeys1 & Hnames1 & Hframe1).
    cbv zeta in Hwf1, Ha1, Hother1, Hkeys1, Hnames1, Hframe1.
    remember (with_player w a _) as w1 eqn:Hw1 in *. clear Hw1.
    split; [reflexivity |]. split; [exact Hframe1 |]. split; [exact Hkeys1 |].
    split; [| split; [| exact Hnames1]].
    + intros id Hnone. assert (id <> a) by congruence. by rewrite Hother1.
    + intros id p Hp. cbv zeta.
      rewrite (bool_decide_eq_false_2 (None = Some id)) by discriminate.
      rewrite (bool_decide_eq_false_2 (None = Some localSteamID)) in * by discriminate.
      destruct (decide (id = a)) as [-> | Hida].
      * rewrite Ha1. f_equal. rewrite Hpa in Hp. injection Hp as ->.
        by rewrite (bool_decide_eq_true_2 (Some a = Some a)) by reflexivity.
      * rewrite Hother1 by exact Hida. rewrite Hp. f_equal.
        rewrite (bool_decide_eq_false_2 (Some a = Some id)) by congruence.
        simpl. by rewrite Hscores, Hsame.
  - (* the victim's name resolves, the attacker's does not *)
    destruct (FindSteamIDForName_known w victimName v Hwf Hvictim) as (pv & Hpv & _).
    destruct (with_player_scores w v pv
                (fun scores => count_death scores (bool_decide (None = Some localSteamID)))
                Hwf Hpv)
      as (Hwf1 & Hv1 & Hother1 & Hkeys1 & Hnames1 & Hframe1).
    cbv zeta in Hwf1, Hv1, Hother1, Hkeys1, Hnames1, Hframe1.
    remember (with_player w v _) as w1 eqn:Hw1 in *. clear Hw1.
    split; [reflexivity |]. split; [exact Hframe1 |]. split; [exact Hkeys1 |].
    split; [| split; [| exact Hnames1]].
    + intros id Hnone. assert (id <> v) by congruence. by rewrite Hother1.
    + intros id p Hp. cbv zeta.
      rewrite (bool_decide_eq_false_2 (None = Some id)) by discriminate.
      rewrite (bool_decide_eq_false_2 (None = Some localSteamID)) in * by discriminate.
      destruct (decide (id = v)) as [-> | Hidv].
      * rewrite Hv1. f_equal. rewrite Hpv in Hp. injection Hp as ->.
        rewrite (bool_decide_eq_true_2 (Some v = Some v)) by reflexivity.
        by rewrite andb_false_r.
      * rewrite Hother1 by exact Hidv. rewrite Hp. f_equal.
        rewrite (bool_decide_eq_false_2 (Some v = Some id)) by congruence.
        simpl. by rewrite Hscores, Hsame.
  - (* neither name resolves *)
    split; [reflexivity |]. split; [by destruct w |]. split; [reflexivity |].
    split; [done |]. split; [| done].
    intros id p Hp. cbv zeta.
    rewrite (bool_decide_eq_false_2 (None = Some id)) by discriminate.
    simpl. by rewrite Hp, Hscores, Hsame.
Qed.

End KillFacts.

(** ** The properties above on concrete states *)

Lemma two_known_players_wf :
  table_wf (WorldState.m_CurrentPlayerData Cases.two_known_players).
Proof. apply run_lines_table_wf. split; constructor. Qed.

Lemma LastStatusUpdateTime_bounds_players_witness :
  status_time_bound Cases.two_known_players /\
  status_time_bound
    (fst (OnConsoleLineParsed Cases.two_known_players
            (ServerStatusPlayerLine 30%Z (Sample.status 5%N "ann" 100000%Z)))).
Proof.
  assert (Hbound : status_time_bound Cases.two_known_players).
  { split; [vm_compute; discriminate |].
    repeat constructor; vm_compute; discriminate. }
  split; [exact Hbound |].
  apply (LastStatusUpdateTime_bounds_players Cases.two_known_players _ Hbound).
Defined.

Lemma Ping_touches_ping_only_witness :
  exists p',
    FindPlayer (fst (OnConsoleLineParsed Cases.two_known_players
                       (PingLine 30%Z "ann" 40%N))) 5%N = Some p' /\
    PlayerStatus.m_Ping (PlayerExtraData.m_Status p') = 40%N /\
    PlayerExtraData.m_LastPingUpdateTime p' = 30%Z /\
    PlayerExtraData.m_LastStatusUpdateTime p' = 20%Z.
Proof.
  destruct (Ping_touches_ping_only Cases.two_known_players 30%Z "ann" 40%N
              two_known_players_wf) as (_ & _ & Hresolved & _).
  destruct (Hresolved 5%N eq_refl) as (p & Hp & _ & Hp').
  eexists. split; [exact Hp' |].
  injection Hp as <-. repeat split.
Defined.

Lemma PlayerStatusShort_touches_client_index_only_witness :
  fst (OnConsoleLineParsed Cases.two_known_players (ServerStatusShortPlayerLine "zed" 3%N))
  = Cases.two_known_players.
Proof.
  destruct (PlayerStatusShort_touches_client_index_only Cases.two_known_players "zed" 3%N
              two_known_players_wf) as (_ & Hunknown & _).
  apply Hunknown. reflexivity.
Defined.

Lemma Chat_and_Dropped_raise_for_named_player_witness :
  snd (OnConsoleLineParsed Cases.two_known_players (ChatConsoleLine "zed" "hello")) = [] /\
  snd (OnConsoleLineParsed Cases.two_known_players (ServerDroppedPlayerLine "zed" "hello")) = [].
Proof.
  destruct (Chat_and_Dropped_raise_for_named_player Cases.two_known_players "zed" "hello"
              two_known_players_wf) as (_ & _ & Hunknown & _).
  apply Hunknown. reflexivity.
Defined.

Lemma session_start_lines_reset_flags_witness :
  fst (OnConsoleLineParsed Cases.two_known_players ConnectingLine)
  = WorldState.with_vote (WorldState.with_initialized Cases.two_known_players false) false.
Proof.
  apply (session_start_lines_reset_flags Cases.two_known_players ConnectingLine).
  right. by left.
Defined.

Lemma LobbyChanged_invalidates_client_indices_witness :
  OnConsoleLineParsed Cases.two_known_players (LobbyChangedLine OtherChange)
  = (Cases.two_known_players, []).
Proof.
  apply (LobbyChanged_invalidates_client_indices Cases.two_known_players).
Defined.

Lemma LobbyHeader_resizes_slots_witness :
  WorldState.m_CurrentLobbyMembers
    (fst (OnConsoleLineParsed Cases.two_known_players (LobbyHeaderLine 3 1))) !! 2
  = Some empty_slot /\
  fst (OnConsoleLineParsed Cases.two_known_players (LobbyHeaderLine 2 1))
  = Cases.two_known_players.
Proof.
  split.
  - destruct (LobbyHeader_resizes_slots Cases.two_known_players 3 1)
      as (_ & _ & _ & Hcurrent & _).
    apply (Hcurrent 2). lia.
  - destruct (LobbyHeader_resizes_slots Cases.two_known_players 2 1)
      as (_ & _ & _ & _ & _ & _ & _ & Hsame & _).
    apply Hsame; reflexivity.
Defined.

Lemma FindLobbyMemberTeam_first_slot_witness :
  FindLobbyMemberTeam Cases.two_known_players 6%N
  = LobbyMember.m_Team <$> GetLobbyMember Cases.two_known_players (new_PlayerExtraData 6%N).
Proof.
  destruct (FindLobbyMemberTeam_first_slot Cases.two_known_players 6%N) as (_ & Hslot & _).
  apply Hslot. reflexivity.
Defined.

Lemma LobbyMember_then_FindLobbyMemberTeam_witness :
  FindLobbyMemberTeam
    (fst (OnConsoleLineParsed Sample.lobby_2_1 (LobbyMemberLine (Sample.member 5%N 1 false))))
    5%N
  = Some Sample.defenders.
Proof.
  apply (LobbyMember_then_FindLobbyMemberTeam Sample.lobby_2_1 (Sample.member 5%N 1 false)).
  - vm_compute. lia.
  - intros j other Hj Hother. destruct j as [| j]; [| simpl in Hj; lia].
    vm_compute in Hother. injection Hother as <-. discriminate.
  - discriminate.
Defined.

Lemma GetTeamShareResult_ids_relation_witness :
  GetTeamShareResult_ids Cases.two_known_players 5%N 9%N = Returned Neither.
Proof.
  apply (proj1 (GetTeamShareResult_ids_relation Cases.two_known_players 5%N 9%N)).
  right. apply FindLobbyMemberTeam_None. reflexivity.
Defined.

Lemma FindUserID_is_lookup_witness :
  FindUserID Cases.two_known_players 5%N
  = FindPlayer Cases.two_known_players 5%N ≫= GetUserID.
Proof.
  apply (FindUserID_is_lookup Cases.two_known_players 5%N).
  apply two_known_players_wf.
Defined.

Lemma GetLobbyMembers_within_approx_count_witness :
  GetLobbyMembers Sample.empty_world = ([], None).
Proof.
  apply (GetLobbyMembers_within_approx_count Sample.empty_world).
  reflexivity.
Defined.

Lemma GetRecentPlayers_edge_counts_witness :
  GetRecentPlayersImpl Sample.three_players 0 [] /\
  Permutation (map snd Sample.three_players)
    (map snd (drop 1 Sample.three_players ++ take 1 Sample.three_players)).
Proof.
  assert (Hsorted : std_sort_result more_recent (map snd Sample.three_players)
                      (map snd (drop 1 Sample.three_players ++ take 1 Sample.three_players))).
  { split.
    - apply (Permutation_cons_append (map snd (drop 1 Sample.three_players))).
    - repeat constructor. }
  split.
  - eexists. split; [exact Hsorted | reflexivity].
  - apply (GetRecentPlayers_edge_counts Sample.three_players 3).
    + eexists. split; [exact Hsorted | reflexivity].
    + simpl. lia.
Defined.

Lemma LobbyMember_sets_player_team_witness :
  FindPlayer (fst (OnConsoleLineParsed Cases.two_known_players
                     (LobbyMemberLine (Sample.member 9%N 7 false)))) 5%N
  = FindPlayer Cases.two_known_players 5%N.
Proof.
  apply (LobbyMember_sets_player_team Cases.two_known_players (Sample.member 9%N 7 false)).
  discriminate.
Defined.

Lemma PlayerStatus_frame_witness :
  exists p',
    FindPlayer (fst (OnConsoleLineParsed Cases.two_known_players
                       (ServerStatusPlayerLine 30%Z (Sample.status 5%N "amy" 100000%Z)))) 5%N
    = Some p' /\
    name_of p' = "amy" /\
    PlayerExtraData.m_Team p' = Some Red.
Proof.
  destruct (PlayerStatus_frame Cases.two_known_players 30%Z
              (Sample.status 5%N "amy" 100000%Z))
    as (p' & Hfind & _ & _ & Hname & Hteam & _).
  exists p'. split; [exact Hfind |]. split; [exact Hname | exact Hteam].
Defined.

Lemma PlayerStatus_then_FindSteamIDForName_witness :
  FindSteamIDForName
    (fst (OnConsoleLineParsed Cases.two_known_players
            (ServerStatusPlayerLine 30%Z (Sample.status 7%N "bob" 100000%Z))))
    "bob"
  = Some 7%N.
Proof.
  apply (PlayerStatus_then_FindSteamIDForName Cases.two_known_players 30%Z
           (Sample.status 7%N "bob" 100000%Z) two_known_players_wf).
  - reflexivity.
  - intros id' q Hfind _ _.
    apply table_find_elem_of in Hfind.
    assert (Hbound : Forall (fun kp => (GetLastStatusUpdateTime (snd kp) < 30)%Z)
                            (WorldState.m_CurrentPlayerData Cases.two_known_players))
      by (repeat constructor).
    rewrite Forall_forall in Hbound. exact (Hbound _ Hfind).
Defined.

Lemma SetStatus_active_time_witness :
  GetActiveTime (SetStatus Sample.bob_first (Sample.status 1%N "bob" 100000%Z) 9%Z) = 4%Z /\
  GetActiveTime
    (SetStatus Sample.bob_first
       (PlayerStatus.mk 1%N "bob" Sample.connecting 100000%Z 1%N 30%N) 9%Z) = 0%Z.
Proof.
  split.
  - destruct (SetStatus_active_time Sample.bob_first (Sample.status 1%N "bob" 100000%Z) 9%Z)
      as (_ & _ & Hactive).
    apply Hactive; reflexivity.
  - destruct (SetStatus_active_time Sample.bob_first
                (PlayerStatus.mk 1%N "bob" Sample.connecting 100000%Z 1%N 30%N) 9%Z)
      as (Hinactive & _).
    apply Hinactive. discriminate.
Defined.

Lemma AddConsoleOutputChunk_boundaries_witness :
  AddConsoleOutputChunk Sample.parse Sample.listeners Sample.lobby_2_1
    (list_ascii_of_string "Failed to find lobby " ++ list_ascii_of_string "shared object" ++ [LF])
  = dispatch_lines Sample.parse Sample.listeners Sample.lobby_2_1
      [list_ascii_of_string "Failed to find lobby " ++ list_ascii_of_string "shared object"] /\
  AddConsoleOutputChunk Sample.parse Sample.listeners Sample.lobby_2_1
    (list_ascii_of_string "Failed to find lobby ")
  = (Sample.lobby_2_1, []).
Proof.
  destruct (proj2 (proj2 (AddConsoleOutputChunk_boundaries Sample.parse Sample.listeners
                            Sample.lobby_2_1))
              (list_ascii_of_string "Failed to find lobby ")
              (list_ascii_of_string "shared object"))
    as (Hhead & _ & Hwhole).
  - apply (bool_decide_unpack _). vm_compute. exact I.
  - apply (bool_decide_unpack _). vm_compute. exact I.
  - split; [exact Hwhole | exact Hhead].
Defined.

Lemma OnConfigExecLineParsed_class_configs_witness :
  OnConsoleLineParsed Sample.empty_world (ConfigExecLine "spy.cfg")
  = (WorldState.with_initialized Sample.empty_world true,
     [OnLocalPlayerSpawned Spy; OnLocalPlayerInitialized true]) /\
  OnConsoleLineParsed Sample.empty_world (ConfigExecLine "autoexec.cfg")
  = (Sample.empty_world, []).
Proof.
  destruct (OnConfigExecLineParsed_class_configs Sample.empty_world) as [Hclass Hother].
  split.
  - apply (Hclass "spy.cfg" Spy). apply (bool_decide_unpack _). vm_compute. exact I.
  - apply Hother. apply (bool_decide_unpack _). vm_compute. exact I.
Defined.

Lemma LobbyMember_after_reset_witness :
  run_lines Cases.two_known_players
    [LobbyStatusFailedLine; LobbyMemberLine (Sample.member 5%N 0 false)]
  = WorldState.with_players (WorldState.with_lobby Cases.two_known_players [] [])
      [(5%N, PlayerExtraData.with_Team (new_PlayerExtraData 5%N) (Some Red))].
Proof.
  rewrite (proj2 (LobbyMember_after_reset Cases.two_known_players
                    (Sample.member 5%N 0 false)))
    by (left; vm_compute; discriminate).
  reflexivity.
Defined.

Lemma KillNotification_counts_witness :
  (exists attacker victim,
     FindPlayer (fst (OnConsoleLineParsed Cases.two_known_players
                        (KillNotificationLine "bob" "ann"))) 6%N = Some attacker /\
     PlayerExtraData.m_Scores attacker = PlayerScores.mk 1%N 0%N 1%N 0%N /\
     FindPlayer (fst (OnConsoleLineParsed Cases.two_known_players
                        (KillNotificationLine "bob" "ann"))) 5%N = Some victim /\
     PlayerExtraData.m_Scores victim = PlayerScores.mk 0%N 1%N 0%N 0%N) /\
  (exists attacker victim,
     FindPlayer (fst (OnConsoleLineParsed Cases.two_known_players
                        (KillNotificationLine "bob" "zed"))) 6%N = Some attacker /\
     PlayerExtraData.m_Scores attacker = PlayerScores.mk 1%N 0%N 0%N 0%N /\
     FindPlayer (fst (OnConsoleLineParsed Cases.two_known_players
                        (KillNotificationLine "bob" "zed"))) 5%N = Some victim /\
     PlayerExtraData.m_Scores victim = PlayerScores.mk 0%N 0%N 0%N 0%N).
Proof.
  split.
  - destruct (KillNotification_counts Cases.two_known_players "bob" "ann"
                two_known_players_wf) as (_ & _ & _ & _ & Hcounts & _).
    eexists _, _. split; [apply (Hcounts 6%N _ eq_refl) |]. split; [reflexivity |].
    split; [apply (Hcounts 5%N _ eq_refl) | reflexivity].
  - destruct (KillNotification_counts Cases.two_known_players "bob" "zed"
                two_known_players_wf) as (_ & _ & _ & _ & Hcounts & _).
    eexists _, _. split; [apply (Hcounts 6%N _ eq_refl) |]. split; [reflexivity |].
    split; [apply (Hcounts 5%N _ eq_refl) | reflexivity].
Defined.
